(** * Exosphere TypeScript SDK runtime: work queue, node validation,
      poller, worker pool and signal protocol.

    Shallow embedding of
      - exospherehost/runtime.ts   (AsyncQueue, Runtime)
      - exospherehost/signals.ts   (PruneSignal, ReQueueAfterSignal)
      - exospherehost/node/BaseNode.ts (BaseNode._execute)
      - exospherehost/utils.ts     (isZodObjectSchema, isZodStringSchema,
                                    generateFlatSchema)
      - exospherehost/logger.ts    (Logger)
      - exospherehost/stateManager.ts (StateManager)
      - exospherehost/models.ts    (the callbacks of the schemas)

    JavaScript values are a small inductive type.  An asynchronous method
    is a computation that is given the events so far and the queue, and
    leaves a [Run]: its result (resolved or rejected), the events it
    emitted (every outbound fetch, log line, sleep and queue hand-over) and
    the queue.  The network is an arbitrary oracle; the rendered text of
    engine and library errors (TypeError, SyntaxError, ZodError) is an
    arbitrary function.  Tasks are not interleaved: a statement about one
    turn of a worker or of the poller holds for every oracle and every
    past, whatever other tasks did before. *)

From Stdlib Require Import String List ZArith Bool Lia Arith DecimalString.
Import ListNotations.
Set Warnings "-register-all".
Local Open Scope string_scope.
Local Open Scope list_scope.

(* ===================================================================== *)
(** ** JavaScript values and plain objects *)
(* ===================================================================== *)

Module Js.

(** A JS number is kept as an integer: the runtime only uses numbers as
    counts and millisecond delays. *)
Inductive JsValue : Type :=
| JUndefined
| JNull
| JBool (b : bool)
| JNum (n : Z)
| JStr (s : string)
| JArr (elems : list JsValue)
| JObj (fields : list (string * JsValue)).

(** Own-property lookup in an insertion-ordered property list. *)
Fixpoint own_get {V : Type} (props : list (string * V)) (k : string) : option V :=
  match props with
  | [] => None
  | (k', v) :: rest => if String.eqb k' k then Some v else own_get rest k
  end.

(** [obj[k] = v] on an own-property list: overwrite in place, or append. *)
Fixpoint own_set {V : Type} (props : list (string * V)) (k : string) (v : V)
  : list (string * V) :=
  match props with
  | [] => [(k, v)]
  | (k', v') :: rest =>
      if String.eqb k' k then (k, v) :: rest else (k', v') :: own_set rest k v
  end.

(** [Object.fromEntries(entries)]: a later entry overrides an earlier one. *)
Definition fromEntries {V : Type} (entries : list (string * V)) : list (string * V) :=
  fold_left (fun acc kv => own_set acc (fst kv) (snd kv)) entries [].

(** What a property read finds on [Object.prototype] when the object has
    no own property of that name. *)
Inductive ProtoMember : Type :=
| ProtoObjectCtor      (* "constructor": the function Object *)
| ProtoBuiltinMethod   (* toString, valueOf, ...: functions that are not constructors *)
| ProtoPrototypeObject (* "__proto__": Object.prototype itself *).

Definition object_prototype (k : string) : option ProtoMember :=
  if String.eqb k "constructor" then Some ProtoObjectCtor
  else if String.eqb k "__proto__" then Some ProtoPrototypeObject
  else if existsb (String.eqb k)
            ["toString"; "toLocaleString"; "valueOf"; "hasOwnProperty";
             "isPrototypeOf"; "propertyIsEnumerable";
             "__defineGetter__"; "__defineSetter__";
             "__lookupGetter__"; "__lookupSetter__"]
       then Some ProtoBuiltinMethod
  else None.

Inductive Lookup (V : Type) : Type :=
| Own (v : V)
| Inherited (m : ProtoMember)
| Absent.
Arguments Own {V} v.
Arguments Inherited {V} m.
Arguments Absent {V}.

(** [obj[k]] on an object literal (prototype [Object.prototype]). *)
Definition get {V : Type} (props : list (string * V)) (k : string) : Lookup V :=
  match own_get props k with
  | Some v => Own v
  | None =>
      match object_prototype k with
      | Some m => Inherited m
      | None => Absent
      end
  end.

(** [v.k] read as a value, for data objects (parsed JSON, thrown values):
    a missing property reads as [undefined]. *)
Definition field (fields : list (string * JsValue)) (k : string) : JsValue :=
  match own_get fields k with
  | Some v => v
  | None => JUndefined
  end.

(** [a ?? b] *)
Definition nullish (a b : JsValue) : JsValue :=
  match a with
  | JUndefined | JNull => b
  | _ => a
  end.

(** What [JSON.stringify] puts on the wire: properties whose value is
    [undefined] are dropped, [undefined] array elements become [null]. *)
Fixpoint json_wire (v : JsValue) : JsValue :=
  match v with
  | JArr elems =>
      JArr (map (fun x => match x with
                          | JUndefined => JNull
                          | _ => json_wire x
                          end) elems)
  | JObj fields =>
      JObj ((fix go (fs : list (string * JsValue)) : list (string * JsValue) :=
               match fs with
               | [] => []
               | (k, JUndefined) :: rest => go rest
               | (k, x) :: rest => (k, json_wire x) :: go rest
               end) fields)
  | _ => v
  end.

(** [String(v)], the conversion applied by template literals and by
    property keys, where it returns (see [converts]); a number is an
    integer below 10^21 in absolute value, which the engine prints in
    full. *)
Fixpoint to_string (v : JsValue) : string :=
  match v with
  | JUndefined => "undefined"
  | JNull => "null"
  | JBool true => "true"
  | JBool false => "false"
  | JNum n => NilZero.string_of_int (Z.to_int n)
  | JStr s => s
  | JArr elems =>
      String.concat ","
        (map (fun x => match x with
                       | JUndefined | JNull => ""
                       | _ => to_string x
                       end) elems)
  | JObj _ => "[object Object]"
  end.

(** Whether the conversion to a string returns.  On an object literal it
    calls [toString], then [valueOf], skipping one that is not callable:
    an own [toString] property holds a data value, which is not callable,
    and [Object.prototype.valueOf] returns the object itself, which is no
    primitive, so that the conversion throws a TypeError.  An array
    converts its elements, [undefined] and [null] apart. *)
Fixpoint converts (v : JsValue) : bool :=
  match v with
  | JArr elems =>
      forallb (fun x => match x with
                        | JUndefined | JNull => true
                        | _ => converts x
                        end) elems
  | JObj fields =>
      match own_get fields "toString" with
      | Some _ => false
      | None => true
      end
  | _ => true
  end.

(** The line-feed character of the source's ['\n']. *)
Definition nl : string := String (Ascii.ascii_of_nat 10) EmptyString.

End Js.

(* ===================================================================== *)
(** ** The fragment of Zod the runtime relies on *)
(* ===================================================================== *)

Module Zod.
Import Js.

(** Schemas by [_def.typeName].  An object schema carries its [shape].
    A string, number or boolean schema is the plain one ([z.string()],
    [z.number()], [z.boolean()]), with no check, coercion or default: a
    string schema with a check or with coercion has the same [typeName]
    but another [parse], and is not in this fragment. *)
Inductive ZodType : Type :=
| ZodString
| ZodNumber
| ZodBoolean
| ZodObject (shape : list (string * ZodType)).

(** utils.ts [isZodObjectSchema]: the [typeName] test. *)
Definition isZodObjectSchema (x : ZodType) : bool :=
  match x with
  | ZodObject _ => true
  | _ => false
  end.

(** utils.ts [isZodStringSchema]. *)
Definition isZodStringSchema (x : ZodType) : bool :=
  match x with
  | ZodString => true
  | _ => false
  end.

(** [schema.shape]: only object schemas have one. *)
Definition shape_of (x : ZodType) : option (list (string * ZodType)) :=
  match x with
  | ZodObject shape => Some shape
  | _ => None
  end.

Inductive JsType : Type :=
| TUndefined | TNull | TBoolean | TNumber | TString | TArray | TObject.

Definition type_of (v : JsValue) : JsType :=
  match v with
  | JUndefined => TUndefined
  | JNull => TNull
  | JBool _ => TBoolean
  | JNum _ => TNumber
  | JStr _ => TString
  | JArr _ => TArray
  | JObj _ => TObject
  end.

(** One [invalid_type] issue of a ZodError. *)
Record ZodIssue : Type := mkIssue {
  path : list string;
  expected : JsType;
  received : JsType
}.

Definition under (k : string) (i : ZodIssue) : ZodIssue :=
  mkIssue (k :: path i) (expected i) (received i).

(** [schema.parse(v)]: [inr] the parsed value, or [inl] the issues of the
    ZodError it throws.  Object schemas are in Zod's default strip mode:
    the result holds the shape's keys only, every field is parsed, and
    the issues of all fields are collected. *)
Fixpoint parse (t : ZodType) (v : JsValue) : list ZodIssue + JsValue :=
  match t with
  | ZodString =>
      match v with
      | JStr _ => inr v
      | _ => inl [mkIssue [] TString (type_of v)]
      end
  | ZodNumber =>
      match v with
      | JNum _ => inr v
      | _ => inl [mkIssue [] TNumber (type_of v)]
      end
  | ZodBoolean =>
      match v with
      | JBool _ => inr v
      | _ => inl [mkIssue [] TBoolean (type_of v)]
      end
  | ZodObject shape =>
      match v with
      | JObj fields =>
          match
            (fix go (sh : list (string * ZodType))
               : list ZodIssue * list (string * JsValue) :=
               match sh with
               | [] => ([], [])
               | (k, ft) :: rest =>
                   let (issues, out) := go rest in
                   match parse ft (field fields k) with
                   | inl errs => (map (under k) errs ++ issues, out)
                   | inr JUndefined => (issues, out)
                   | inr pv => (issues, (k, pv) :: out)
                   end
               end) shape
          with
          | ([], out) => inr (JObj out)
          | (issues, _) => inl issues
          end
      | _ => inl [mkIssue [] TObject (type_of v)]
      end
  end.

(** [results.map(r => schema.parse(r))]: the first element that fails
    throws, and its ZodError is the one that escapes. *)
Fixpoint parse_all (t : ZodType) (results : list JsValue)
  : list ZodIssue + list JsValue :=
  match results with
  | [] => inr []
  | r :: rest =>
      match parse t r with
      | inl issues => inl issues
      | inr parsed =>
          match parse_all t rest with
          | inl issues => inl issues
          | inr others => inr (parsed :: others)
          end
      end
  end.

End Zod.

(* ===================================================================== *)
(** ** signals.ts *)
(* ===================================================================== *)

Module Signals.
Import Js.

(** [class PruneSignal extends Error { constructor(public data = {}) }] *)
Record PruneSignal : Type := mkPrune { data : JsValue }.

Definition PruneSignal_new (data : option JsValue) : PruneSignal :=
  match data with
  | Some d => mkPrune d
  | None => mkPrune (JObj [])
  end.

(** [class ReQueueAfterSignal extends Error { constructor(public delayMs) }] *)
Record ReQueueAfterSignal : Type := mkReQueueAfter { delayMs : Z }.

(** The constructor: [inl] is the message of the Error it throws. *)
Definition ReQueueAfterSignal_new (delayMs : Z) : string + ReQueueAfterSignal :=
  if (delayMs <=? 0)%Z
  then inl "Delay must be greater than 0"
  else inr (mkReQueueAfter delayMs).

End Signals.

(* ===================================================================== *)
(** ** runtime.ts: AsyncQueue *)
(* ===================================================================== *)

Module AsyncQueue.

Section Queue.
(** [T] is the item type; [R] names a resolver, that is, the pending
    promise of one suspended [get] call. *)
Context {T R : Type}.

Record t : Type := mk {
  items : list T;
  resolvers : list R;
  capacity : Z
}.

(** [new AsyncQueue(capacity)] *)
Definition create (capacity : Z) : t := mk [] [] capacity.

(** [size()] *)
Definition size (q : t) : nat := length (items q).

(** [put(item)]: [Some (r, item)] is the call [resolve(item)] on the
    oldest waiting resolver; [None] means the item was pushed. *)
Definition put (q : t) (item : T) : option (R * T) * t :=
  match resolvers q with
  | r :: rest => (Some (r, item), mk (items q) rest (capacity q))
  | [] => (None, mk (items q ++ [item]) [] (capacity q))
  end.

Inductive GetResult : Type :=
| Ready (item : T)   (* the promise is already resolved with [item] *)
| Pending.           (* the caller is suspended on resolver [r] *)

(** [get()], called by the task whose resolver is [r]. *)
Definition get (q : t) (r : R) : GetResult * t :=
  match items q with
  | item :: rest => (Ready item, mk rest (resolvers q) (capacity q))
  | [] => (Pending, mk [] (resolvers q ++ [r]) (capacity q))
  end.

(** *** Runs of calls, instrumented *)

(** One call made on the queue by some task; a [get] names the resolver
    its promise would be parked under. *)
Inductive Op : Type :=
| Put (item : T)
| Get (r : R).

(** What a run has shown so far: every hand-over of an item to a [get]
    caller (oldest first) and how each call was served. *)
Record Observed : Type := mkObserved {
  delivered : list (R * T);
  pushed : nat;   (* puts that appended to the buffer *)
  handed : nat;   (* puts that resolved a waiting get *)
  taken : nat;    (* gets answered from the buffer *)
  parked : nat    (* gets that suspended *)
}.

Definition nothing_observed : Observed := mkObserved [] 0 0 0 0.

Definition step (st : t * Observed) (op : Op) : t * Observed :=
  let (q, o) := st in
  match op with
  | Put item =>
      match put q item with
      | (Some d, q') =>
          (q', mkObserved (delivered o ++ [d]) (pushed o) (S (handed o))
                          (taken o) (parked o))
      | (None, q') =>
          (q', mkObserved (delivered o) (S (pushed o)) (handed o)
                          (taken o) (parked o))
      end
  | Get r =>
      match get q r with
      | (Ready item, q') =>
          (q', mkObserved (delivered o ++ [(r, item)]) (pushed o) (handed o)
                          (S (taken o)) (parked o))
      | (Pending, q') =>
          (q', mkObserved (delivered o) (pushed o) (handed o)
                          (taken o) (S (parked o)))
      end
  end.

Definition run (ops : list Op) (q : t) : t * Observed :=
  fold_left step ops (q, nothing_observed).

(** The items put, and the resolvers of the gets, in call order. *)
Definition puts_of (ops : list Op) : list T :=
  flat_map (fun op => match op with Put item => [item] | Get _ => [] end) ops.

Definition gets_of (ops : list Op) : list R :=
  flat_map (fun op => match op with Put _ => [] | Get r => [r] end) ops.

End Queue.

Arguments t : clear implicits.
Arguments GetResult : clear implicits.
Arguments Op : clear implicits.
Arguments Observed : clear implicits.

End AsyncQueue.

(* ===================================================================== *)
(** ** runtime.ts: Runtime *)
(* ===================================================================== *)

Module Runtime.
Import Js Zod Signals.
Local Open Scope string_scope.

(** *** Thrown values and handler outcomes *)

(** Errors raised by the engine or by Zod rather than by a [throw] of the
    source; all of them are [Error] instances. *)
Inductive EngineFault : Type :=
| NotAConstructor                  (* [new f()] on a non-constructor *)
| ReadOfNullish (prop : string)    (* [null.prop], [undefined.prop] *)
| KeysOfNullish                    (* [Object.keys(undefined)] *)
| InOnPrimitive                    (* ['k' in primitive] *)
| JsonSyntax                       (* [res.json()] on a non-JSON body *)
| NotIterable                      (* [for (... of x)] *)
| ZodFailure (issues : list ZodIssue)
| NoPrimitive.                     (* [`${x}`] on an object that does not convert *)

Inductive Thrown : Type :=
| ThrowError (message : string)             (* any [Error] that is not a signal *)
| ThrowPrune (s : PruneSignal)
| ThrowReQueueAfter (s : ReQueueAfterSignal)
| ThrowValue (v : JsValue).                 (* a data value that is not an [Error] *)

Inductive Outcome (A : Type) : Type :=
| Resolves (a : A)
| Rejects (t : Thrown).
Arguments Resolves {A} a.
Arguments Rejects {A} t.

(** *** Node handler classes *)

(** A value of type [NodeCtor].  The three static schemas are always
    present on such a value. [execute] is the user's method, a function of
    [this.inputs] and [this.secrets]. *)
Record NodeCtor : Type := mkNode {
  name : string;
  extendsBaseNode : bool;          (* [node.prototype instanceof BaseNode] *)
  Inputs : ZodType;
  Outputs : ZodType;
  Secrets : ZodType;
  construct : option Thrown;       (* what [new nodeCls()] throws, if anything *)
  execute : JsValue -> JsValue -> Outcome JsValue
}.

(** *** Construction *)

Record RuntimeOptions : Type := mkOptions {
  opt_stateManagerUri : option string;
  opt_key : option string;
  opt_batchSize : option Z;
  opt_workers : option Z;
  opt_stateManagerVersion : option string;
  opt_pollInterval : option Z
}.

Definition no_options : RuntimeOptions :=
  mkOptions None None None None None None.

(** [process.env] *)
Record Env : Type := mkEnv {
  EXOSPHERE_STATE_MANAGER_URI : option string;
  EXOSPHERE_API_KEY : option string
}.

(** The immutable fields of a Runtime; [stateQueue] is threaded through
    the computations. *)
Record t : Type := mk {
  namespace : string;
  runtime_name : string;
  nodes : list NodeCtor;
  key : string;
  stateManagerUri : string;
  stateManagerVersion : string;
  batchSize : Z;
  workers : Z;
  pollInterval : Z;
  nodeMapping : list (string * NodeCtor);
  nodeNames : list string
}.

Definition or_else {A : Type} (o : option A) (d : A) : A :=
  match o with
  | Some a => a
  | None => d
  end.

(** [validateRuntime()], for a batch size and a number of workers that
    are integers. *)
Definition validateRuntime (rt : t) : string + unit :=
  if (batchSize rt <? 1)%Z then inl "Batch size should be at least 1"
  else if (workers rt <? 1)%Z then inl "Workers should be at least 1"
  else if String.eqb (stateManagerUri rt) "" then inl "State manager URI is not set"
  else if String.eqb (key rt) "" then inl "API key is not set"
  else inr tt.

(** [checkStrings]: one message per shape key whose schema is not a
    string schema; [for ... in] over a missing shape iterates nothing. *)
Definition checkStrings (nodeName : string) (schema : ZodType) (label : string)
  : list string :=
  match shape_of schema with
  | Some shape =>
      flat_map (fun kv : string * ZodType =>
                  if isZodStringSchema (snd kv) then []
                  else [nodeName ++ "." ++ label ++ " field '" ++ fst kv
                        ++ "' must be string"])
               shape
  | None => []
  end.

(** The body of the [for (const node of this.nodes)] loop on a class of
    the type [NodeCtor]: the messages it pushes, in order.  With the three
    schemas there, none of the three ['X' in node] tests fires and
    [checkStrings] reads every [shape] off a schema.  [Classes.class_errors]
    below is the body on any class. *)
Definition node_errors (node : NodeCtor) : list string :=
  let nodeName := name node in
  List.concat
    [ if extendsBaseNode node then []
      else [nodeName ++ " does not inherit from BaseNode"];
      if isZodObjectSchema (Inputs node) then []
      else [nodeName ++ ".Inputs must be a ZodObject schema"];
      if isZodObjectSchema (Outputs node) then []
      else [nodeName ++ ".Outputs must be a ZodObject schema"];
      if isZodObjectSchema (Secrets node) then []
      else [nodeName ++ ".Secrets must be a ZodObject schema"];
      checkStrings nodeName (Inputs node) "Inputs";
      checkStrings nodeName (Outputs node) "Outputs";
      checkStrings nodeName (Secrets node) "Secrets" ].

(** [names.indexOf(n)], for an [n] known to occur: the first position. *)
Fixpoint indexOf (names : list string) (n : string) : nat :=
  match names with
  | [] => 0
  | m :: rest => if String.eqb m n then 0 else S (indexOf rest n)
  end.

(** [xs.filter((x, i) => p(x, i))], with the index counted from [i]. *)
Fixpoint filter_indexed {A : Type} (p : A -> nat -> bool) (i : nat) (xs : list A)
  : list A :=
  match xs with
  | [] => []
  | x :: rest =>
      if p x i then x :: filter_indexed p (S i) rest
      else filter_indexed p (S i) rest
  end.

(** [names.filter((n, i) => names.indexOf(n) !== i)] *)
Definition duplicates (names : list string) : list string :=
  filter_indexed (fun n i => negb (Nat.eqb (indexOf names n) i)) 0 names.

(** The [errors] array at the end of [validateNodes]. *)
Definition validation_errors (nodes : list NodeCtor) : list string :=
  let names := map name nodes in
  List.app
    (flat_map node_errors nodes)
    match duplicates names with
    | [] => []
    | dups => ["Duplicate node class names found: " ++ String.concat ", " dups]
    end.

Definition validateNodes (rt : t) : string + unit :=
  match validation_errors (nodes rt) with
  | [] => inr tt
  | errors => inl ("Node validation errors:" ++ nl ++ String.concat nl errors)
  end.

(** The field assignments at the top of the constructor. *)
Definition configure (env : Env) (namespace name_ : string) (nodes : list NodeCtor)
           (options : RuntimeOptions) : t :=
  {| namespace := namespace;
     runtime_name := name_;
     nodes := nodes;
     stateManagerUri :=
       or_else (opt_stateManagerUri options)
               (or_else (EXOSPHERE_STATE_MANAGER_URI env) "");
     key := or_else (opt_key options) (or_else (EXOSPHERE_API_KEY env) "");
     stateManagerVersion := or_else (opt_stateManagerVersion options) "v0";
     batchSize := or_else (opt_batchSize options) 16%Z;
     workers := or_else (opt_workers options) 4%Z;
     pollInterval := or_else (opt_pollInterval options) 1000%Z;
     nodeMapping := fromEntries (map (fun n => (name n, n)) nodes);
     nodeNames := map name nodes |}.

(** [new Runtime(namespace, name, nodes, options)]: [inl] is the message
    of the Error the constructor throws. *)
Definition create (env : Env) (namespace name_ : string) (nodes : list NodeCtor)
           (options : RuntimeOptions) : string + t :=
  let rt := configure env namespace name_ nodes options in
  match validateRuntime rt with
  | inl e => inl e
  | inr _ =>
      match validateNodes rt with
      | inl e => inl e
      | inr _ => inr rt
      end
  end.

(** The queue the constructor allocates. *)
Definition initial_queue (rt : t) : AsyncQueue.t JsValue nat :=
  AsyncQueue.create (2 * batchSize rt).

(** *** Endpoints *)

Definition base (rt : t) : string :=
  stateManagerUri rt ++ "/" ++ stateManagerVersion rt ++ "/namespace/"
  ++ namespace rt.

Definition getEnqueueEndpoint (rt : t) : string :=
  base rt ++ "/states/enqueue".
Definition getExecutedEndpoint (rt : t) (stateId : string) : string :=
  base rt ++ "/state/" ++ stateId ++ "/executed".
Definition getErroredEndpoint (rt : t) (stateId : string) : string :=
  base rt ++ "/state/" ++ stateId ++ "/errored".
Definition getSecretsEndpoint (rt : t) (stateId : string) : string :=
  base rt ++ "/state/" ++ stateId ++ "/secrets".
Definition getPruneEndpoint (rt : t) (stateId : string) : string :=
  base rt ++ "/state/" ++ stateId ++ "/prune".
Definition getRequeueAfterEndpoint (rt : t) (stateId : string) : string :=
  base rt ++ "/state/" ++ stateId ++ "/re-enqueue-after".

(** *** The world: network, log, timers and the queue *)

Record Request : Type := mkRequest {
  url : string;
  method : string;
  apiKey : string;                 (* the [x-api-key] header *)
  body : option JsValue            (* the value given to [JSON.stringify] *)
}.

(** [json = None]: the body is not JSON and [res.json()] rejects. *)
Record Response : Type := mkResponse {
  ok : bool;
  text : string;
  json : option JsValue
}.

(** A fetch resolves with a response or rejects with an Error (network
    failure), whose message is kept. *)
Inductive FetchResult : Type :=
| FetchRejects (message : string)
| FetchResolves (res : Response).

Inductive LogLevel : Type := DEBUG | INFO | WARN | ERROR.

(** One constructor per [logger] call of the poller, the reporters and
    the worker, holding the values the message interpolates. *)
Inductive LogLine : Type :=
| EnqueuedStates (n : nat)
| ErrorEnqueuingStates (e : Thrown)
| FailedToNotifyExecuted (stateId errorText : string)
| FailedToNotifyErrored (stateId errorText : string)
| FailedToGetSecrets (stateId errorText : string)
| SecretsNotFound (stateId : string)
| StartingWorker (idx : nat)
| UnknownNode (node_name : string)
| ExecutingState (stateId nodeName : string)
| GotSecrets (stateId nodeName : string)
| GotOutputs (stateId nodeName : string)
| NotifiedExecuted (stateId nodeName : string)
| Pruning (stateId nodeName : string)
| Pruned (stateId nodeName : string)
| Requeuing (stateId nodeName : string) (delayMs : Z)
| Requeued (stateId nodeName : string) (delayMs : Z)
| ErrorExecutingState (stateId nodeName : string) (err : Thrown)
| NotifiedErrored (stateId nodeName : string).

(** [EvNew] and [EvExecute] are ghost events: they mark where the worker
    evaluates [new nodeCls()] on a registered class and where [_execute]
    awaits the user's [execute()], with its outcome. *)
Inductive Event : Type :=
| EvFetch (req : Request) (res : FetchResult)
| EvLog (level : LogLevel) (line : LogLine)
| EvSleep (ms : Z)                      (* [setTimeout(r, ms)] awaited *)
| EvResolve (resolver : nat) (item : JsValue)  (* a suspended [get] is resolved *)
| EvNew (nodeCls : NodeCtor)
| EvExecute (nodeCls : NodeCtor) (outcome : Outcome JsValue).

Definition Queue : Type := AsyncQueue.t JsValue nat.

(** What a computation leaves behind: its result, the events it emitted
    (newest first) and the queue. *)
Record Run (R : Type) : Type := mkRun {
  result : R;
  emitted : list Event;
  queue : Queue
}.
Arguments mkRun {R} result emitted queue.
Arguments result {R} r.
Arguments emitted {R} r.
Arguments queue {R} r.

(** The requests among some events, oldest first. *)
Fixpoint requests (evs : list Event) : list Request :=
  match evs with
  | [] => []
  | EvFetch req _ :: rest => (requests rest ++ [req])%list
  | _ :: rest => requests rest
  end.

Definition calls_to (u : string) (evs : list Event) : list Request :=
  filter (fun req => String.eqb (url req) u) (requests evs).

Section Effects.

(** The orchestrator and the network: any function of what happened so
    far (newest first) and of the request. *)
Variable net : list Event -> Request -> FetchResult.
(** The message text of engine and Zod errors. *)
Variable engine_message : EngineFault -> string.
Variable rt : t.

(** An asynchronous computation, started after the events [past] with
    the queue [q]: it resolves ([inr]) or rejects ([inl]). *)
Definition M (A : Type) : Type := list Event -> Queue -> Run (Thrown + A).

Definition ret {A : Type} (a : A) : M A := fun _ q => mkRun (inr a) [] q.

Definition throw {A : Type} (t : Thrown) : M A := fun _ q => mkRun (inl t) [] q.

Definition bind {A B : Type} (m : M A) (k : A -> M B) : M B :=
  fun past q =>
    match m past q with
    | mkRun (inr a) d1 q1 =>
        match k a (d1 ++ past)%list q1 with
        | mkRun r d2 q2 => mkRun r (d2 ++ d1)%list q2
        end
    | mkRun (inl t) d1 q1 => mkRun (inl t) d1 q1
    end.

(** [try { m } catch (e) { ... }] as a value: never rejects. *)
Definition attempt {A : Type} (m : M A) : M (Thrown + A) :=
  fun past q =>
    match m past q with
    | mkRun r d1 q1 => mkRun (inr r) d1 q1
    end.

Definition emit (e : Event) : M unit := fun _ q => mkRun (inr tt) [e] q.

Definition fault {A : Type} (f : EngineFault) : M A :=
  throw (ThrowError (engine_message f)).

Definition log (level : LogLevel) (line : LogLine) : M unit :=
  emit (EvLog level line).

Definition sleep (ms : Z) : M unit := emit (EvSleep ms).

Definition fetch (req : Request) : M Response :=
  fun past q =>
    match net past req with
    | FetchRejects message =>
        mkRun (inl (ThrowError message)) [EvFetch req (net past req)] q
    | FetchResolves res =>
        mkRun (inr res) [EvFetch req (net past req)] q
    end.

(** [await res.json()] *)
Definition res_json (res : Response) : M JsValue :=
  match json res with
  | Some v => ret v
  | None => fault JsonSyntax
  end.

(** [v.k] for the property names the runtime reads ([states],
    [secrets], [node_name], [state_id], [inputs], [message]), none of
    which lives on a built-in prototype. *)
Definition prop (v : JsValue) (k : string) : M JsValue :=
  match v with
  | JUndefined | JNull => fault (ReadOfNullish k)
  | JObj fields => ret (field fields k)
  | _ => ret JUndefined
  end.

(** ['k' in v], same property names. *)
Definition has_in (k : string) (v : JsValue) : M bool :=
  match v with
  | JObj fields =>
      ret (match own_get fields k with Some _ => true | None => false end)
  | JArr _ => ret false
  | _ => fault InOnPrimitive
  end.

Notation "x <- m ;; k" := (bind m (fun x => k))
  (at level 61, m at next level, right associativity).
Notation "m ;;; k" := (bind m (fun _ => k))
  (at level 61, right associativity).

Definition post (u : string) (payload : JsValue) : Request :=
  mkRequest u "POST" (key rt) (Some payload).

(** *** Outcome reports *)

Definition notifyExecuted (stateId : string) (outputs : list JsValue) : M unit :=
  res <- fetch (post (getExecutedEndpoint rt stateId)
                     (JObj [("outputs", JArr outputs)])) ;;
  if ok res then ret tt
  else log ERROR (FailedToNotifyExecuted stateId (text res)).

(** [error] is typed [string] but receives whatever [err.message] is. *)
Definition notifyErrored (stateId : string) (error : JsValue) : M unit :=
  res <- fetch (post (getErroredEndpoint rt stateId)
                     (JObj [("error", error)])) ;;
  if ok res then ret tt
  else log ERROR (FailedToNotifyErrored stateId (text res)).

Definition getSecrets (stateId : string) : M JsValue :=
  res <- fetch (mkRequest (getSecretsEndpoint rt stateId) "GET" (key rt) None) ;;
  if negb (ok res) then
    log ERROR (FailedToGetSecrets stateId (text res)) ;;;
    ret (JObj [])
  else
    data <- res_json res ;;
    present <- has_in "secrets" data ;;
    if negb present then
      log ERROR (SecretsNotFound stateId) ;;;
      ret (JObj [])
    else
      secrets <- prop data "secrets" ;;
      ret (nullish secrets (JObj [])).

(** *** signals.ts: the [send] methods *)

Definition PruneSignal_send (s : PruneSignal) (endpoint key_ : string) : M unit :=
  res <- fetch (mkRequest endpoint "POST" key_
                          (Some (JObj [("data", data s)]))) ;;
  if negb (ok res)
  then throw (ThrowError ("Failed to send prune signal to " ++ endpoint))
  else ret tt.

Definition ReQueueAfterSignal_send (s : ReQueueAfterSignal)
           (endpoint key_ : string) : M unit :=
  res <- fetch (mkRequest endpoint "POST" key_
                          (Some (JObj [("enqueue_after", JNum (delayMs s))]))) ;;
  if negb (ok res)
  then throw (ThrowError ("Failed to send requeue after signal to " ++ endpoint))
  else ret tt.

(** [new ReQueueAfterSignal(delayMs)] evaluated inside a computation. *)
Definition new_ReQueueAfterSignal (delayMs : Z) : M ReQueueAfterSignal :=
  match ReQueueAfterSignal_new delayMs with
  | inl message => throw (ThrowError message)
  | inr s => ret s
  end.

(** *** BaseNode.ts *)

(** A Zod result as a computation: the ZodError is thrown. *)
Definition or_throw {A : Type} (r : list ZodIssue + A) : M A :=
  match r with
  | inr parsed => ret parsed
  | inl issues => fault (ZodFailure issues)
  end.

Definition await_outcome {A : Type} (o : Outcome A) : M A :=
  match o with
  | Resolves a => ret a
  | Rejects t => throw t
  end.

(** [BaseNode._execute(inputsRaw, secretsRaw)] on an instance of [ctor]. *)
Definition _execute (ctor : NodeCtor) (inputsRaw secretsRaw : JsValue)
  : M JsValue :=
  inputs <- or_throw (Zod.parse (Inputs ctor) inputsRaw) ;;
  secrets <- or_throw (Zod.parse (Secrets ctor) secretsRaw) ;;
  emit (EvExecute ctor (execute ctor inputs secrets)) ;;;
  result <- await_outcome (execute ctor inputs secrets) ;;
  match result with
  | JArr results =>
      parsed <- or_throw (Zod.parse_all (Outputs ctor) results) ;;
      ret (JArr parsed)
  | JNull => ret (JObj [])
  | _ => or_throw (Zod.parse (Outputs ctor) result)
  end.

(** *** The worker *)

Definition needSecrets (node : NodeCtor) : M bool :=
  match shape_of (Secrets node) with
  | Some shape => ret (Nat.ltb 0 (length shape))
  | None => fault KeysOfNullish
  end.

(** [Array.isArray(outputs) ? outputs : [outputs]] *)
Definition outArray (outputs : JsValue) : list JsValue :=
  match outputs with
  | JArr elems => elems
  | _ => [outputs]
  end.

(** The [try] block of the worker, for a registered class. *)
Definition run_node (nodeCls : NodeCtor) (state : JsValue) (stateId : string)
  : M unit :=
  need <- needSecrets nodeCls ;;
  secrets <- (if need
              then s <- getSecrets stateId ;;
                   log INFO (GotSecrets stateId (name nodeCls)) ;;;
                   ret s
              else ret (JObj [])) ;;
  inputs <- prop state "inputs" ;;
  outputs <- _execute nodeCls inputs secrets ;;
  log INFO (GotOutputs stateId (name nodeCls)) ;;;
  notifyExecuted stateId (outArray outputs) ;;;
  log INFO (NotifiedExecuted stateId (name nodeCls)).

(** The [catch (err)] block of the worker. *)
Definition handle_thrown (stateId nodeName : string) (err : Thrown) : M unit :=
  match err with
  | ThrowPrune s =>
      log INFO (Pruning stateId nodeName) ;;;
      PruneSignal_send s (getPruneEndpoint rt stateId) (key rt) ;;;
      log INFO (Pruned stateId nodeName)
  | ThrowReQueueAfter s =>
      log INFO (Requeuing stateId nodeName (delayMs s)) ;;;
      ReQueueAfterSignal_send s (getRequeueAfterEndpoint rt stateId) (key rt) ;;;
      log INFO (Requeued stateId nodeName (delayMs s))
  | ThrowError message =>
      log ERROR (ErrorExecutingState stateId nodeName err) ;;;
      notifyErrored stateId (JStr message) ;;;
      log INFO (NotifiedErrored stateId nodeName)
  | ThrowValue v =>
      (* the message of the log line interpolates [err] before anything
         is logged or reported *)
      if converts v then
        log ERROR (ErrorExecutingState stateId nodeName err) ;;;
        message <- prop v "message" ;;
        notifyErrored stateId message ;;;
        log INFO (NotifiedErrored stateId nodeName)
      else fault NoPrimitive
  end.

Definition try_catch (body : M unit) (handler : Thrown -> M unit) : M unit :=
  r <- attempt body ;;
  match r with
  | inr _ => ret tt
  | inl err => handler err
  end.

(** The first use of [state.state_id], in the message of a log line or
    in an endpoint: it is converted to a string there. *)
Definition with_state_id (state_id : JsValue) (k : string -> M unit) : M unit :=
  if converts state_id then k (to_string state_id) else fault NoPrimitive.

(** One turn of the worker's [while (true)], after [get] delivered
    [state].  A rejection here rejects the worker's promise.  The node
    name is converted to a property key by the lookup. *)
Definition worker_body (state : JsValue) : M unit :=
  node_name <- prop state "node_name" ;;
  state_id <- prop state "state_id" ;;
  if negb (converts node_name) then fault NoPrimitive
  else
  match Js.get (nodeMapping rt) (to_string node_name) with
  | Absent =>
      log ERROR (UnknownNode (to_string node_name)) ;;;
      with_state_id state_id (fun stateId =>
        notifyErrored stateId (JStr "Unknown node"))
  | Own nodeCls =>
      emit (EvNew nodeCls) ;;;
      match construct nodeCls with
      | Some t => throw t
      | None =>
          with_state_id state_id (fun stateId =>
            log INFO (ExecutingState stateId (name nodeCls)) ;;;
            try_catch (run_node nodeCls state stateId)
                      (handle_thrown stateId (name nodeCls)))
      end
  | Inherited ProtoObjectCtor =>
      (* [nodeCls] is the function [Object]: [new Object()] succeeds and
         [Object.Secrets] is undefined *)
      with_state_id state_id (fun stateId =>
        log INFO (ExecutingState stateId "Object") ;;;
        try_catch (fault (ReadOfNullish "shape"))
                  (handle_thrown stateId "Object"))
  | Inherited _ => fault NotAConstructor
  end.

Inductive WorkerStatus : Type :=
| Suspended               (* waiting in [get] for a producer *)
| Terminated (t : Thrown) (* the worker's promise rejected *)
| Running.                (* still looping: the fuel ran out *)

(** The [while (true)] of worker [idx], for at most [fuel] turns, on a
    queue that no other task touches in between. *)
Fixpoint worker_loop (fuel : nat) (idx : nat) (past : list Event) (q : Queue)
  : Run WorkerStatus :=
  match fuel with
  | O => mkRun Running [] q
  | S fuel' =>
      match AsyncQueue.get q idx with
      | (AsyncQueue.Ready state, q1) =>
          match worker_body state past q1 with
          | mkRun (inr _) d1 q2 =>
              match worker_loop fuel' idx (d1 ++ past)%list q2 with
              | mkRun status d2 q3 => mkRun status (d2 ++ d1)%list q3
              end
          | mkRun (inl t) d1 q2 => mkRun (Terminated t) d1 q2
          end
      | (AsyncQueue.Pending, q1) => mkRun Suspended [] q1
      end
  end.

Definition worker (fuel : nat) (idx : nat) (past : list Event) (q : Queue)
  : Run WorkerStatus :=
  let started := EvLog INFO (StartingWorker idx) in
  match worker_loop fuel idx (started :: past) q with
  | mkRun status d q1 => mkRun status (d ++ [started])%list q1
  end.

(** *** The poller *)

Definition enqueueCall : M JsValue :=
  res <- fetch (post (getEnqueueEndpoint rt)
                     (JObj [("nodes", JArr (map JStr (nodeNames rt)));
                            ("batch_size", JNum (batchSize rt))])) ;;
  if negb (ok res)
  then throw (ThrowError ("Failed to enqueue states: " ++ text res))
  else res_json res.

(** [await this.stateQueue.put(state)] *)
Definition queue_put (state : JsValue) : M unit :=
  fun _ q =>
    match AsyncQueue.put q state with
    | (Some (r, item), q1) => mkRun (inr tt) [EvResolve r item] q1
    | (None, q1) => mkRun (inr tt) [] q1
    end.

Definition queue_size : M nat :=
  fun _ q => mkRun (inr (AsyncQueue.size q)) [] q.

Fixpoint put_all (states : list JsValue) : M unit :=
  match states with
  | [] => ret tt
  | state :: rest => queue_put state ;;; put_all rest
  end.

(** What [for (const state of states)] iterates over. *)
Definition iterate (states : JsValue) : M (list JsValue) :=
  match states with
  | JArr elems => ret elems
  | JStr s => ret (map (fun c => JStr (String c EmptyString)) (list_ascii_of_string s))
  | _ => fault NotIterable
  end.

(** The [try] block of the poller. *)
Definition enqueue_try : M unit :=
  size <- queue_size ;;
  if (Z.of_nat size <? batchSize rt)%Z then
    data <- enqueueCall ;;
    found <- prop data "states" ;;
    states <- iterate (nullish found (JArr [])) ;;
    put_all states ;;;
    log INFO (EnqueuedStates (length states))
  else ret tt.

(** One turn of the poller's [while (true)]. *)
Definition enqueue_turn : M unit :=
  r <- attempt enqueue_try ;;
  match r with
  | inl e =>
      log ERROR (ErrorEnqueuingStates e) ;;;
      sleep (pollInterval rt * 2)
  | inr _ => sleep (pollInterval rt)
  end.

(** [enqueue()], for [fuel] turns. *)
Fixpoint enqueue (fuel : nat) : M unit :=
  match fuel with
  | O => ret tt
  | S fuel' => enqueue_turn ;;; enqueue fuel'
  end.

End Effects.

End Runtime.

(* ===================================================================== *)
(** ** Sample handlers and networks *)
(* ===================================================================== *)

Module Samples.
Import Js Zod Signals Runtime.
Local Open Scope string_scope.

(** [class Echo extends BaseNode]: one string input, one string output,
    no secrets; [execute] returns [{ message: this.inputs.name }]. *)
Definition Echo : NodeCtor :=
  {| name := "Echo";
     extendsBaseNode := true;
     Inputs := ZodObject [("name", ZodString)];
     Outputs := ZodObject [("message", ZodString)];
     Secrets := ZodObject [];
     construct := None;
     execute := fun inputs _ =>
                  match inputs with
                  | JObj fields => Resolves (JObj [("message", field fields "name")])
                  | _ => Resolves JUndefined
                  end |}.

(** A second class whose [name] was redefined to ["Echo"]. *)
Definition EchoTwin : NodeCtor :=
  {| name := "Echo";
     extendsBaseNode := true;
     Inputs := ZodObject [("name", ZodString)];
     Outputs := ZodObject [("message", ZodString)];
     Secrets := ZodObject [];
     construct := None;
     execute := fun _ _ => Resolves (JObj [("message", JStr "twin")]) |}.

(** A class with a numeric output field. *)
Definition Counter : NodeCtor :=
  {| name := "Counter";
     extendsBaseNode := true;
     Inputs := ZodObject [("name", ZodString)];
     Outputs := ZodObject [("count", ZodNumber)];
     Secrets := ZodObject [];
     construct := None;
     execute := fun _ _ => Resolves (JObj [("count", JNum 1)]) |}.

(** A handler with the schemas of [Echo] and the given [execute]. *)
Definition handler (name_ : string) (body : Outcome JsValue) : NodeCtor :=
  {| name := name_;
     extendsBaseNode := true;
     Inputs := ZodObject [("name", ZodString)];
     Outputs := ZodObject [("message", ZodString)];
     Secrets := ZodObject [];
     construct := None;
     execute := fun _ _ => body |}.

Definition env : Env :=
  mkEnv (Some "http://localhost:8080") (Some "test_key").

(** The runtime [new Runtime('ns', 'rt', nodes)] with that environment,
    as [configure] leaves it. *)
Definition runtime_of (nodes : list NodeCtor) : Runtime.t :=
  configure env "ns" "rt" nodes no_options.

(** A network on which every request is acknowledged. *)
Definition net_ok : list Event -> Request -> FetchResult :=
  fun _ _ => FetchResolves (mkResponse true "" (Some (JObj []))).

(** A network that answers every request with a non-2xx status. *)
Definition net_refusing : list Event -> Request -> FetchResult :=
  fun _ _ => FetchResolves (mkResponse false "Bad request" None).

(** A network that is down: every fetch rejects. *)
Definition net_down : list Event -> Request -> FetchResult :=
  fun _ _ => FetchRejects "fetch failed".

(** Some rendering of engine and Zod errors. *)
Definition engine_text (f : EngineFault) : string :=
  match f with
  | NotAConstructor => "nodeCls is not a constructor"
  | ReadOfNullish p => "Cannot read properties of undefined (reading '" ++ p ++ "')"
  | KeysOfNullish => "Cannot convert undefined or null to object"
  | InOnPrimitive => "Cannot use 'in' operator"
  | JsonSyntax => "Unexpected token"
  | NotIterable => "states is not iterable"
  | ZodFailure _ => "ZodError"
  | NoPrimitive => "Cannot convert object to primitive value"
  end.

End Samples.

(* ===================================================================== *)
(** ** Notions used to state the properties *)
(* ===================================================================== *)

Module Notions.
Import Js Zod Signals Runtime.
Local Open Scope string_scope.

(** [hay.includes(needle)] *)
Fixpoint includes (needle hay : string) : bool :=
  if String.prefix needle hay then true
  else match hay with
       | EmptyString => false
       | String _ rest => includes needle rest
       end.

(** The three schemas of a handler class with the label [validateNodes]
    reports them under. *)
Definition roles (node : NodeCtor) : list (string * ZodType) :=
  [("Inputs", Inputs node); ("Outputs", Outputs node); ("Secrets", Secrets node)].

(** A handler class with nothing to report: it extends BaseNode and each
    of its schemas is an object schema with string fields only. *)
Definition valid_node (node : NodeCtor) : Prop :=
  extendsBaseNode node = true
  /\ forall label schema, In (label, schema) (roles node) ->
       exists shape, schema = ZodObject shape
                     /\ forall key ft, In (key, ft) shape -> ft = ZodString.

(** The single Error message [validateNodes] builds from its messages. *)
Definition aggregated (errors : list string) : string :=
  "Node validation errors:" ++ nl ++ String.concat nl errors.

End Notions.

(* ===================================================================== *)
(** ** Reading a run *)
(* ===================================================================== *)

Module Reading.
Import Js Zod Signals Runtime.
Local Open Scope string_scope.

(** The most recent fetch of a run (events newest first) and its result. *)
Fixpoint last_call (evs : list Event) : option (Request * FetchResult) :=
  match evs with
  | [] => None
  | EvFetch req res :: _ => Some (req, res)
  | _ :: rest => last_call rest
  end.

(** The queue after [put] of each item in turn. *)
Definition put_list (q : Queue) (states : list JsValue) : Queue :=
  fold_left (fun q state => snd (AsyncQueue.put q state)) states q.

(** The ghost events of a run. *)
Definition is_ghost (e : Event) : bool :=
  match e with
  | EvNew _ | EvExecute _ _ => true
  | _ => false
  end.

Fixpoint ghosts (evs : list Event) : list Event :=
  match evs with
  | [] => []
  | e :: rest => if is_ghost e then e :: ghosts rest else ghosts rest
  end.

(** The requests the worker can send for the item [stateId]. *)
Definition secretsRequest (rt : Runtime.t) (stateId : string) : Request :=
  mkRequest (getSecretsEndpoint rt stateId) "GET" (key rt) None.

Definition executedRequest (rt : Runtime.t) (stateId : string)
           (outputs : list JsValue) : Request :=
  mkRequest (getExecutedEndpoint rt stateId) "POST" (key rt)
            (Some (JObj [("outputs", JArr outputs)])).

Definition erroredRequest (rt : Runtime.t) (stateId : string) (error : JsValue)
  : Request :=
  mkRequest (getErroredEndpoint rt stateId) "POST" (key rt)
            (Some (JObj [("error", error)])).

Definition pruneRequest (rt : Runtime.t) (stateId : string) (s : PruneSignal)
  : Request :=
  mkRequest (getPruneEndpoint rt stateId) "POST" (key rt)
            (Some (JObj [("data", data s)])).

Definition requeueRequest (rt : Runtime.t) (stateId : string)
           (s : ReQueueAfterSignal) : Request :=
  mkRequest (getRequeueAfterEndpoint rt stateId) "POST" (key rt)
            (Some (JObj [("enqueue_after", JNum (delayMs s))])).

(** The poller's request for a batch. *)
Definition batchRequest (rt : Runtime.t) : Request :=
  mkRequest (getEnqueueEndpoint rt) "POST" (key rt)
            (Some (JObj [("nodes", JArr (map JStr (nodeNames rt)));
                         ("batch_size", JNum (batchSize rt))])).

(** The [outputs] array the worker reports for a result of [execute()]:
    [_execute] followed by the [Array.isArray] wrap. *)
Definition reported_outputs (h : NodeCtor) (result : JsValue)
  : list ZodIssue + list JsValue :=
  match result with
  | JArr results => Zod.parse_all (Outputs h) results
  | JNull => inr [JObj []]
  | _ =>
      match Zod.parse (Outputs h) result with
      | inl issues => inl issues
      | inr parsed => inr [parsed]
      end
  end.

(** Before the report, the only request of the [try] block is the
    secrets fetch, if any. *)
Inductive SecretsCalls (rt : Runtime.t) (stateId : string) : list Request -> Prop :=
| NoSecretsCall : SecretsCalls rt stateId []
| OneSecretsCall : SecretsCalls rt stateId [secretsRequest rt stateId].

(** How the worker's [try] block can end for the class [h] and the item
    [stateId]: its result and the events it emitted. *)
Inductive TryOutcome (em : EngineFault -> string) (rt : Runtime.t)
          (h : NodeCtor) (stateId : string)
  : Thrown + unit -> list Event -> Prop :=
| NotReached : forall d message,
    ghosts d = [] ->
    SecretsCalls rt stateId (requests d) ->
    TryOutcome em rt h stateId (inl (ThrowError message)) d
| ExecuteRejected : forall d t,
    ghosts d = [EvExecute h (Rejects t)] ->
    SecretsCalls rt stateId (requests d) ->
    TryOutcome em rt h stateId (inl t) d
| OutputsRejected : forall d value issues,
    ghosts d = [EvExecute h (Resolves value)] ->
    reported_outputs h value = inl issues ->
    SecretsCalls rt stateId (requests d) ->
    TryOutcome em rt h stateId (inl (ThrowError (em (ZodFailure issues)))) d
| ReportLost : forall d value outputs before message,
    ghosts d = [EvExecute h (Resolves value)] ->
    reported_outputs h value = inr outputs ->
    SecretsCalls rt stateId before ->
    requests d = (before ++ [executedRequest rt stateId outputs])%list ->
    last_call d = Some (executedRequest rt stateId outputs, FetchRejects message) ->
    TryOutcome em rt h stateId (inl (ThrowError message)) d
| Reported : forall d value outputs before res,
    ghosts d = [EvExecute h (Resolves value)] ->
    reported_outputs h value = inr outputs ->
    SecretsCalls rt stateId before ->
    requests d = (before ++ [executedRequest rt stateId outputs])%list ->
    last_call d = Some (executedRequest rt stateId outputs, FetchResolves res) ->
    (ok res = false ->
     In (EvLog ERROR (FailedToNotifyExecuted stateId (text res))) d) ->
    TryOutcome em rt h stateId (inr tt) d.

(** The part of the worker's [try] block that follows the secrets. *)
Definition after_secrets (net : list Event -> Request -> FetchResult)
           (em : EngineFault -> string) (rt : Runtime.t)
           (h : NodeCtor) (state : JsValue) (stateId : string)
           (secrets : JsValue) : M unit :=
  bind (prop em state "inputs") (fun inputs =>
  bind (_execute em h inputs secrets) (fun outputs =>
  bind (log INFO (GotOutputs stateId (name h))) (fun _ =>
  bind (notifyExecuted net rt stateId (outArray outputs)) (fun _ =>
  log INFO (NotifiedExecuted stateId (name h)))))).

(** [err.message] for a thrown value that is not an Error: [None] when
    the read itself throws. *)
Definition message_of (v : JsValue) : option JsValue :=
  match v with
  | JUndefined | JNull => None
  | JObj fields => Some (field fields "message")
  | _ => Some JUndefined
  end.

(** [notifyErrored(stateId, error)] ran as the last step: it emitted [d],
    its fetch gave [fres], and [r] is how it ended. *)
Definition error_reported (rt : Runtime.t) (stateId : string) (error : JsValue)
           (d : list Event) (fres : FetchResult) (r : Thrown + unit) : Prop :=
  ghosts d = []
  /\ requests d = [erroredRequest rt stateId error]
  /\ last_call d = Some (erroredRequest rt stateId error, fres)
  /\ match fres with
     | FetchRejects message => r = inl (ThrowError message)
     | FetchResolves res =>
         r = inr tt
         /\ (ok res = false ->
             In (EvLog ERROR (FailedToNotifyErrored stateId (text res))) d)
     end.

(** A signal's [send] ran: one request, and a throw unless acknowledged. *)
Definition signal_sent (req : Request) (failure : string)
           (d : list Event) (fres : FetchResult) (r : Thrown + unit) : Prop :=
  ghosts d = []
  /\ requests d = [req]
  /\ last_call d = Some (req, fres)
  /\ match fres with
     | FetchRejects message => r = inl (ThrowError message)
     | FetchResolves res =>
         r = if ok res then inr tt else inl (ThrowError (failure ++ url req))
     end.

(** How the worker's [catch] block ends for what was caught. *)
Inductive CatchOutcome (em : EngineFault -> string) (rt : Runtime.t)
          (stateId : string)
  : Thrown -> Thrown + unit -> list Event -> Prop :=
| CaughtError : forall message d fres r,
    error_reported rt stateId (JStr message) d fres r ->
    CatchOutcome em rt stateId (ThrowError message) r d
| CaughtValue : forall v error d fres r,
    converts v = true ->
    message_of v = Some error ->
    error_reported rt stateId error d fres r ->
    CatchOutcome em rt stateId (ThrowValue v) r d
| CaughtNullish : forall v d,
    message_of v = None ->
    ghosts d = [] -> requests d = [] ->
    CatchOutcome em rt stateId (ThrowValue v)
                 (inl (ThrowError (em (ReadOfNullish "message")))) d
| CaughtPrune : forall s d fres r,
    signal_sent (pruneRequest rt stateId s) "Failed to send prune signal to "
                d fres r ->
    CatchOutcome em rt stateId (ThrowPrune s) r d
| CaughtReQueueAfter : forall s d fres r,
    signal_sent (requeueRequest rt stateId s)
                "Failed to send requeue after signal to " d fres r ->
    CatchOutcome em rt stateId (ThrowReQueueAfter s) r d
| CaughtUnconverted : forall v,
    converts v = false ->
    CatchOutcome em rt stateId (ThrowValue v)
                 (inl (ThrowError (em NoPrimitive))) [].

(** A work item of the [StateItem] interface, as the worker receives it. *)
Definition StateItem (state_id node_name : string) (inputs : JsValue) : JsValue :=
  JObj [("state_id", JStr state_id); ("node_name", JStr node_name);
        ("inputs", inputs)].

(** The events that open the worker's turn on a registered class. *)
Definition turn_opening (h : NodeCtor) (stateId : string) : list Event :=
  [EvLog INFO (ExecutingState stateId (name h)); EvNew h].

(** How one turn of the worker ends for the item [stateId] naming the
    node [node_name]: its result and the events it emitted. *)
Inductive Turn (em : EngineFault -> string) (rt : Runtime.t)
          (stateId node_name : string)
  : Thrown + unit -> list Event -> Prop :=
| TurnUnknown : forall d fres r,
    Js.get (nodeMapping rt) node_name = Absent ->
    error_reported rt stateId (JStr "Unknown node") d fres r ->
    In (EvLog ERROR (UnknownNode node_name)) d ->
    Turn em rt stateId node_name r d
| TurnNotConstructor : forall m,
    Js.get (nodeMapping rt) node_name = Inherited m ->
    m <> ProtoObjectCtor ->
    Turn em rt stateId node_name (inl (ThrowError (em NotAConstructor))) []
| TurnObject : forall d r,
    Js.get (nodeMapping rt) node_name = Inherited ProtoObjectCtor ->
    CatchOutcome em rt stateId (ThrowError (em (ReadOfNullish "shape"))) r d ->
    Turn em rt stateId node_name r
         (d ++ [EvLog INFO (ExecutingState stateId "Object")])%list
| TurnConstructorThrew : forall h t,
    Js.get (nodeMapping rt) node_name = Own h ->
    construct h = Some t ->
    Turn em rt stateId node_name (inl t) [EvNew h]
| TurnTried : forall h tried,
    Js.get (nodeMapping rt) node_name = Own h ->
    construct h = None ->
    TryOutcome em rt h stateId (inr tt) tried ->
    Turn em rt stateId node_name (inr tt)
         (tried ++ turn_opening h stateId)%list
| TurnCaught : forall h t tried caught r,
    Js.get (nodeMapping rt) node_name = Own h ->
    construct h = None ->
    TryOutcome em rt h stateId (inl t) tried ->
    CatchOutcome em rt stateId t r caught ->
    Turn em rt stateId node_name r
         (caught ++ tried ++ turn_opening h stateId)%list.

End Reading.

(* ===================================================================== *)
(** ** Scenarios *)
(* ===================================================================== *)

Module Scenarios.
Import Js Zod Signals Runtime Reading Samples.
Local Open Scope string_scope.

(** [execute() { throw new Error('Test error') }] *)
Definition Boom : NodeCtor :=
  handler "Boom" (Rejects (ThrowError "Test error")).

(** [execute() { throw new PruneSignal({ reason: 'done' }) }] *)
Definition done : PruneSignal := mkPrune (JObj [("reason", JStr "done")]).
Definition Pruner : NodeCtor := handler "Pruner" (Rejects (ThrowPrune done)).

(** [execute() { throw 'boom' }] *)
Definition Shouter : NodeCtor :=
  handler "Shouter" (Rejects (ThrowValue (JStr "boom"))).

(** [execute() { throw null }] *)
Definition NullThrower : NodeCtor :=
  handler "NullThrower" (Rejects (ThrowValue JNull)).

(** [execute() { return null }] *)
Definition Silent : NodeCtor := handler "Silent" (Resolves JNull).

(** [execute() { }]: the promise resolves with [undefined]. *)
Definition Forgetful : NodeCtor := handler "Forgetful" (Resolves JUndefined).

(** [execute() { return [] }] *)
Definition Empty : NodeCtor := handler "Empty" (Resolves (JArr [])).

(** The item [{ state_id: 's1', node_name, inputs: { name: 'x' } }]. *)
Definition item (node_name : string) : JsValue :=
  StateItem "s1" node_name (JObj [("name", JStr "x")]).

(** One turn of a worker of [new Runtime('ns', 'rt', nodes)] on that item,
    from a fresh start, on the network [net]. *)
Definition turn (net : list Event -> Request -> FetchResult)
           (nodes : list NodeCtor) (node_name : string) : Run (Thrown + unit) :=
  worker_body net engine_text (runtime_of nodes) (item node_name) []
              (initial_queue (runtime_of nodes)).

(** A network whose batch reply holds two items for Echo. *)
Definition net_two_items : list Event -> Request -> FetchResult :=
  fun _ _ =>
    FetchResolves
      (mkResponse true ""
         (Some (JObj [("states",
                       JArr [StateItem "s1" "Echo" (JObj [("name", JStr "a")]);
                             StateItem "s2" "Echo" (JObj [("name", JStr "b")])])]))).

End Scenarios.

(* ===================================================================== *)
(** ** String methods of the engine

    A string is a sequence of code units below 256. *)
(* ===================================================================== *)

Module JsString.

(** The white space and line terminators below 256: TAB, LF, VT, FF, CR,
    SPACE and NBSP. *)
Definition is_space (c : Ascii.ascii) : bool :=
  let n := Ascii.nat_of_ascii c in
  (Nat.leb 9 n && Nat.leb n 13) || Nat.eqb n 32 || Nat.eqb n 160.

(** [s.trimStart()] *)
Fixpoint trimStart (s : string) : string :=
  match s with
  | EmptyString => EmptyString
  | String c rest => if is_space c then trimStart rest else s
  end.

(** [s.trimEnd()] *)
Fixpoint trimEnd (s : string) : string :=
  match s with
  | EmptyString => EmptyString
  | String c rest =>
      match trimEnd rest with
      | EmptyString => if is_space c then EmptyString else String c EmptyString
      | kept => String c kept
      end
  end.

(** [s.trim()] *)
Definition trim (s : string) : string := trimEnd (trimStart s).

(** [s.includes(c)] for a one-character needle. *)
Fixpoint includes_char (c : Ascii.ascii) (s : string) : bool :=
  match s with
  | EmptyString => false
  | String x rest => Ascii.eqb x c || includes_char c rest
  end.

Fixpoint drop (n : nat) (s : string) : string :=
  match n, s with
  | O, _ => s
  | S n', String _ rest => drop n' rest
  | S _, EmptyString => EmptyString
  end.

(** [s.replace(pattern, replacement)] with a string pattern and a
    replacement that holds no [$]: the first occurrence is replaced. *)
Fixpoint replace (pattern replacement s : string) : string :=
  if String.prefix pattern s
  then replacement ++ drop (String.length pattern) s
  else match s with
       | EmptyString => EmptyString
       | String c rest => String c (replace pattern replacement rest)
       end.

(** [toUpperCase] on one code unit.  Below 128 only the letters a-z
    change.  From 128 on the engine yields code units that are not ASCII
    letters, or [SS] for the sharp s; such a code unit is kept here, which
    makes no difference to a comparison with a word of other ASCII
    letters, the only use the source makes of the result. *)
Definition upper (c : Ascii.ascii) : Ascii.ascii :=
  let n := Ascii.nat_of_ascii c in
  if Nat.leb 97 n && Nat.leb n 122 then Ascii.ascii_of_nat (n - 32) else c.

Fixpoint toUpperCase (s : string) : string :=
  match s with
  | EmptyString => EmptyString
  | String c rest => String (upper c) (toUpperCase rest)
  end.

(** Truthiness of a value. *)
Definition truthy (v : Js.JsValue) : bool :=
  match v with
  | Js.JUndefined | Js.JNull | Js.JBool false => false
  | Js.JNum n => negb (Z.eqb n 0)
  | Js.JStr s => negb (String.eqb s "")
  | _ => true
  end.

(** [String(n)] for an integer. *)
Definition of_number (n : Z) : string := Js.to_string (Js.JNum n).

End JsString.

(* ===================================================================== *)
(** ** logger.ts *)
(* ===================================================================== *)

Module Logger.
Import JsString Runtime.

(** The numeric value of an enum member. *)
Definition rank (l : LogLevel) : Z :=
  match l with
  | DEBUG => 0
  | INFO => 1
  | WARN => 2
  | ERROR => 3
  end.

(** The two variables of [process.env] the logger reads. *)
Record Env : Type := mkEnv {
  EXOSPHERE_LOG_LEVEL : option string;
  EXOSPHERE_DISABLE_DEFAULT_LOGGING : option string
}.

(** [getLogLevelFromEnv()].  An unset and an empty variable are both
    falsy.  No level name holds the letter S, so that a variable with a
    code unit from 128 on selects the default either way. *)
Definition getLogLevelFromEnv (env : Env) : LogLevel :=
  let raw := match EXOSPHERE_LOG_LEVEL env with
             | Some s => if String.eqb s "" then "INFO" else s
             | None => "INFO"
             end in
  let levelName := toUpperCase raw in
  if String.eqb levelName "DEBUG" then DEBUG
  else if String.eqb levelName "INFO" then INFO
  else if String.eqb levelName "WARN" then WARN
  else if String.eqb levelName "ERROR" then ERROR
  else INFO.

Record t : Type := mk {
  level : LogLevel;
  isDisabled : bool
}.

(** The private constructor. *)
Definition new (env : Env) : t :=
  {| level := getLogLevelFromEnv env;
     isDisabled := match EXOSPHERE_DISABLE_DEFAULT_LOGGING env with
                   | Some s => String.eqb s "true"
                   | None => false
                   end |}.

(** [Logger.getInstance()], given the static [instance] field: the
    logger, and the field afterwards. *)
Definition getInstance (instance : option t) (env : Env) : t * option t :=
  match instance with
  | Some lg => (lg, instance)
  | None => (new env, Some (new env))
  end.

Definition shouldLog (lg : t) (l : LogLevel) : bool :=
  negb (isDisabled lg) && (rank (level lg) <=? rank l)%Z.

(** [formatMessage]; [iso] is [new Date().toISOString()]. *)
Definition formatMessage (iso : string) (label name message : string) : string :=
  let timestamp := String.substring 0 19 (replace "T" " " iso) in
  timestamp ++ " | " ++ label ++ " | " ++ name ++ " | " ++ message.

(** The console method a line is written with. *)
Inductive Console : Type :=
| ConsoleDebug | ConsoleInfo | ConsoleWarn | ConsoleError.

(** The lines a logging method writes. *)
Definition debug (lg : t) (iso name message : string) : list (Console * string) :=
  if shouldLog lg DEBUG
  then [(ConsoleDebug, formatMessage iso "DEBUG" name message)] else [].

Definition info (lg : t) (iso name message : string) : list (Console * string) :=
  if shouldLog lg INFO
  then [(ConsoleInfo, formatMessage iso "INFO" name message)] else [].

Definition warn (lg : t) (iso name message : string) : list (Console * string) :=
  if shouldLog lg WARN
  then [(ConsoleWarn, formatMessage iso "WARN" name message)] else [].

Definition error (lg : t) (iso name message : string) : list (Console * string) :=
  if shouldLog lg ERROR
  then [(ConsoleError, formatMessage iso "ERROR" name message)] else [].

(** The method the runtime calls for a line of a given level. *)
Definition write (lg : t) (l : LogLevel) : string -> string -> string
                                           -> list (Console * string) :=
  match l with
  | DEBUG => debug lg
  | INFO => info lg
  | WARN => warn lg
  | ERROR => error lg
  end.

End Logger.

(* ===================================================================== *)
(** ** utils.ts: generateFlatSchema *)
(* ===================================================================== *)

Module Utils.
Import Js JsString.

(** The TypeErrors the function can raise. *)
Inductive Fault : Type :=
| InOnNonObject         (* ['k' in v] on a primitive, [null] or [undefined] *)
| NotAFunction (callee : string).

Section FlatSchema.

(** A property read on a receiver that is not an object literal (an
    array, a string, a number, [true]), as the engine resolves it. *)
Variable member : JsValue -> string -> Lookup JsValue.

Definition read (receiver : JsValue) (k : string) : Lookup JsValue :=
  match receiver with
  | JObj fields => Js.get fields k
  | _ => member receiver k
  end.

(** ['k' in obj] on an object literal. *)
Definition in_object (fields : list (string * JsValue)) (k : string) : bool :=
  match Js.get fields k with
  | Absent => false
  | _ => true
  end.

(** ['k' in actualSchema] for the three keys the function tests,
    [properties], [required] and [additionalProperties]: no array and no
    built-in has one of them. *)
Definition in_schema (k : string) (actualSchema : Lookup JsValue) : Fault + bool :=
  match actualSchema with
  | Own (JObj fields) => inr (in_object fields k)
  | Own (JArr _) => inr false
  | Own _ => inl InOnNonObject
  | Inherited _ => inr false
  | Absent => inl InOnNonObject
  end.

(** [actualSchema.k], read after ['k' in actualSchema] held. *)
Definition schema_field (k : string) (actualSchema : Lookup JsValue) : JsValue :=
  match actualSchema with
  | Own (JObj fields) => field fields k
  | _ => JUndefined
  end.

(** [a || b] *)
Definition or_default (a b : JsValue) : JsValue :=
  if truthy a then a else b.

(** [generateFlatSchema(zodSchema, title)] after its first line;
    [jsonSchema] holds the own properties of what [zodToJsonSchema]
    returned. *)
Definition flatten (jsonSchema : list (string * JsValue)) (title : string)
  : Fault + JsValue :=
  let ref := field jsonSchema "$ref" in
  let definitions := field jsonSchema "definitions" in
  if in_object jsonSchema "$ref" && truthy ref
     && in_object jsonSchema "definitions" && truthy definitions
  then
    match ref with
    | JStr r =>
        let refKey := replace "#/definitions/" "" r in
        let actualSchema := read definitions refKey in
        match in_schema "properties" actualSchema with
        | inl f => inl f
        | inr hasProperties =>
            match in_schema "required" actualSchema with
            | inl f => inl f
            | inr hasRequired =>
                match in_schema "additionalProperties" actualSchema with
                | inl f => inl f
                | inr hasAdditional =>
                    inr (JObj
                      [("type", JStr "object");
                       ("properties",
                        if hasProperties
                        then schema_field "properties" actualSchema
                        else JObj []);
                       ("required",
                        if hasRequired
                        then or_default (schema_field "required" actualSchema)
                                        (JArr [])
                        else JArr []);
                       ("title", JStr title);
                       ("additionalProperties",
                        if hasAdditional
                        then or_default
                               (schema_field "additionalProperties" actualSchema)
                               (JBool false)
                        else JBool false)])
                end
            end
        end
    | _ => inl (NotAFunction "replace")
    end
  else inr (JObj (own_set jsonSchema "title" (JStr title))).

(** The library function [zodToJsonSchema]. *)
Variable zodToJsonSchema : Zod.ZodType -> list (string * JsValue).

Definition generateFlatSchema (zodSchema : Zod.ZodType) (title : string)
  : Fault + JsValue :=
  flatten (zodToJsonSchema zodSchema) title.

End FlatSchema.

End Utils.

(* ===================================================================== *)
(** ** Calls to the state manager that do not touch the work queue *)
(* ===================================================================== *)

Module Client.
Import Js JsString Runtime.

(** Errors raised by the engine rather than by a [throw] of the source. *)
Inductive Fault : Type :=
| ReadOfNullish (prop : string)
| InOnNullish
| NotAFunction (callee : string)
| KeysOfNullish
| JsonSyntax
| Schema (f : Utils.Fault).

Record Request : Type := mkRequest {
  url : string;
  method : string;
  headers : list (string * string);
  body : option JsValue            (* the value given to [JSON.stringify] *)
}.

Record Response : Type := mkResponse {
  status : Z;
  text : string;
  json : option JsValue            (* [None]: [res.json()] rejects *)
}.

(** [res.ok] *)
Definition ok (res : Response) : bool :=
  (200 <=? status res)%Z && (status res <=? 299)%Z.

Inductive FetchResult : Type :=
| FetchRejects (message : string)
| FetchResolves (res : Response).

(** A logger call is kept with its level, name and message. *)
Inductive Event : Type :=
| EvFetch (req : Request) (res : FetchResult)
| EvLog (level : LogLevel) (name message : string)
| EvSleep (ms : Z)               (* [setTimeout(resolve, ms)] awaited *)
| EvNow (t : Z).                 (* a reading of [Date.now()] *)

(** What a computation leaves behind: its result and the events it
    emitted, newest first. *)
Record Run (R : Type) : Type := mkRun {
  result : R;
  emitted : list Event
}.
Arguments mkRun {R} result emitted.
Arguments result {R} r.
Arguments emitted {R} r.

(** The requests among some events, oldest first. *)
Fixpoint requests (evs : list Event) : list Request :=
  match evs with
  | [] => []
  | EvFetch req _ :: rest => requests rest ++ [req]
  | _ :: rest => requests rest
  end.

(** The delays slept, oldest first. *)
Fixpoint sleeps (evs : list Event) : list Z :=
  match evs with
  | [] => []
  | EvSleep ms :: rest => sleeps rest ++ [ms]
  | _ :: rest => sleeps rest
  end.

Section Effects.

(** The state manager and the network, the clock, and the text of engine
    errors: any functions of what happened so far (newest first). *)
Variable net : list Event -> Request -> FetchResult.
Variable clock : list Event -> Z.
Variable fault_message : Fault -> string.

Definition M (A : Type) : Type := list Event -> Run (Thrown + A).

Definition ret {A : Type} (a : A) : M A := fun _ => mkRun (inr a) [].

Definition throw {A : Type} (t : Thrown) : M A := fun _ => mkRun (inl t) [].

Definition bind {A B : Type} (m : M A) (k : A -> M B) : M B :=
  fun past =>
    match m past with
    | mkRun (inr a) d1 =>
        match k a (d1 ++ past) with
        | mkRun r d2 => mkRun r (d2 ++ d1)
        end
    | mkRun (inl t) d1 => mkRun (inl t) d1
    end.

Definition emit (e : Event) : M unit := fun _ => mkRun (inr tt) [e].

Definition fault {A : Type} (f : Fault) : M A :=
  throw (ThrowError (fault_message f)).

Definition log (level : LogLevel) (name message : string) : M unit :=
  emit (EvLog level name message).

Definition sleep (ms : Z) : M unit := emit (EvSleep ms).

(** [Date.now()] *)
Definition now : M Z := fun past => mkRun (inr (clock past)) [EvNow (clock past)].

Definition fetch (req : Request) : M Response :=
  fun past =>
    match net past req with
    | FetchRejects message =>
        mkRun (inl (ThrowError message)) [EvFetch req (net past req)]
    | FetchResolves res =>
        mkRun (inr res) [EvFetch req (net past req)]
    end.

(** [await res.json()] *)
Definition res_json (res : Response) : M JsValue :=
  match json res with
  | Some v => ret v
  | None => fault JsonSyntax
  end.

(** [v[k]] for a key that no built-in prototype holds. *)
Definition prop (v : JsValue) (k : string) : M JsValue :=
  match v with
  | JUndefined | JNull => fault (ReadOfNullish k)
  | JObj fields => ret (field fields k)
  | _ => ret JUndefined
  end.

(** A synchronous result that may be a TypeError. *)
Definition or_fault {A : Type} (r : Utils.Fault + A) : M A :=
  match r with
  | inr a => ret a
  | inl f => fault (Schema f)
  end.

(** [xs.map(f)] for a callback that may throw: the first throw escapes. *)
Fixpoint map_m {A B : Type} (f : A -> M B) (xs : list A) : M (list B) :=
  match xs with
  | [] => ret []
  | x :: rest =>
      bind (f x) (fun y => bind (map_m f rest) (fun ys => ret (y :: ys)))
  end.

End Effects.

End Client.

(* ===================================================================== *)
(** ** runtime.ts: register *)
(* ===================================================================== *)

Module Registration.
Import Js JsString Zod Runtime.
Local Open Scope string_scope.

Definition getRegisterEndpoint (rt : Runtime.t) : string :=
  base rt ++ "/nodes/".

(** The two headers every call of the runtime and of the state manager
    client sends with a body. *)
Definition json_headers (key : string) : list (string * string) :=
  [("x-api-key", key); ("Content-Type", "application/json")].

(** [this.nodes.map(node => `${this.namespace}/${node.name}`)] *)
Definition qualified_names (rt : Runtime.t) : list string :=
  map (fun node => namespace rt ++ "/" ++ name node) (nodes rt).

(** The keys of [node.Secrets.shape], when there is a shape. *)
Definition secret_keys (node : NodeCtor) : option (list string) :=
  option_map (map fst) (shape_of (Secrets node)).

Section Register.
Variable net : list Client.Event -> Client.Request -> Client.FetchResult.
Variable fault_message : Client.Fault -> string.
Variable member : JsValue -> string -> Lookup JsValue.
Variable zodToJsonSchema : ZodType -> list (string * JsValue).
Variable rt : Runtime.t.

Notation "x <- m ;; k" := (Client.bind m (fun x => k))
  (at level 61, m at next level, right associativity).
Notation "m ;;; k" := (Client.bind m (fun _ => k))
  (at level 61, right associativity).

(** [Object.keys(node.Secrets.shape)], which throws on a missing shape. *)
Definition secret_names (node : NodeCtor) : Client.M (list string) :=
  match secret_keys node with
  | Some names => Client.ret names
  | None => Client.fault fault_message Client.KeysOfNullish
  end.

(** One element of [body.nodes]. *)
Definition node_entry (node : NodeCtor) : Client.M JsValue :=
  inputs_schema <-
    Client.or_fault fault_message
      (Utils.generateFlatSchema member zodToJsonSchema (Inputs node) "Inputs") ;;
  outputs_schema <-
    Client.or_fault fault_message
      (Utils.generateFlatSchema member zodToJsonSchema (Outputs node) "Outputs") ;;
  secrets <- secret_names node ;;
  Client.ret (JObj [("name", JStr (name node));
                    ("inputs_schema", inputs_schema);
                    ("outputs_schema", outputs_schema);
                    ("secrets", JArr (map JStr secrets))]).

Definition register_request (entries : list JsValue) : Client.Request :=
  Client.mkRequest (getRegisterEndpoint rt) "PUT" (json_headers (key rt))
    (Some (JObj [("runtime_name", JStr (runtime_name rt));
                 ("nodes", JArr entries)])).

(** [register()] *)
Definition register : Client.M JsValue :=
  let nodeNames := String.concat ", " (qualified_names rt) in
  Client.log INFO "Runtime" ("Registering nodes: " ++ nodeNames) ;;;
  entries <- Client.map_m node_entry (nodes rt) ;;
  res <- Client.fetch net (register_request entries) ;;
  if negb (Client.ok res) then
    Client.log ERROR "Runtime" ("Failed to register nodes: " ++ Client.text res) ;;;
    Client.throw (ThrowError ("Failed to register nodes: " ++ Client.text res))
  else
    Client.log INFO "Runtime" ("Registered nodes: " ++ nodeNames) ;;;
    Client.res_json fault_message res.

End Register.

End Registration.

(* ===================================================================== *)
(** ** stateManager.ts *)
(* ===================================================================== *)

Module StateManager.
Import Js JsString Runtime.
Import Client.
Local Open Scope string_scope.

Record StateManagerOptions : Type := mkOptions {
  opt_stateManagerUri : option string;
  opt_key : option string;
  opt_stateManagerVersion : option string
}.

Record t : Type := mk {
  namespace : string;
  stateManagerUri : string;
  key : string;
  stateManagerVersion : string
}.

(** [new StateManager(namespace, options)]: [inl] is the message of the
    Error the constructor throws. *)
Definition create (env : Runtime.Env) (namespace : string)
           (options : StateManagerOptions) : string + t :=
  let uri := Runtime.or_else (opt_stateManagerUri options)
               (Runtime.or_else (Runtime.EXOSPHERE_STATE_MANAGER_URI env) "") in
  let key := Runtime.or_else (opt_key options)
               (Runtime.or_else (Runtime.EXOSPHERE_API_KEY env) "") in
  let version := Runtime.or_else (opt_stateManagerVersion options) "v0" in
  if String.eqb uri "" then inl "State manager URI is not set"
  else if String.eqb key "" then inl "API key is not set"
  else inr (mk namespace uri key version).

Definition graph_base (sm : t) (graphName : string) : string :=
  stateManagerUri sm ++ "/" ++ stateManagerVersion sm ++ "/namespace/"
  ++ namespace sm ++ "/graph/" ++ graphName.

Definition getTriggerStateEndpoint (sm : t) (graphName : string) : string :=
  graph_base sm graphName ++ "/trigger".
Definition getUpsertGraphEndpoint (sm : t) (graphName : string) : string :=
  graph_base sm graphName.
Definition getGetGraphEndpoint (sm : t) (graphName : string) : string :=
  graph_base sm graphName.

(** What a poll of [upsertGraph] ends with when it does not throw. *)
Inductive Upserted : Type :=
| Validated (graph : JsValue)   (* the promise resolves with [graph] *)
| StillPending.                 (* still polling: the fuel ran out *)

Section Calls.
Variable net : list Event -> Request -> FetchResult.
Variable clock : list Event -> Z.
Variable fault_message : Fault -> string.
(** [String(JSON.stringify(v))] *)
Variable stringify : JsValue -> string.
Variable sm : t.

Notation "x <- m ;; k" := (bind m (fun x => k))
  (at level 61, m at next level, right associativity).
Notation "m ;;; k" := (bind m (fun _ => k))
  (at level 61, right associativity).

Definition trigger_request (graphName : string) (inputs store : JsValue)
           (startDelay : Z) : Request :=
  mkRequest (getTriggerStateEndpoint sm graphName) "POST"
            (Registration.json_headers (key sm))
            (Some (JObj [("start_delay", JNum startDelay);
                         ("inputs", inputs);
                         ("store", store)])).

(** [trigger(graphName, inputs?, store?, startDelay = 0)]; [None] is an
    argument that is [undefined] or left out. *)
Definition trigger (graphName : string) (inputs store : option JsValue)
           (startDelay : option Z) : M JsValue :=
  let inputs := Runtime.or_else inputs (JObj []) in
  let store := Runtime.or_else store (JObj []) in
  let startDelay := Runtime.or_else startDelay 0%Z in
  response <- fetch net (trigger_request graphName inputs store startDelay) ;;
  if negb (ok response) then
    throw (ThrowError ("Failed to trigger state: " ++ of_number (status response)
                       ++ " " ++ text response))
  else res_json fault_message response.

Definition get_request (graphName : string) : Request :=
  mkRequest (getGetGraphEndpoint sm graphName) "GET" [("x-api-key", key sm)] None.

(** [getGraph(graphName)] *)
Definition getGraph (graphName : string) : M JsValue :=
  response <- fetch net (get_request graphName) ;;
  if negb (ok response) then
    throw (ThrowError ("Failed to get graph: " ++ of_number (status response)
                       ++ " " ++ text response))
  else res_json fault_message response.

(** [typeof v === 'object' && 'model_dump' in v ? v.model_dump() : v]
    for a data value: a [model_dump] property would not be callable. *)
Definition dump (v : JsValue) : M JsValue :=
  match v with
  | JNull => fault fault_message InOnNullish
  | JObj fields =>
      if Utils.in_object fields "model_dump"
      then fault fault_message (NotAFunction "model_dump")
      else ret v
  | _ => ret v
  end.

(** [body.k = dump(v)] when [v !== undefined] *)
Definition dump_optional (k : string) (v : option JsValue)
  : M (list (string * JsValue)) :=
  match v with
  | Some given => dumped <- dump given ;; ret [(k, dumped)]
  | None => ret []
  end.

Definition upsert_request (graphName : string) (body : list (string * JsValue))
  : Request :=
  mkRequest (getUpsertGraphEndpoint sm graphName) "PUT"
            (Registration.json_headers (key sm)) (Some (JObj body)).

(** [v === 'name'] for a status name. *)
Definition is_status (v : JsValue) (name : string) : bool :=
  match v with
  | JStr s => String.eqb s name
  | _ => false
  end.

(** What follows the polling loop. *)
Definition conclude (graph validationState : JsValue) : M Upserted :=
  if negb (is_status validationState "VALID") then
    status <- prop fault_message graph "validation_status" ;;
    errors <- prop fault_message graph "validation_errors" ;;
    throw (ThrowError ("Graph validation failed: " ++ to_string status
                       ++ " and errors: " ++ stringify errors))
  else ret (Validated graph).

(** The [while (validationState === 'PENDING')] loop and what follows
    it, for at most [fuel] polls. *)
Fixpoint await_validation (fuel : nat) (graphName : string)
         (validationTimeout pollingInterval start : Z)
         (graph validationState : JsValue) : M Upserted :=
  if is_status validationState "PENDING" then
    match fuel with
    | O => ret StillPending
    | S fuel' =>
        t <- now clock ;;
        if (validationTimeout * 1000 <? t - start)%Z then
          throw (ThrowError ("Graph validation check timed out after "
                             ++ of_number validationTimeout ++ " seconds"))
        else
          sleep (pollingInterval * 1000) ;;;
          graph' <- getGraph graphName ;;
          state' <- prop fault_message graph' "validation_status" ;;
          await_validation fuel' graphName validationTimeout pollingInterval
                           start graph' state'
    end
  else conclude graph validationState.

(** [upsertGraph(graphName, graphNodes, secrets, retryPolicy?,
    storeConfig?, validationTimeout = 60, pollingInterval = 1)], for a
    timeout and an interval that are integers. *)
Definition upsertGraph (fuel : nat) (graphName : string)
           (graphNodes : list JsValue) (secrets : JsValue)
           (retryPolicy storeConfig : option JsValue)
           (validationTimeout pollingInterval : option Z) : M Upserted :=
  let validationTimeout := Runtime.or_else validationTimeout 60%Z in
  let pollingInterval := Runtime.or_else pollingInterval 1%Z in
  nodes <- map_m dump graphNodes ;;
  retry_policy <- dump_optional "retry_policy" retryPolicy ;;
  store_config <- dump_optional "store_config" storeConfig ;;
  let body := List.concat [[("secrets", secrets); ("nodes", JArr nodes)];
                            retry_policy; store_config] in
  putResponse <- fetch net (upsert_request graphName body) ;;
  if negb ((status putResponse =? 200)%Z || (status putResponse =? 201)%Z) then
    throw (ThrowError ("Failed to upsert graph: " ++ of_number (status putResponse)
                       ++ " " ++ text putResponse))
  else
    graph <- res_json fault_message putResponse ;;
    validationState <- prop fault_message graph "validation_status" ;;
    start <- now clock ;;
    await_validation fuel graphName validationTimeout pollingInterval start
                     graph validationState.

End Calls.

End StateManager.

(* ===================================================================== *)
(** ** models.ts: the callbacks of the graph and store schemas *)
(* ===================================================================== *)

Module Models.
Import Ascii Js JsString.
Local Open Scope string_scope.

(** How [schema.parse(v)] ends for a [v] of the schema's input type. *)
Inductive Parsed (A : Type) : Type :=
| Accepted (a : A)
| Refused (message : string)   (* a ZodError all of whose issues bear [message] *)
| Raised (message : string).   (* the Error a callback threw *)
Arguments Accepted {A} a.
Arguments Refused {A} message.
Arguments Raised {A} message.

(** [GraphNodeModel.shape.node_name]:
    [z.string().min(1, m).transform(trim).refine(val => val.length > 0, m)] *)
Definition node_name (val : string) : Parsed string :=
  if Nat.ltb (String.length val) 1 then Refused "Node name cannot be empty"
  else
    let trimmed := trim val in
    if Nat.ltb 0 (String.length trimmed) then Accepted trimmed
    else Refused "Node name cannot be empty".

(** [GraphNodeModel.shape.identifier]: the same chain, then
    [.refine(val => val !== 'store', ...)]. *)
Definition identifier (val : string) : Parsed string :=
  if Nat.ltb (String.length val) 1 then Refused "Node identifier cannot be empty"
  else
    let trimmed := trim val in
    if negb (Nat.ltb 0 (String.length trimmed))
    then Refused "Node identifier cannot be empty"
    else if String.eqb trimmed "store"
    then Refused "Node identifier cannot be reserved word 'store'"
    else Accepted trimmed.

(** The loop of the [next_nodes] refinement: [identifiers] is the Set,
    [errors] the array, both as filled so far. *)
Fixpoint check_next_nodes (nodes identifiers errors : list string) : list string :=
  match nodes with
  | [] => errors
  | node :: rest =>
      if String.eqb node "" then
        check_next_nodes rest identifiers
          (List.app errors ["Next node identifier cannot be empty"])
      else if existsb (String.eqb node) identifiers then
        check_next_nodes rest identifiers
          (List.app errors ["Next node identifier " ++ node ++ " is not unique"])
      else check_next_nodes rest (List.app identifiers [node]) errors
  end.

(** [GraphNodeModel.shape.next_nodes] on an array of strings: the
    transform trims every entry, the refinement throws the joined errors
    or returns the (truthy) array. *)
Definition next_nodes (given : list string) : Parsed (list string) :=
  let nodes := map trim given in
  match check_next_nodes nodes [] [] with
  | [] => Accepted nodes
  | errors => Raised (String.concat nl errors)
  end.

(** [.optional()]: an absent property stays absent. *)
Definition next_nodes_optional (given : option (list string))
  : Parsed (option (list string)) :=
  match given with
  | None => Accepted None
  | Some nodes =>
      match next_nodes nodes with
      | Accepted checked => Accepted (Some checked)
      | Refused m => Refused m
      | Raised m => Raised m
      end
  end.

(** The loop of the [required_keys] refinement. *)
Fixpoint check_required_keys (keys keySet errors : list string) : list string :=
  match keys with
  | [] => errors
  | key :: rest =>
      if String.eqb key "" then
        check_required_keys rest keySet
          (List.app errors ["Key cannot be empty or contain only whitespace"])
      else if includes_char "."%char key then
        check_required_keys rest keySet
          (List.app errors ["Key '" ++ key ++ "' cannot contain '.' character"])
      else if existsb (String.eqb key) keySet then
        check_required_keys rest keySet
          (List.app errors ["Key '" ++ key ++ "' is duplicated"])
      else check_required_keys rest (List.app keySet [key]) errors
  end.

(** [StoreConfigModel.shape.required_keys] on an array of strings. *)
Definition required_keys (given : list string) : Parsed (list string) :=
  let keys := map trim given in
  match check_required_keys keys [] [] with
  | [] => Accepted keys
  | errors => Raised (String.concat nl errors)
  end.

(** [normalizedDict[k] = v] on an object literal, for a string [v]: the
    [__proto__] setter ignores a value that is not an object. *)
Definition assign (dict : list (string * string)) (k v : string)
  : list (string * string) :=
  if String.eqb k "__proto__" then dict else own_set dict k v.

(** The loop of the [default_values] transform over
    [Object.entries(values)]. *)
Fixpoint normalize (entries : list (string * string)) (keySet : list string)
         (normalizedDict : list (string * string)) (errors : list string)
  : list string * list (string * string) :=
  match entries with
  | [] => (errors, normalizedDict)
  | (key, value) :: rest =>
      let trimmedKey := trim key in
      if String.eqb trimmedKey "" then
        normalize rest keySet normalizedDict
          (List.app errors ["Key cannot be empty or contain only whitespace"])
      else if includes_char "."%char trimmedKey then
        normalize rest keySet normalizedDict
          (List.app errors ["Key '" ++ trimmedKey ++ "' cannot contain '.' character"])
      else if existsb (String.eqb trimmedKey) keySet then
        normalize rest keySet normalizedDict
          (List.app errors ["Key '" ++ trimmedKey ++ "' is duplicated"])
      else
        normalize rest (List.app keySet [trimmedKey])
                  (assign normalizedDict trimmedKey value) errors
  end.

(** What [z.record(z.string())] hands to the transform for a record of
    strings given as its entries: Zod builds the parsed record from them
    and skips the key [__proto__]. *)
Definition record_entries (values : list (string * string))
  : list (string * string) :=
  filter (fun kv => negb (String.eqb (fst kv) "__proto__")) values.

(** [StoreConfigModel.shape.default_values] on a record of strings, given
    as its entries. *)
Definition default_values (values : list (string * string))
  : Parsed (list (string * string)) :=
  match normalize (record_entries values) [] [] [] with
  | ([], normalizedDict) => Accepted normalizedDict
  | (errors, _) => Raised (String.concat nl errors)
  end.

End Models.

(* ===================================================================== *)
(** ** Further notions used to state the properties *)
(* ===================================================================== *)

Module Batches.
Import Js.
(** What the poller's [for (const state of data.states ?? [])] iterates
    over for a reply body [data], when it iterates at all. *)
Definition batch_states (data : JsValue) : list JsValue :=
  match data with
  | JObj fields =>
      match nullish (field fields "states") (JArr []) with
      | JArr elems => elems
      | JStr s => map (fun c => JStr (String c EmptyString)) (list_ascii_of_string s)
      | _ => []
      end
  | _ => []
  end.
End Batches.

Module Trimmed.
Import Js JsString Models.

(** A string that does not start with white space. *)
Definition starts_clean (s : string) : Prop :=
  match s with
  | EmptyString => True
  | String c _ => is_space c = false
  end.

(** The trimmed keys of some entries, in order. *)
Definition trimmed_keys (entries : list (string * string)) : list string :=
  map (fun kv => trim (fst kv)) entries.

(** The assignments the [default_values] transform makes when no entry
    is in error. *)
Definition assigned (entries : list (string * string))
           (dict : list (string * string)) : list (string * string) :=
  fold_left (fun d kv => assign d (trim (fst kv)) (snd kv)) entries dict.

End Trimmed.

Module Announced.
Import Js Zod Runtime.
(** The element of [body.nodes] that announces [node] with the flat
    schemas [i] and [o]. *)
Definition entry_for (node : NodeCtor) (i o : JsValue) (names : list string)
  : JsValue :=
  JObj [("name", JStr (name node));
        ("inputs_schema", i);
        ("outputs_schema", o);
        ("secrets", JArr (map JStr names))].

Section Entries.
Variable member : JsValue -> string -> Lookup JsValue.
Variable zodToJsonSchema : ZodType -> list (string * JsValue).

(** [entry] announces [node]: its name, its two flat schemas and the
    keys of its secrets schema. *)
Definition announces (node : NodeCtor) (entry : JsValue) : Prop :=
  exists i o names,
    Utils.generateFlatSchema member zodToJsonSchema (Inputs node) "Inputs" = inr i
    /\ Utils.generateFlatSchema member zodToJsonSchema (Outputs node) "Outputs"
       = inr o
    /\ Registration.secret_keys node = Some names
    /\ entry = entry_for node i o names.
End Entries.
End Announced.

Module Polling.
Import Js Client.

(** The total of some delays. *)
Definition total (delays : list Z) : Z := fold_right Z.add 0%Z delays.

(** A clock that never runs behind the timers: over any stretch of
    events it advances by at least the time slept in it. *)
Definition keeps_time (clock : list Event -> Z) : Prop :=
  forall (past d : list Event),
    (clock past + total (sleeps d) <= clock (d ++ past)%list)%Z.

(** A clock that shows nothing but the time slept. *)
Definition timer_clock (past : list Event) : Z := total (sleeps past).

(** [state] is what [graph['validation_status']] evaluates to. *)
Definition status_of (graph state : JsValue) : Prop :=
  match graph with
  | JUndefined | JNull => False
  | JObj fields => state = field fields "validation_status"
  | _ => state = JUndefined
  end.

(** What a run of the polling loop, started with [graph] and [fuel], is
    like: how often it asked, how long it slept, and what it resolved
    with. *)
Definition polled (net : list Event -> Request -> FetchResult)
           (sm : StateManager.t) (graphName : string) (pi : Z) (fuel : nat)
           (graph : JsValue) (run : Run (Runtime.Thrown + StateManager.Upserted))
  : Prop :=
  exists polls,
    polls <= fuel
    /\ requests (emitted run) = repeat (StateManager.get_request sm graphName) polls
    /\ sleeps (emitted run) = repeat (pi * 1000)%Z polls
    /\ (result run = inr StateManager.StillPending -> polls = fuel)
    /\ (forall g, result run = inr (StateManager.Validated g) ->
          (exists fields, g = JObj fields
                          /\ field fields "validation_status" = JStr "VALID")
          /\ (polls = 0 /\ g = graph
              \/ exists res past',
                   In (EvFetch (StateManager.get_request sm graphName)
                               (FetchResolves res))
                      (emitted run)
                   /\ net past' (StateManager.get_request sm graphName)
                      = FetchResolves res
                   /\ ok res = true /\ json res = Some g)).

End Polling.

Module Deadline.
Import Js Client.
(** A run of the polling loop that began after [k] polls stays within
    the deadline: if it polls at all, the polls before its last one fit
    into the validation timeout. *)
Definition within (vt pi : Z) (k : nat)
           (run : Run (Runtime.Thrown + StateManager.Upserted)) : Prop :=
  1 <= length (requests (emitted run)) ->
  ((Z.of_nat (length (requests (emitted run)) + k) - 1) * pi <= vt)%Z.
End Deadline.

Module Upserting.
Import Js Client StateManager Polling.
(** What a run of [upsertGraph] started after [past] is like: a throw
    before any request, or the PUT and what its reply leads to. *)
Definition upserted (net : list Event -> Request -> FetchResult)
           (clock : list Event -> Z) (fm : Fault -> string)
           (stringify : JsValue -> string) (sm : StateManager.t)
           (fuel : nat) (graphName : string) (vt pi : Z) (past : list Event)
           (run : Run (Runtime.Thrown + Upserted)) : Prop :=
  (exists t, run = mkRun (inl t) [])
  \/ exists body,
       let put := upsert_request sm graphName body in
       let sent := EvFetch put (net past put) in
       match net past put with
       | FetchRejects m => run = mkRun (inl (Runtime.ThrowError m)) [sent]
       | FetchResolves res =>
           if (status res =? 200)%Z || (status res =? 201)%Z then
             (exists t, run = mkRun (inl t) [sent])
             \/ exists graph state,
                  json res = Some graph /\ status_of graph state
                  /\ let start := clock (sent :: past) in
                     let loop :=
                       await_validation net clock fm stringify sm fuel graphName
                                        vt pi start graph state
                                        (EvNow start :: sent :: past) in
                     run = mkRun (result loop)
                                 (emitted loop ++ [EvNow start; sent])%list
           else
             run = mkRun (inl (Runtime.ThrowError
                                 ("Failed to upsert graph: "
                                  ++ JsString.of_number (status res)
                                  ++ " " ++ text res)))
                         [sent]
       end.
End Upserting.

(* ===================================================================== *)
(** ** runtime.ts: the constructor on any class *)
(* ===================================================================== *)

Module Classes.
Import Js Zod Signals Runtime.
Local Open Scope string_scope.

(** What a class given to the constructor holds under the name of a
    static schema.  The parameter is typed [NodeCtor[]], but a cast lets
    any class through: the tests of the repository construct a Runtime
    with [class NotNode {}], which has none of the three.  A value that is
    neither a schema nor nullish, and has no [shape], is validated as a
    schema that is not an object schema is. *)
Inductive Static : Type :=
| Schema (schema : ZodType)
| Nullish (present : bool).  (* [undefined] or [null]; [present] is ['X' in node] *)

Record NodeClass : Type := mkClass {
  class_name : string;
  inherits : bool;             (* [node.prototype instanceof BaseNode] *)
  static_Inputs : Static;
  static_Outputs : Static;
  static_Secrets : Static;
  instantiate : option Thrown; (* what [new nodeCls()] throws, if anything *)
  method : JsValue -> JsValue -> Outcome JsValue
}.

(** A class of the type [NodeCtor], as a class. *)
Definition of_ctor (node : NodeCtor) : NodeClass :=
  {| class_name := name node;
     inherits := extendsBaseNode node;
     static_Inputs := Schema (Inputs node);
     static_Outputs := Schema (Outputs node);
     static_Secrets := Schema (Secrets node);
     instantiate := construct node;
     method := execute node |}.

(** [if (!('X' in node)) errors.push(...)] *)
Definition missing (nodeName label : string) (s : Static) : list string :=
  match s with
  | Nullish false => [nodeName ++ " missing " ++ label ++ " schema"]
  | _ => []
  end.

(** [if (!isZodObjectSchema(node.X)) errors.push(...)] *)
Definition not_object (nodeName label : string) (s : Static) : list string :=
  match s with
  | Schema schema =>
      if isZodObjectSchema schema then []
      else [nodeName ++ "." ++ label ++ " must be a ZodObject schema"]
  | Nullish _ => [nodeName ++ "." ++ label ++ " must be a ZodObject schema"]
  end.

(** [checkStrings(node.X, label)]: reading [shape] off [undefined] or
    [null] throws a TypeError; [inr] holds the messages pushed and the
    schema that was read. *)
Definition check (nodeName : string) (s : Static) (label : string)
  : EngineFault + (list string * ZodType) :=
  match s with
  | Schema schema => inr (checkStrings nodeName schema label, schema)
  | Nullish _ => inl (ReadOfNullish "shape")
  end.

(** The body of the [for (const node of this.nodes)] loop on any class:
    the TypeError that leaves it, or the messages it pushes, in order,
    with the class as a [NodeCtor] (its three schemas were read). *)
Definition class_errors (c : NodeClass) : EngineFault + (list string * NodeCtor) :=
  let nodeName := class_name c in
  let pushed :=
    List.concat
      [ if inherits c then []
        else [nodeName ++ " does not inherit from BaseNode"];
        missing nodeName "Inputs" (static_Inputs c);
        missing nodeName "Outputs" (static_Outputs c);
        missing nodeName "Secrets" (static_Secrets c);
        not_object nodeName "Inputs" (static_Inputs c);
        not_object nodeName "Outputs" (static_Outputs c);
        not_object nodeName "Secrets" (static_Secrets c) ] in
  match check nodeName (static_Inputs c) "Inputs" with
  | inl f => inl f
  | inr (about_inputs, inputs) =>
      match check nodeName (static_Outputs c) "Outputs" with
      | inl f => inl f
      | inr (about_outputs, outputs) =>
          match check nodeName (static_Secrets c) "Secrets" with
          | inl f => inl f
          | inr (about_secrets, secrets) =>
              inr (List.concat [pushed; about_inputs; about_outputs; about_secrets],
                   mkNode nodeName (inherits c) inputs outputs secrets
                          (instantiate c) (method c))
          end
      end
  end.

(** The whole loop: the first TypeError leaves it and the messages
    collected so far are lost. *)
Fixpoint loop (classes : list NodeClass)
  : EngineFault + (list string * list NodeCtor) :=
  match classes with
  | [] => inr ([], [])
  | c :: rest =>
      match class_errors c with
      | inl f => inl f
      | inr (errors, node) =>
          match loop rest with
          | inl f => inl f
          | inr (others, nodes) => inr (List.app errors others, node :: nodes)
          end
      end
  end.

(** The [errors] array at the end of [validateNodes], from the messages
    of the loop. *)
Definition with_duplicates (classes : list NodeClass) (errors : list string)
  : list string :=
  List.app errors
    match duplicates (map class_name classes) with
    | [] => []
    | dups => ["Duplicate node class names found: " ++ String.concat ", " dups]
    end.

(** [validateNodes()] on any classes: what it throws, or the classes as
    [NodeCtor]s. *)
Definition validateNodes (engine_message : EngineFault -> string)
           (classes : list NodeClass) : Thrown + list NodeCtor :=
  match loop classes with
  | inl f => inl (ThrowError (engine_message f))
  | inr (errors, nodes) =>
      match with_duplicates classes errors with
      | [] => inr nodes
      | all => inl (ThrowError ("Node validation errors:" ++ nl
                                ++ String.concat nl all))
      end
  end.

(** [new Runtime(namespace, name, nodes, options)] on any classes: what
    it throws, or the Runtime.  [validateRuntime] reads the configuration
    only. *)
Definition construct (engine_message : EngineFault -> string)
           (env : Env) (namespace name_ : string) (classes : list NodeClass)
           (options : RuntimeOptions) : Thrown + Runtime.t :=
  match validateRuntime (configure env namespace name_ [] options) with
  | inl e => inl (ThrowError e)
  | inr _ =>
      match validateNodes engine_message classes with
      | inl t => inl t
      | inr nodes => inr (configure env namespace name_ nodes options)
      end
  end.

(** The [errors] array at the end of [validateNodes], unless the loop
    threw. *)
Definition messages (classes : list NodeClass) : EngineFault + list string :=
  match loop classes with
  | inl f => inl f
  | inr (errors, _) => inr (with_duplicates classes errors)
  end.

(** A class that holds its three static schemas. *)
Definition carries_schemas (c : NodeClass) : Prop :=
  exists i o s,
    static_Inputs c = Schema i /\ static_Outputs c = Schema o
    /\ static_Secrets c = Schema s.

(** The three static members of a class, with the label [validateNodes]
    reports them under. *)
Definition statics (c : NodeClass) : list (string * Static) :=
  [("Inputs", static_Inputs c); ("Outputs", static_Outputs c);
   ("Secrets", static_Secrets c)].

End Classes.

Module Pacing.
Import Runtime.

(** The delays slept during some events, oldest first. *)
Fixpoint sleeps (evs : list Event) : list Z :=
  match evs with
  | [] => []
  | EvSleep ms :: rest => (sleeps rest ++ [ms])%list
  | _ :: rest => sleeps rest
  end.

End Pacing.

(* ===================================================================== *)
(** ** Further sample handlers, networks and clocks *)
(* ===================================================================== *)

Module Cases.
Import Js Zod Signals Runtime Reading Samples.
Local Open Scope string_scope.

(** [execute() { throw new ReQueueAfterSignal(1500) }] *)
Definition later : ReQueueAfterSignal := mkReQueueAfter 1500.
Definition Requeuer : NodeCtor :=
  handler "Requeuer" (Rejects (ThrowReQueueAfter later)).

(** A handler that needs one secret and returns it. *)
Definition Vault : NodeCtor :=
  {| name := "Vault";
     extendsBaseNode := true;
     Inputs := ZodObject [("name", ZodString)];
     Outputs := ZodObject [("message", ZodString)];
     Secrets := ZodObject [("token", ZodString)];
     construct := None;
     execute := fun _ secrets =>
                  match secrets with
                  | JObj fields => Resolves (JObj [("message", field fields "token")])
                  | _ => Resolves JUndefined
                  end |}.

(** The item [{ state_id: 's1', node_name, inputs: {} }]. *)
Definition bare_item (node_name : string) : JsValue :=
  StateItem "s1" node_name (JObj []).

(** [new Runtime('ns', 'rt', [Echo], { batchSize: 2 })] *)
Definition small_runtime : Runtime.t :=
  configure env "ns" "rt" [Echo] (mkOptions None None (Some 2%Z) None None None).

(** What [zodToJsonSchema] returns for an object schema with string
    fields, and for some other schema. *)
Definition draft : string := "http://json-schema.org/draft-07/schema#".
Definition to_json_schema (schema : ZodType) : list (string * JsValue) :=
  match shape_of schema with
  | Some shape =>
      [("type", JStr "object");
       ("properties",
        JObj (map (fun kv => (fst kv, JObj [("type", JStr "string")])) shape));
       ("required", JArr (map (fun kv => JStr (fst kv)) shape));
       ("additionalProperties", JBool false);
       ("$schema", JStr draft)]
  | None => [("$schema", JStr draft)]
  end.

(** A JSON schema that refers to a definition. *)
Definition referring_schema : list (string * JsValue) :=
  [("$ref", JStr "#/definitions/Inputs");
   ("definitions",
    JObj [("Inputs",
           JObj [("type", JStr "object");
                 ("properties", JObj [("name", JObj [("type", JStr "string")])]);
                 ("required", JArr [JStr "name"]);
                 ("additionalProperties", JBool false)])]);
   ("$schema", JStr draft)].

(** No built-in member is ever found. *)
Definition no_member : JsValue -> string -> Lookup JsValue :=
  fun _ _ => Absent.

Definition fault_text (f : Client.Fault) : string := "TypeError".

Definition stringified (v : JsValue) : string := "[]".

(** A state manager that acknowledges every request. *)
Definition net_registering
  : list Client.Event -> Client.Request -> Client.FetchResult :=
  fun _ _ =>
    Client.FetchResolves
      (Client.mkResponse 200 "" (Some (JObj [("status", JStr "registered")]))).

(** The reply [{ validation_status: state }] with the given status. *)
Definition graph_reply (status : Z) (state : string) : Client.FetchResult :=
  Client.FetchResolves
    (Client.mkResponse status "" (Some (JObj [("validation_status", JStr state)]))).

(** A state manager that accepts a graph as PENDING and reports it VALID
    from the second poll on. *)
Definition net_validating
  : list Client.Event -> Client.Request -> Client.FetchResult :=
  fun past req =>
    if String.eqb (Client.method req) "PUT" then graph_reply 201 "PENDING"
    else if Nat.leb 2 (length (Client.requests past))
         then graph_reply 200 "VALID"
         else graph_reply 200 "PENDING".

(** A state manager that never finishes validating. *)
Definition net_pending
  : list Client.Event -> Client.Request -> Client.FetchResult :=
  fun _ req =>
    if String.eqb (Client.method req) "PUT" then graph_reply 201 "PENDING"
    else graph_reply 200 "PENDING".

Definition manager : StateManager.t :=
  StateManager.mk "ns" "http://localhost:8080" "test_key" "v0".

(** [execute() { throw { toString: 1 } }] *)
Definition Odd : NodeCtor :=
  handler "Odd" (Rejects (ThrowValue (JObj [("toString", JNum 1)]))).

(** [class NotNode {}], as the tests give it to the constructor. *)
Definition NotNode : Classes.NodeClass :=
  {| Classes.class_name := "NotNode";
     Classes.inherits := false;
     Classes.static_Inputs := Classes.Nullish false;
     Classes.static_Outputs := Classes.Nullish false;
     Classes.static_Secrets := Classes.Nullish false;
     Classes.instantiate := None;
     Classes.method := fun _ _ => Resolves JUndefined |}.

End Cases.

(* ===================================================================== *)
(** * Properties *)
(* ===================================================================== *)

(** ** The model at work *)

Example get_own_or_inherited :
  let mapping := Js.fromEntries [("Echo", 1); ("Other", 2); ("Echo", 3)] in
  Js.get mapping "Echo" = Js.Own 3
  /\ Js.get mapping "Nobody" = Js.Absent
  /\ Js.get mapping "toString" = Js.Inherited Js.ProtoBuiltinMethod
  /\ Js.get mapping "constructor" = Js.Inherited Js.ProtoObjectCtor.
Proof. repeat split. Qed.

Example to_string_values :
  Js.to_string (Js.JNum (-42)) = "-42"
  /\ Js.to_string (Js.JArr [Js.JNum 1; Js.JNull; Js.JStr "a"]) = "1,,a"
  /\ Js.to_string Js.JUndefined = "undefined".
Proof. repeat split. Qed.

Example parse_strips_and_collects :
  Zod.parse (Zod.ZodObject [("message", Zod.ZodString)])
            (Js.JObj [("extra", Js.JNum 1); ("message", Js.JStr "hi")])
  = inr (Js.JObj [("message", Js.JStr "hi")])
  /\ Zod.parse (Zod.ZodObject [("a", Zod.ZodString); ("b", Zod.ZodString)])
               (Js.JObj [("b", Js.JNum 1)])
     = inl [Zod.mkIssue ["a"] Zod.TString Zod.TUndefined;
            Zod.mkIssue ["b"] Zod.TString Zod.TNumber]
  /\ Zod.parse (Zod.ZodObject []) Js.JUndefined
     = inl [Zod.mkIssue [] Zod.TObject Zod.TUndefined].
Proof. repeat split. Qed.

Example duplicates_of_names :
  Runtime.duplicates ["A"; "B"; "A"; "C"; "A"] = ["A"; "A"]
  /\ Runtime.duplicates ["A"; "B"] = [].
Proof. split; reflexivity. Qed.

(** A runtime with batch size 2 whose batch reply holds two items for
    Echo: after one turn of the poller and the turns of one worker, both
    items are reported executed with outputs derived from their inputs,
    the worker is parked in [get] and the buffer is empty. *)
Example two_items_end_to_end :
  let nodes := [Samples.Echo] in
  let rt := Runtime.configure Samples.env "ns" "rt" nodes
              (Runtime.mkOptions None None (Some 2%Z) (Some 1%Z) None None) in
  let polled :=
    Runtime.enqueue_turn Scenarios.net_two_items Samples.engine_text rt []
                         (Runtime.initial_queue rt) in
  let worked :=
    Runtime.worker Scenarios.net_two_items Samples.engine_text rt 5 0
                   (Runtime.emitted polled) (Runtime.queue polled) in
  Runtime.create Samples.env "ns" "rt" nodes
                 (Runtime.mkOptions None None (Some 2%Z) (Some 1%Z) None None)
  = inr rt
  /\ AsyncQueue.size (Runtime.queue polled) = 2
  /\ Runtime.result worked = Runtime.Suspended
  /\ Runtime.requests (Runtime.emitted worked)
     = [Reading.executedRequest rt "s1" [Js.JObj [("message", Js.JStr "a")]];
        Reading.executedRequest rt "s2" [Js.JObj [("message", Js.JStr "b")]]]
  /\ AsyncQueue.items (Runtime.queue worked) = []
  /\ AsyncQueue.resolvers (Runtime.queue worked) = [0].
Proof. cbv zeta. vm_compute. repeat split. Qed.

(** ** The work queue *)

Section QueueFacts.
Context {T R : Type}.
Import AsyncQueue.

Lemma combine_longer_right (l1 : list R) :
  forall (l2 extra : list T),
    length l1 <= length l2 -> combine l1 (l2 ++ extra) = combine l1 l2.
Proof.
  induction l1 as [|r l1 IH]; intros [|x l2] extra Hlen; simpl in *;
    try reflexivity; try lia.
  f_equal. apply IH. lia.
Qed.

Lemma combine_longer_left (l2 : list T) :
  forall (l1 extra : list R),
    length l2 <= length l1 -> combine (l1 ++ extra) l2 = combine l1 l2.
Proof.
  induction l2 as [|x l2 IH]; intros [|r l1] extra Hlen; simpl in *;
    try reflexivity; try lia.
  - destruct extra; reflexivity.
  - f_equal. apply IH. lia.
Qed.

Lemma combine_next_put (l1 : list R) :
  forall (l2 : list T) r rest x,
    skipn (length l2) l1 = r :: rest ->
    combine l1 (l2 ++ [x]) = combine l1 l2 ++ [(r, x)].
Proof.
  induction l1 as [|r1 l1 IH]; intros l2 r rest x Hskip.
  - rewrite skipn_nil in Hskip. discriminate.
  - destruct l2 as [|y l2]; simpl in *.
    + inversion Hskip; subst. rewrite combine_nil. reflexivity.
    + f_equal. eapply IH. eassumption.
Qed.

Lemma combine_next_get (l2 : list T) :
  forall (l1 : list R) x rest r,
    skipn (length l1) l2 = x :: rest ->
    combine (l1 ++ [r]) l2 = combine l1 l2 ++ [(r, x)].
Proof.
  induction l2 as [|y l2 IH]; intros l1 x rest r Hskip.
  - rewrite skipn_nil in Hskip. discriminate.
  - destruct l1 as [|r1 l1]; simpl in *.
    + inversion Hskip; subst. reflexivity.
    + f_equal. eapply IH. eassumption.
Qed.

Lemma skipn_cons_length {A : Type} (n : nat) (l : list A) a rest :
  skipn n l = a :: rest -> n < length l.
Proof.
  intros H. destruct (Nat.lt_ge_cases n (length l)) as [|Hge]; [assumption|].
  rewrite skipn_all2 in H by assumption. discriminate.
Qed.

Lemma skipn_nil_length {A : Type} (n : nat) (l : list A) :
  skipn n l = [] -> length l <= n.
Proof.
  intros H. pose proof (length_skipn n l) as E. rewrite H in E. simpl in E. lia.
Qed.

Lemma skipn_snoc_inside {A : Type} (n : nat) (l : list A) (a : A) :
  n <= length l -> skipn n (l ++ [a]) = skipn n l ++ [a].
Proof.
  intros H. rewrite skipn_app.
  replace (n - length l) with 0 by lia. reflexivity.
Qed.

Lemma skipn_step {A : Type} (n : nat) (l : list A) a rest :
  skipn n l = a :: rest -> skipn (S n) l = rest.
Proof.
  revert l. induction n as [|n IH]; intros l H.
  - simpl in H. subst. reflexivity.
  - destruct l as [|b l]; [discriminate|]. simpl in H. apply IH in H. exact H.
Qed.

Lemma run_snoc (ops : list (Op T R)) (op : Op T R) (q : t T R) :
  run (ops ++ [op]) q = step (run ops q) op.
Proof. unfold run. rewrite fold_left_app. reflexivity. Qed.

Lemma puts_of_snoc (ops : list (Op T R)) (op : Op T R) :
  puts_of (ops ++ [op])
  = puts_of ops ++ match op with Put item => [item] | Get _ => [] end.
Proof. unfold puts_of. rewrite flat_map_app. simpl. rewrite app_nil_r. reflexivity. Qed.

Lemma gets_of_snoc (ops : list (Op T R)) (op : Op T R) :
  gets_of (ops ++ [op])
  = gets_of ops ++ match op with Put _ => [] | Get r => [r] end.
Proof. unfold gets_of. rewrite flat_map_app. simpl. rewrite app_nil_r. reflexivity. Qed.

(** The state of the queue and the hand-overs after any run from the
    empty queue, in terms of the calls made. *)
Lemma run_characterised (capacity : Z) (ops : list (Op T R)) :
  let q := fst (run ops (create capacity)) in
  let o := snd (run ops (create capacity)) in
  items q = skipn (length (gets_of ops)) (puts_of ops)
  /\ resolvers q = skipn (length (puts_of ops)) (gets_of ops)
  /\ AsyncQueue.capacity q = capacity
  /\ delivered o = combine (gets_of ops) (puts_of ops)
  /\ pushed o + handed o = length (puts_of ops)
  /\ taken o + parked o = length (gets_of ops)
  /\ length (items q) + taken o = pushed o
  /\ length (resolvers q) + handed o = parked o.
Proof.
  induction ops as [|op ops IH] using rev_ind.
  - simpl. repeat split; reflexivity.
  - cbv zeta in *. rewrite run_snoc, puts_of_snoc, gets_of_snoc.
    destruct (run ops (create capacity)) as [q o]. simpl in IH.
    destruct IH as (Hi & Hr & Hc & Hd & Hp & Hg & Hsz & Hrs).
    destruct op as [item | r]; simpl; rewrite ?app_nil_r.
    + unfold put. destruct (resolvers q) as [|r rest] eqn:Er; simpl.
      * symmetry in Hr. apply skipn_nil_length in Hr.
        repeat split; try assumption; try lia.
        -- rewrite Hi. symmetry. apply skipn_snoc_inside. lia.
        -- rewrite length_app. simpl.
           symmetry. apply skipn_all2. lia.
        -- rewrite Hd. symmetry. apply combine_longer_right. lia.
        -- rewrite length_app. simpl. lia.
        -- rewrite length_app. simpl. lia.
      * symmetry in Hr. pose proof (skipn_cons_length _ _ _ _ Hr) as Hlt.
        repeat split; try assumption; try lia.
        -- rewrite Hi. rewrite !skipn_all2; try reflexivity;
             rewrite ?length_app; simpl; lia.
        -- rewrite length_app. simpl. rewrite Nat.add_1_r.
           symmetry. eapply skipn_step. eassumption.
        -- rewrite Hd. symmetry. eapply combine_next_put. eassumption.
        -- rewrite length_app. simpl. lia.
        -- simpl in Hrs. lia.
    + unfold get. destruct (items q) as [|x rest] eqn:Ei; simpl.
      * symmetry in Hi. apply skipn_nil_length in Hi.
        repeat split; try assumption; try lia.
        -- rewrite length_app. simpl. symmetry. apply skipn_all2. lia.
        -- rewrite Hr. symmetry. apply skipn_snoc_inside. lia.
        -- rewrite Hd. symmetry. apply combine_longer_left. lia.
        -- rewrite length_app. simpl. lia.
        -- rewrite length_app. simpl. lia.
      * symmetry in Hi. pose proof (skipn_cons_length _ _ _ _ Hi) as Hlt.
        repeat split; try assumption; try lia.
        -- rewrite length_app. simpl. rewrite Nat.add_1_r.
           symmetry. eapply skipn_step. eassumption.
        -- rewrite Hr. rewrite !skipn_all2; try reflexivity;
             rewrite ?length_app; simpl; lia.
        -- rewrite Hd. symmetry. eapply combine_next_get. eassumption.
        -- rewrite length_app. simpl. lia.
        -- simpl in Hsz. lia.
Qed.

End QueueFacts.

(** C9.  The Work Queue, for every sequence of [put] and [get] calls made
    on a fresh queue of any capacity.  Every call is served at once: a put
    either resolves the oldest waiting get (when one is parked) or appends
    to the buffer, whatever the buffer's length and the capacity; a get is
    answered with the oldest buffered item when the buffer is non-empty and
    is parked otherwise.  Items reach consumers in put order (the k-th get
    receives the k-th item put, so the buffer holds the undelivered puts in
    put order), and [size()] is the number of items appended to the buffer
    and not yet taken from it; items handed directly to a waiting get are
    never counted. *)
Theorem C9_work_queue_contract :
  forall (T R : Type) (capacity : Z) (ops : list (AsyncQueue.Op T R)),
    let q := fst (AsyncQueue.run ops (AsyncQueue.create capacity)) in
    let o := snd (AsyncQueue.run ops (AsyncQueue.create capacity)) in
    (* how the calls so far were served *)
    AsyncQueue.pushed o + AsyncQueue.handed o = length (AsyncQueue.puts_of ops)
    /\ AsyncQueue.taken o + AsyncQueue.parked o = length (AsyncQueue.gets_of ops)
    (* FIFO *)
    /\ AsyncQueue.delivered o
       = combine (AsyncQueue.gets_of ops) (AsyncQueue.puts_of ops)
    /\ AsyncQueue.items q
       = skipn (length (AsyncQueue.gets_of ops)) (AsyncQueue.puts_of ops)
    (* size *)
    /\ AsyncQueue.size q = AsyncQueue.pushed o - AsyncQueue.taken o
    (* the next put *)
    /\ (forall item,
          match AsyncQueue.resolvers q with
          | r :: rest =>
              AsyncQueue.put q item
              = (Some (r, item), AsyncQueue.mk (AsyncQueue.items q) rest capacity)
              /\ AsyncQueue.items q = []
          | [] =>
              AsyncQueue.put q item
              = (None, AsyncQueue.mk (AsyncQueue.items q ++ [item]) [] capacity)
              /\ AsyncQueue.size (snd (AsyncQueue.put q item))
                 = S (AsyncQueue.size q)
          end)
    (* the next get *)
    /\ (forall r,
          match AsyncQueue.items q with
          | oldest :: rest =>
              AsyncQueue.get q r
              = (AsyncQueue.Ready oldest,
                 AsyncQueue.mk rest (AsyncQueue.resolvers q) capacity)
              /\ nth_error (AsyncQueue.puts_of ops)
                           (length (AsyncQueue.gets_of ops)) = Some oldest
          | [] =>
              AsyncQueue.get q r
              = (AsyncQueue.Pending,
                 AsyncQueue.mk [] (AsyncQueue.resolvers q ++ [r]) capacity)
          end).
Proof.
  intros T R capacity ops q o.
  destruct (run_characterised capacity ops)
    as (Hi & Hr & Hc & Hd & Hp & Hg & Hsz & Hrs).
  fold q in Hi, Hr, Hc, Hsz, Hrs. fold o in Hd, Hp, Hg, Hsz, Hrs.
  split; [exact Hp|]. split; [exact Hg|]. split; [exact Hd|].
  split; [exact Hi|]. split; [|split].
  - unfold AsyncQueue.size. lia.
  - intros item. unfold AsyncQueue.put.
    destruct (AsyncQueue.resolvers q) as [|r rest] eqn:Er.
    + rewrite Hc. split; [reflexivity|].
      unfold AsyncQueue.size. simpl. rewrite length_app. simpl. lia.
    + rewrite Hc. split; [reflexivity|].
      symmetry in Hr. apply skipn_cons_length in Hr.
      rewrite Hi. apply skipn_all2. lia.
  - intros r. unfold AsyncQueue.get.
    destruct (AsyncQueue.items q) as [|x rest] eqn:Ei.
    + rewrite Hc. reflexivity.
    + rewrite Hc. split; [reflexivity|].
      symmetry in Hi.
      rewrite <- (firstn_skipn (length (AsyncQueue.gets_of ops))
                               (AsyncQueue.puts_of ops)) at 1.
      pose proof (skipn_cons_length _ _ _ _ Hi) as Hlt.
      rewrite nth_error_app2; rewrite length_firstn, Nat.min_l by lia; [|lia].
      rewrite Nat.sub_diag, Hi. reflexivity.
Qed.

Lemma C9_work_queue_witness :
  let ops := [AsyncQueue.Get 7; AsyncQueue.Put "a"; AsyncQueue.Put "b";
              AsyncQueue.Put "c"; AsyncQueue.Get 8] in
  let q := fst (AsyncQueue.run ops (AsyncQueue.create 1)) in
  let o := snd (AsyncQueue.run ops (AsyncQueue.create 1)) in
  AsyncQueue.delivered o = [(7, "a"); (8, "b")]
  /\ AsyncQueue.items q = ["c"]
  /\ AsyncQueue.size q = 1.
Proof.
  intros ops q o.
  destruct (C9_work_queue_contract string nat 1%Z ops)
    as (_ & _ & Hd & Hi & Hs & _).
  split; [exact Hd | split; [exact Hi | exact Hs]].
Defined.

(** ** Signals *)

(** C7.  Constructing a RequeueAfter signal with a delay of zero or less
    throws at once, with the message of the source, and touches nothing:
    evaluated after any events and with any queue it rejects without
    emitting an event, so without a network call, and leaves the queue as
    it was.  With a delay greater than zero the
    construction succeeds and the signal carries that delay unchanged. *)
Theorem C7_requeue_after_requires_positive_delay :
  forall (delay : Z),
    ((delay <= 0)%Z ->
       Signals.ReQueueAfterSignal_new delay = inl "Delay must be greater than 0"
       /\ forall past q,
            Runtime.new_ReQueueAfterSignal delay past q
            = Runtime.mkRun
                (inl (Runtime.ThrowError "Delay must be greater than 0")) [] q)
    /\ ((0 < delay)%Z ->
          exists s,
            Signals.ReQueueAfterSignal_new delay = inr s
            /\ Signals.delayMs s = delay
            /\ forall past q,
                 Runtime.new_ReQueueAfterSignal delay past q
                 = Runtime.mkRun (inr s) [] q).
Proof.
  intros delay. unfold Runtime.new_ReQueueAfterSignal, Signals.ReQueueAfterSignal_new.
  split; intros H.
  - apply Z.leb_le in H. rewrite H. split; reflexivity.
  - apply Z.leb_gt in H. rewrite H.
    exists (Signals.mkReQueueAfter delay). repeat split.
Qed.

Lemma C7_requeue_after_witness :
  Signals.ReQueueAfterSignal_new 0 = inl "Delay must be greater than 0"
  /\ (exists s, Signals.ReQueueAfterSignal_new 1500 = inr s
                /\ Signals.delayMs s = 1500%Z).
Proof.
  split.
  - destruct (C7_requeue_after_requires_positive_delay 0) as [Hneg _].
    destruct Hneg as [Hnew _]; [lia | exact Hnew].
  - destruct (C7_requeue_after_requires_positive_delay 1500) as [_ Hpos].
    destruct Hpos as (s & Hs & Hd & _); [lia |].
    exists s. split; assumption.
Defined.

(** ** Node validation *)

Section ValidationFacts.
Import Js Zod Runtime Notions.

Lemma In_filter_indexed {A : Type} (p : A -> nat -> bool) (xs : list A) :
  forall (i : nat) (x : A),
    In x (filter_indexed p i xs)
    <-> exists k, nth_error xs k = Some x /\ p x (i + k) = true.
Proof.
  induction xs as [|y xs IH]; intros i x; simpl.
  - split; [intros [] | intros (k & Hk & _); destruct k; discriminate].
  - destruct (p y i) eqn:Ep; simpl; rewrite IH; split.
    + intros [-> | (k & Hk & Hp)].
      * exists 0. rewrite Nat.add_0_r. split; [reflexivity | assumption].
      * exists (S k). rewrite Nat.add_succ_r. split; assumption.
    + intros (k & Hk & Hp). destruct k as [|k]; simpl in Hk.
      * left. congruence.
      * right. exists k. rewrite Nat.add_succ_r in Hp. split; assumption.
    + intros (k & Hk & Hp). exists (S k). rewrite Nat.add_succ_r. split; assumption.
    + intros (k & Hk & Hp). destruct k as [|k]; simpl in Hk.
      * rewrite Nat.add_0_r in Hp. congruence.
      * exists k. rewrite Nat.add_succ_r in Hp. split; assumption.
Qed.

Lemma indexOf_first (names : list string) :
  forall (i : nat) (n : string),
    nth_error names i = Some n -> indexOf names n <= i.
Proof.
  induction names as [|m names IH]; intros i n Hi.
  - destruct i; discriminate.
  - simpl. destruct (String.eqb m n) eqn:E; [lia|].
    destruct i as [|i]; simpl in Hi.
    + inversion Hi; subst. rewrite String.eqb_refl in E. discriminate.
    + apply IH in Hi. lia.
Qed.

(** A name borne by two positions is reported. *)
Lemma duplicates_found (names : list string) (i j : nat) (n : string) :
  i <> j -> nth_error names i = Some n -> nth_error names j = Some n ->
  In n (duplicates names).
Proof.
  intros Hij Hi Hj. unfold duplicates. apply In_filter_indexed.
  pose proof (indexOf_first _ _ _ Hi) as Li.
  pose proof (indexOf_first _ _ _ Hj) as Lj.
  destruct (Nat.lt_ge_cases i j).
  - exists j. split; [assumption|]. simpl.
    apply negb_true_iff, Nat.eqb_neq. lia.
  - exists i. split; [assumption|]. simpl.
    apply negb_true_iff, Nat.eqb_neq. lia.
Qed.

Lemma duplicates_none (names : list string) :
  duplicates names = [] -> NoDup names.
Proof.
  intros Hnil. apply NoDup_nth_error. intros i j Hi Hij.
  destruct (Nat.eq_dec i j) as [|Hne]; [assumption|exfalso].
  destruct (nth_error names i) as [n|] eqn:Ei.
  - assert (In n (duplicates names)) as Hin
        by (eapply duplicates_found; eauto).
    rewrite Hnil in Hin. exact Hin.
  - apply nth_error_None in Ei. lia.
Qed.

Lemma checkStrings_reports (nodeName label : string) (schema : ZodType)
      (shape : list (string * ZodType)) (key : string) (ft : ZodType) :
  shape_of schema = Some shape -> In (key, ft) shape ->
  isZodStringSchema ft = false ->
  In (nodeName ++ "." ++ label ++ " field '" ++ key ++ "' must be string")%string
     (checkStrings nodeName schema label).
Proof.
  intros Hs Hin Hft. unfold checkStrings. rewrite Hs.
  apply in_flat_map. exists (key, ft). split; [assumption|].
  simpl. rewrite Hft. left. reflexivity.
Qed.

Lemma checkStrings_silent (nodeName label : string) (shape : list (string * ZodType)) :
  checkStrings nodeName (ZodObject shape) label = [] ->
  forall key ft, In (key, ft) shape -> ft = ZodString.
Proof.
  unfold checkStrings. simpl. intros Hnil key ft Hin.
  destruct ft; try reflexivity; exfalso;
    (assert (In (nodeName ++ "." ++ label ++ " field '" ++ key
                 ++ "' must be string")%string
                (@nil string)) as Hbad;
     [ rewrite <- Hnil; apply in_flat_map; eexists; split;
       [exact Hin | left; reflexivity]
     | exact Hbad ]).
Qed.

Lemma node_errors_role (node : NodeCtor) (label : string) (schema : ZodType)
      (e : string) :
  In (label, schema) (roles node) ->
  In e (checkStrings (name node) schema label) -> In e (node_errors node).
Proof.
  intros Hrole He. unfold node_errors. cbv zeta.
  apply in_concat.
  exists (checkStrings (name node) schema label). split; [|assumption].
  unfold roles in Hrole. simpl in Hrole.
  destruct Hrole as [H | [H | [H | []]]]; inversion H; subst; simpl; tauto.
Qed.

Lemma node_errors_none (node : NodeCtor) :
  node_errors node = [] -> valid_node node.
Proof.
  unfold node_errors, valid_node, roles. cbv zeta. simpl. intros H.
  destruct (extendsBaseNode node); [|discriminate]. simpl in H.
  destruct (Inputs node) as [| | |si]; try discriminate. simpl in H.
  destruct (Outputs node) as [| | |so]; try discriminate. simpl in H.
  destruct (Secrets node) as [| | |ss]; try discriminate. simpl in H.
  rewrite app_nil_r in H.
  apply app_eq_nil in H. destruct H as [Hi H].
  apply app_eq_nil in H. destruct H as [Ho Hs].
  split; [reflexivity|].
  intros label schema [E | [E | [E | []]]]; inversion E; subst;
    eexists; (split; [reflexivity|]); eapply checkStrings_silent; eassumption.
Qed.

Lemma flat_map_nil {A B : Type} (f : A -> list B) (l : list A) :
  flat_map f l = [] -> forall a, In a l -> f a = [].
Proof.
  induction l as [|x l IH]; simpl; intros H a Ha; [contradiction|].
  apply app_eq_nil in H. destruct H as [Hx Hl].
  destruct Ha as [-> | Ha]; [assumption | apply IH; assumption].
Qed.

End ValidationFacts.

(** ** The constructor on classes of the type [NodeCtor] and on any class *)

Section ClassFacts.
Import Js Zod Signals Runtime Notions Classes.

Lemma class_errors_of_ctor (node : NodeCtor) :
  class_errors (of_ctor node) = inr (node_errors node, node).
Proof.
  destruct node as [n e i o s c x]. unfold class_errors, node_errors, of_ctor.
  cbn [class_name inherits static_Inputs static_Outputs static_Secrets
       instantiate method name extendsBaseNode Inputs Outputs Secrets
       construct execute check missing not_object List.concat app].
  rewrite !app_nil_r, <- !app_assoc. reflexivity.
Qed.

Lemma loop_of_ctors (nodes : list NodeCtor) :
  loop (map of_ctor nodes) = inr (flat_map node_errors nodes, nodes).
Proof.
  induction nodes as [|node nodes IH]; [reflexivity|].
  cbn [map loop flat_map]. rewrite class_errors_of_ctor, IH. reflexivity.
Qed.

Lemma class_errors_typed (c : NodeClass) (errors : list string) (node : NodeCtor) :
  class_errors c = inr (errors, node) ->
  c = of_ctor node /\ errors = node_errors node.
Proof.
  destruct c as [n e [i|pi] [o|po] [s|ps] k x]; unfold class_errors;
    cbn [class_name inherits static_Inputs static_Outputs static_Secrets
         instantiate method check]; try discriminate.
  intros H. inversion H; subst. split; [reflexivity|].
  unfold node_errors.
  cbn [name extendsBaseNode Inputs Outputs Secrets missing not_object
       List.concat app].
  rewrite !app_nil_r, <- !app_assoc. reflexivity.
Qed.

Lemma loop_typed (classes : list NodeClass) :
  forall (errors : list string) (nodes : list NodeCtor),
    loop classes = inr (errors, nodes) ->
    classes = map of_ctor nodes /\ errors = flat_map node_errors nodes.
Proof.
  induction classes as [|c classes IH]; intros errors nodes H; cbn [loop] in H.
  - inversion H; subst. split; reflexivity.
  - destruct (class_errors c) as [f|[e node]] eqn:Ec; [discriminate|].
    destruct (loop classes) as [f|[others rest]] eqn:El; [discriminate|].
    inversion H; subst.
    apply class_errors_typed in Ec. destruct Ec as [-> ->].
    destruct (IH others rest eq_refl) as [-> ->].
    split; reflexivity.
Qed.

Lemma messages_of_ctors (nodes : list NodeCtor) :
  messages (map of_ctor nodes) = inr (validation_errors nodes).
Proof.
  unfold messages, with_duplicates, validation_errors.
  rewrite loop_of_ctors, map_map. reflexivity.
Qed.

Lemma messages_typed (classes : list NodeClass) (errors : list string) :
  messages classes = inr errors ->
  exists nodes, classes = map of_ctor nodes /\ errors = validation_errors nodes.
Proof.
  unfold messages. destruct (loop classes) as [f|[errs nodes]] eqn:El;
    [discriminate|].
  intros H. inversion H; subst. apply loop_typed in El. destruct El as [-> ->].
  exists nodes. split; [reflexivity|].
  unfold with_duplicates, validation_errors. rewrite map_map. reflexivity.
Qed.

Lemma loop_carries (classes : list NodeClass) :
  Forall carries_schemas classes <-> exists r, loop classes = inr r.
Proof.
  split.
  - intros Hall. assert (exists nodes, classes = map of_ctor nodes) as [nodes ->].
    { induction Hall as [|c classes (i & o & s & Hi & Ho & Hs) _ [nodes ->]].
      - exists []. reflexivity.
      - exists (mkNode (class_name c) (inherits c) i o s (instantiate c) (method c)
                  :: nodes).
        destruct c; cbn in *; subst. reflexivity. }
    rewrite loop_of_ctors. eauto.
  - intros [[errors nodes] H]. apply loop_typed in H. destruct H as [-> _].
    apply Forall_forall. intros c Hin. apply in_map_iff in Hin.
    destruct Hin as (node & <- & _).
    exists (Inputs node), (Outputs node), (Secrets node). repeat split.
Qed.

(** On classes of the type [NodeCtor] the constructor is [create]. *)
Lemma construct_of_ctors (em : EngineFault -> string) (env : Env)
      (ns nm : string) (nodes : list NodeCtor) (options : RuntimeOptions) :
  construct em env ns nm (map of_ctor nodes) options
  = match create env ns nm nodes options with
    | inl e => inl (ThrowError e)
    | inr rt => inr rt
    end.
Proof.
  unfold construct, create, Classes.validateNodes, Runtime.validateNodes.
  change (validateRuntime (configure env ns nm [] options))
    with (validateRuntime (configure env ns nm nodes options)).
  destruct (validateRuntime (configure env ns nm nodes options)); [reflexivity|].
  rewrite loop_of_ctors.
  change (Runtime.nodes (configure env ns nm nodes options)) with nodes.
  unfold with_duplicates, validation_errors. rewrite map_map.
  cbn [name of_ctor class_name]. cbv zeta.
  match goal with
  | |- context [match ?all with [] => inr tt | _ => _ end] => destruct all
  end; reflexivity.
Qed.

(** What the constructor returns is a Runtime on classes that hold
    their schemas, and [create] returns it too. *)
Lemma construct_returns (em : EngineFault -> string) (env : Env)
      (ns nm : string) (classes : list NodeClass) (options : RuntimeOptions)
      (rt : Runtime.t) :
  construct em env ns nm classes options = inr rt ->
  exists nodes,
    classes = map of_ctor nodes /\ create env ns nm nodes options = inr rt.
Proof.
  intros H. assert (exists nodes, classes = map of_ctor nodes) as [nodes ->].
  { unfold construct, Classes.validateNodes in H.
    destruct (validateRuntime _); [discriminate|].
    destruct (loop classes) as [f|[errs nodes]] eqn:El; [discriminate|].
    apply loop_typed in El. destruct El as [-> _]. eauto. }
  exists nodes. split; [reflexivity|].
  rewrite construct_of_ctors in H.
  destruct (create env ns nm nodes options); [discriminate|].
  inversion H. reflexivity.
Qed.

End ClassFacts.

(** C5 (as the code has it).  For classes that hold their three static
    schemas, which are those on which the loop of [validateNodes] throws
    nothing, and a configuration that passes [validateRuntime] (batch size
    and worker count at least 1, URI and key set), the constructor
    validates every handler class before it returns and reports all the
    violations together: it throws one Error whose message is the header
    followed by every violation message, one per line, and returns a
    Runtime only when there is none.  Two handlers with the same name
    always make construction fail, and the messages hold a duplicates line
    that lists the shared name; a non-string field in an Inputs, Outputs or
    Secrets schema always makes construction fail, and the messages name
    the handler, the schema role and the field.  A Runtime that was
    constructed has only valid handlers with pairwise distinct names. *)
Theorem C5_node_validation_aggregated :
  forall (em : Runtime.EngineFault -> string) (env : Runtime.Env) (ns nm : string)
         (classes : list Classes.NodeClass) (options : Runtime.RuntimeOptions),
    let config := Runtime.configure env ns nm [] options in
    let built := Classes.construct em env ns nm classes options in
    (* the loop throws nothing exactly on classes that hold their schemas *)
    (Forall Classes.carries_schemas classes
     <-> exists errors, Classes.messages classes = inr errors)
    (* one aggregated error for the violations *)
    /\ (forall errors,
          Classes.messages classes = inr errors ->
          Runtime.validateRuntime config = inr tt ->
          (errors <> [] ->
             built = inl (Runtime.ThrowError (Notions.aggregated errors)))
          /\ (errors = [] -> exists rt, built = inr rt))
    (* two handlers with one name *)
    /\ (forall i j a b,
          i <> j -> nth_error classes i = Some a -> nth_error classes j = Some b ->
          Classes.class_name a = Classes.class_name b ->
          (exists t, built = inl t)
          /\ forall errors,
               Classes.messages classes = inr errors ->
               exists dups,
                 In (Classes.class_name a) dups /\ In (Classes.class_name b) dups
                 /\ In ("Duplicate node class names found: "
                        ++ String.concat ", " dups)%string errors)
    (* a field that is not a string *)
    /\ (forall c label schema shape key ft,
          In c classes ->
          In (label, Classes.Schema schema) (Classes.statics c) ->
          Zod.shape_of schema = Some shape -> In (key, ft) shape ->
          Zod.isZodStringSchema ft = false ->
          (exists t, built = inl t)
          /\ forall errors,
               Classes.messages classes = inr errors ->
               In (Classes.class_name c ++ "." ++ label ++ " field '" ++ key
                   ++ "' must be string")%string errors)
    (* no partially valid Runtime *)
    /\ (forall rt,
          built = inr rt ->
          exists nodes,
            classes = map Classes.of_ctor nodes
            /\ rt = Runtime.configure env ns nm nodes options
            /\ Classes.messages classes = inr []
            /\ Forall Notions.valid_node nodes
            /\ NoDup (map Runtime.name nodes)).
Proof.
  intros em env ns nm classes options config built.
  (* what a constructed Runtime tells *)
  assert (Hbuilt : forall rt,
             built = inr rt ->
             exists nodes,
               classes = map Classes.of_ctor nodes
               /\ rt = Runtime.configure env ns nm nodes options
               /\ Runtime.validation_errors nodes = []).
  { intros rt H. apply construct_returns in H.
    destruct H as (nodes & -> & Hcreate). exists nodes.
    split; [reflexivity|].
    unfold Runtime.create, Runtime.validateNodes in Hcreate.
    destruct (Runtime.validateRuntime _); [discriminate|].
    change (Runtime.nodes (Runtime.configure env ns nm nodes options))
      with nodes in Hcreate.
    destruct (Runtime.validation_errors nodes); [|discriminate].
    inversion Hcreate. split; reflexivity. }
  (* classes that pass have no message *)
  assert (Hclean : forall rt errors,
             built = inr rt -> Classes.messages classes = inr errors ->
             errors = []).
  { intros rt errors Hb Hmsg. destruct (Hbuilt rt Hb) as (nodes & Hc & _ & Hnil).
    rewrite Hc, messages_of_ctors, Hnil in Hmsg. inversion Hmsg. reflexivity. }
  assert (Hthrown : forall rt f,
             built = inr rt -> Classes.messages classes <> inl f).
  { intros rt f Hb Hmsg. destruct (Hbuilt rt Hb) as (nodes & Hc & _).
    rewrite Hc, messages_of_ctors in Hmsg. discriminate. }
  split; [|split; [|split; [|split]]].
  - split.
    + intros Hall. apply loop_carries in Hall. destruct Hall as [[errs nodes] Hl].
      unfold Classes.messages. rewrite Hl. eauto.
    + intros [errors H]. apply loop_carries. unfold Classes.messages in H.
      destruct (Classes.loop classes) as [f|r]; [discriminate | eauto].
  - intros errors Hmsg Hcfg.
    destruct (messages_typed _ _ Hmsg) as (nodes & Hc & ->).
    subst built. rewrite Hc, construct_of_ctors.
    unfold Runtime.create, Runtime.validateNodes.
    change (Runtime.validateRuntime (Runtime.configure env ns nm nodes options))
      with (Runtime.validateRuntime config).
    rewrite Hcfg.
    change (Runtime.nodes (Runtime.configure env ns nm nodes options)) with nodes.
    split; intros H.
    + destruct (Runtime.validation_errors nodes); [congruence | reflexivity].
    + rewrite H. eauto.
  - intros i j a b Hij Hi Hj Hname.
    assert (Hline : forall errors,
               Classes.messages classes = inr errors ->
               exists dups,
                 In (Classes.class_name a) dups /\ In (Classes.class_name b) dups
                 /\ In ("Duplicate node class names found: "
                        ++ String.concat ", " dups)%string errors).
    { intros errors Hmsg. unfold Classes.messages in Hmsg.
      destruct (Classes.loop classes) as [f|[errs nodes]]; [discriminate|].
      inversion Hmsg; subst errors.
      assert (Hdup : In (Classes.class_name a)
                        (Runtime.duplicates (map Classes.class_name classes))).
      { apply (duplicates_found _ i j); [assumption | |].
        - rewrite nth_error_map, Hi. reflexivity.
        - rewrite nth_error_map, Hj, Hname. reflexivity. }
      exists (Runtime.duplicates (map Classes.class_name classes)).
      split; [assumption|]. split; [rewrite <- Hname; assumption|].
      unfold Classes.with_duplicates. apply in_or_app. right.
      destruct (Runtime.duplicates (map Classes.class_name classes));
        [contradiction | left; reflexivity]. }
    split; [|exact Hline].
    destruct built as [t|rt] eqn:Eb; [eauto|exfalso].
    destruct (Classes.messages classes) as [f|errors] eqn:Hmsg.
    + exact (Hthrown rt f eq_refl eq_refl).
    + destruct (Hline errors eq_refl) as (dups & _ & _ & Hin).
      rewrite (Hclean rt errors eq_refl eq_refl) in Hin. exact Hin.
  - intros c label schema shape key ft Hc Hrole Hshape Hkey Hft.
    assert (Hline : forall errors,
               Classes.messages classes = inr errors ->
               In (Classes.class_name c ++ "." ++ label ++ " field '" ++ key
                   ++ "' must be string")%string errors).
    { intros errors Hmsg.
      destruct (messages_typed _ _ Hmsg) as (nodes & -> & ->).
      apply in_map_iff in Hc. destruct Hc as (node & <- & Hnode).
      unfold Runtime.validation_errors. cbv zeta.
      apply in_or_app. left. apply in_flat_map. exists node.
      split; [assumption|].
      assert (In (label, schema) (Notions.roles node)) as Hr.
      { unfold Classes.statics, Classes.of_ctor in Hrole. cbn in Hrole.
        unfold Notions.roles. cbn.
        destruct Hrole as [E | [E | [E | []]]]; inversion E; subst; auto. }
      eapply node_errors_role; [exact Hr|].
      eapply checkStrings_reports; eassumption. }
    split; [|exact Hline].
    destruct built as [t|rt] eqn:Eb; [eauto|exfalso].
    destruct (Classes.messages classes) as [f|errors] eqn:Hmsg.
    + exact (Hthrown rt f eq_refl eq_refl).
    + pose proof (Hline errors eq_refl) as Hin.
      rewrite (Hclean rt errors eq_refl eq_refl) in Hin. exact Hin.
  - intros rt H. destruct (Hbuilt rt H) as (nodes & -> & -> & Hnil).
    exists nodes. split; [reflexivity|]. split; [reflexivity|].
    split; [rewrite messages_of_ctors, Hnil; reflexivity|].
    unfold Runtime.validation_errors in Hnil. cbv zeta in Hnil.
    apply app_eq_nil in Hnil. destruct Hnil as [Hnodes Hdups]. split.
    + apply Forall_forall. intros node Hin.
      apply node_errors_none. eapply flat_map_nil; eassumption.
    + apply duplicates_none.
      destruct (Runtime.duplicates (map Runtime.name nodes));
        [reflexivity | discriminate].
Qed.

Lemma C5_node_validation_witness :
  Classes.construct Samples.engine_text Samples.env "ns" "rt"
    (map Classes.of_ctor [Samples.Echo; Samples.Counter; Samples.EchoTwin])
    Runtime.no_options
  = inl (Runtime.ThrowError
           ("Node validation errors:" ++ Js.nl
            ++ "Counter.Outputs field 'count' must be string" ++ Js.nl
            ++ "Duplicate node class names found: Echo")%string).
Proof.
  destruct (C5_node_validation_aggregated
              Samples.engine_text Samples.env "ns" "rt"
              (map Classes.of_ctor [Samples.Echo; Samples.Counter; Samples.EchoTwin])
              Runtime.no_options) as (_ & Hagg & _).
  destruct (Hagg ["Counter.Outputs field 'count' must be string";
                  "Duplicate node class names found: Echo"]%string)
    as [Herr _]; [reflexivity | reflexivity |].
  apply Herr. discriminate.
Defined.

(** C5, as stated, fails when the configuration itself is rejected: with a
    batch size of 0 and two handlers named Echo the constructor throws the
    batch-size error alone; no handler was validated and the message does
    not mention the shared name. *)
Lemma C5_config_error_preempts_counterexample :
  let classes := map Classes.of_ctor [Samples.Echo; Samples.EchoTwin] in
  let options :=
    Runtime.mkOptions None None (Some 0%Z) None None None in
  Runtime.name Samples.Echo = Runtime.name Samples.EchoTwin
  /\ Classes.construct Samples.engine_text Samples.env "ns" "rt" classes options
     = inl (Runtime.ThrowError "Batch size should be at least 1"%string)
  /\ Classes.messages classes
     = inr ["Duplicate node class names found: Echo"%string]
  /\ Classes.construct Samples.engine_text Samples.env "ns" "rt" classes options
     <> inl (Runtime.ThrowError
               (Notions.aggregated ["Duplicate node class names found: Echo"%string]))
  /\ Notions.includes "Echo" "Batch size should be at least 1" = false.
Proof.
  cbv zeta. split; [reflexivity|]. split; [reflexivity|].
  split; [reflexivity|]. split; [|reflexivity].
  intros H. vm_compute in H. discriminate.
Qed.

(** A class without the static schemas: the messages about it are lost
    to the TypeError of [checkStrings]. *)
Example not_node_throws_type_error :
  Classes.construct Samples.engine_text Samples.env "ns" "rt" [Cases.NotNode]
                    Runtime.no_options
  = inl (Runtime.ThrowError "Cannot read properties of undefined (reading 'shape')").
Proof. reflexivity. Qed.

Local Open Scope string_scope.

(** ** The worker's turn *)

Import Js Zod Signals Runtime Reading.

(** *** Requests, ghost events and the last call of a run *)

Lemma requests_app (a b : list Event) :
  requests (a ++ b) = (requests b ++ requests a)%list.
Proof.
  induction a as [|e a IH]; simpl; [rewrite app_nil_r; reflexivity|].
  destruct e; rewrite ?IH, ?app_assoc; reflexivity.
Qed.

Lemma ghosts_app (a b : list Event) :
  ghosts (a ++ b) = (ghosts a ++ ghosts b)%list.
Proof.
  induction a as [|e a IH]; simpl; [reflexivity|].
  destruct (is_ghost e); rewrite IH; reflexivity.
Qed.

Lemma last_call_app (a b : list Event) :
  last_call (a ++ b)
  = match last_call a with Some c => Some c | None => last_call b end.
Proof.
  induction a as [|e a IH]; simpl; [reflexivity|].
  destruct e; auto.
Qed.

Lemma in_ghosts (e : Event) (d : list Event) :
  In e d -> is_ghost e = true -> In e (ghosts d).
Proof.
  induction d as [|x d IH]; simpl; [tauto|].
  intros [-> | Hin] Hg.
  - rewrite Hg. left. reflexivity.
  - destruct (is_ghost x); [right|]; apply IH; assumption.
Qed.

Lemma last_call_requested (d : list Event) (req : Request) (res : FetchResult) :
  last_call d = Some (req, res) -> In req (requests d).
Proof.
  induction d as [|e d IH]; simpl; [discriminate|].
  destruct e; auto. intros H. inversion H; subst.
  apply in_or_app. right. left. reflexivity.
Qed.

Lemma no_requests_no_call (d : list Event) :
  requests d = [] -> last_call d = None.
Proof.
  induction d as [|e d IH]; simpl; [reflexivity|].
  destruct e; auto. intros H. apply app_eq_nil in H. destruct H; discriminate.
Qed.

Lemma eqb_append_l (p a b : string) :
  String.eqb (p ++ a) (p ++ b) = String.eqb a b.
Proof.
  induction p as [|c p IH]; simpl; [reflexivity|].
  rewrite Ascii.eqb_refl. exact IH.
Qed.

(** Two endpoints of one item differ exactly when their last segments do. *)
Lemma eqb_endpoints (rt : Runtime.t) (sid a b : string) :
  String.eqb (base rt ++ "/state/" ++ sid ++ a) (base rt ++ "/state/" ++ sid ++ b)
  = String.eqb a b.
Proof.
  rewrite eqb_append_l. cbn. rewrite eqb_append_l. reflexivity.
Qed.

Lemma calls_to_app (u : string) (a b : list Event) :
  calls_to u (a ++ b) = (calls_to u b ++ calls_to u a)%list.
Proof. unfold calls_to. rewrite requests_app, filter_app. reflexivity. Qed.

(** *** Proof steps *)

#[local] Arguments getSecrets : simpl never.
#[local] Arguments _execute : simpl never.
#[local] Arguments notifyExecuted : simpl never.
#[local] Arguments notifyErrored : simpl never.
#[local] Arguments run_node : simpl never.
#[local] Arguments handle_thrown : simpl never.

(** Unfold a reporter down to the monad's operations. *)
Ltac unfold_run :=
  unfold worker_body, with_state_id, try_catch, run_node, handle_thrown,
    _execute, needSecrets,
    getSecrets, notifyExecuted, notifyErrored, PruneSignal_send,
    ReQueueAfterSignal_send, or_throw, await_outcome, res_json, has_in, prop,
    fetch, log, sleep, emit, fault, throw, attempt, bind, ret, post.

(** Case analysis on the innermost scrutinee, until none is left. *)
Ltac split_goal :=
  repeat match goal with
         | |- context [match ?x with _ => _ end] =>
             lazymatch x with
             | context [match _ with _ => _ end] => fail
             | _ => destruct x eqn:?; cbn
             end
         end.

(** Rewrite with what is known of the events of a sub-run. *)
Ltac use_facts :=
  repeat match goal with
         | H : ghosts ?d = _ |- context [ghosts ?d] => rewrite H
         | H : requests ?d = _ |- context [requests ?d] => rewrite H
         | H : last_call ?d = _ |- context [last_call ?d] => rewrite H
         end.

(** Normal form of [ghosts], [requests] and [last_call] over a run that
    is a concatenation of sub-runs. *)
Ltac events :=
  cbn [queue emitted result app];
  rewrite ?app_nil_r, ?ghosts_app, ?requests_app, ?last_call_app;
  cbn [ghosts requests last_call is_ghost app];
  rewrite ?app_nil_r, ?ghosts_app, ?requests_app, ?last_call_app;
  use_facts;
  cbn [ghosts requests last_call is_ghost app];
  rewrite ?app_nil_r.

(** Membership of an event in such a concatenation. *)
Ltac in_events :=
  cbn [app In]; rewrite ?in_app_iff; cbn [In]; tauto.

(** *** The reporters, the [try] block, the [catch] block, the turn *)

Section WorkerFacts.
Variable net : list Event -> Request -> FetchResult.
Variable em : EngineFault -> string.
Variable rt : Runtime.t.

Lemma getSecrets_outcome (sid : string) (past : list Event) (q : Queue) :
  let run := getSecrets net em rt sid past q in
  queue run = q
  /\ ghosts (emitted run) = []
  /\ requests (emitted run) = [secretsRequest rt sid]
  /\ ((exists v, result run = inr v) \/ (exists m, result run = inl (ThrowError m))).
Proof.
  unfold_run. cbn. split_goal; repeat split; eauto.
Qed.

Lemma notifyExecuted_outcome (sid : string) (outs : list JsValue) past q :
  let run := notifyExecuted net rt sid outs past q in
  let req := executedRequest rt sid outs in
  queue run = q
  /\ ghosts (emitted run) = []
  /\ requests (emitted run) = [req]
  /\ last_call (emitted run) = Some (req, net past req)
  /\ match net past req with
     | FetchRejects m => result run = inl (ThrowError m)
     | FetchResolves res =>
         result run = inr tt
         /\ (ok res = false ->
             In (EvLog ERROR (FailedToNotifyExecuted sid (text res))) (emitted run))
     end.
Proof.
  unfold_run. cbn. unfold executedRequest. split_goal; repeat split; auto; try discriminate.
Qed.

Lemma outArray_parse (t : ZodType) (v p : JsValue) :
  Zod.parse t v = inr p -> outArray p = [p].
Proof.
  destruct t; destruct v; simpl; intros H; try discriminate;
    try (inversion H; subst; reflexivity).
  match type of H with
  | match ?x with _ => _ end = _ => destruct x as [[|i is_] out]
  end; [|discriminate].
  inversion H; subst; reflexivity.
Qed.

Lemma _execute_outcome (h : NodeCtor) (inputsRaw secretsRaw : JsValue) past q :
  let run := _execute em h inputsRaw secretsRaw past q in
  queue run = q
  /\ requests (emitted run) = []
  /\ last_call (emitted run) = None
  /\ ((ghosts (emitted run) = [] /\ exists m, result run = inl (ThrowError m))
      \/ exists o,
           ghosts (emitted run) = [EvExecute h o]
           /\ match o with
              | Rejects t => result run = inl t
              | Resolves value =>
                  match reported_outputs h value with
                  | inl issues =>
                      result run = inl (ThrowError (em (ZodFailure issues)))
                  | inr outs =>
                      exists outputs,
                        result run = inr outputs /\ outArray outputs = outs
                  end
              end).
Proof.
  unfold _execute, or_throw, await_outcome, emit, fault, throw, bind, ret. cbn.
  destruct (Zod.parse (Inputs h) inputsRaw) as [|inputs]; cbn;
    [repeat split; eauto|].
  destruct (Zod.parse (Secrets h) secretsRaw) as [|secrets]; cbn;
    [repeat split; eauto|].
  destruct (execute h inputs secrets) as [value|t] eqn:Eo; cbn.
  - unfold reported_outputs.
    destruct value;
      try (destruct (Zod.parse (Outputs h) _) as [issues|parsed] eqn:Ep; cbn;
           repeat split; auto; right; eexists (Resolves _);
           (split; [reflexivity|]); cbn; rewrite ?Ep;
           [reflexivity | eexists; split; [reflexivity|];
                          eapply outArray_parse; eassumption]).
    + cbn. repeat split; auto. right. eexists (Resolves _).
      split; [reflexivity|]. eexists; split; reflexivity.
    + destruct (Zod.parse_all (Outputs h) elems) as [issues|parsed] eqn:Ep; cbn;
        repeat split; auto; right; eexists (Resolves _);
        (split; [reflexivity|]); cbn; rewrite ?Ep;
        [reflexivity | eexists; split; reflexivity].
  - repeat split; auto. right. exists (Rejects t). split; reflexivity.
Qed.

Lemma after_secrets_outcome (h : NodeCtor) (sid nn : string)
      (inputs secrets : JsValue) (past : list Event) (q : Queue)
      (d0 : list Event) :
  let run := after_secrets net em rt h (StateItem sid nn inputs) sid secrets past q in
  ghosts d0 = [] -> SecretsCalls rt sid (requests d0) ->
  queue run = q
  /\ TryOutcome em rt h sid (result run) (emitted run ++ d0).
Proof.
  intros run Hg0 Hs0. subst run.
  unfold after_secrets, prop, bind, ret, log, emit.
  cbn [StateItem field own_get String.eqb Ascii.eqb Bool.eqb queue emitted result app].
  pose proof (_execute_outcome h inputs secrets past q) as He.
  cbv zeta in He.
  destruct (_execute em h inputs secrets past q) as [re de qe].
  cbn [queue emitted result] in He. destruct He as (-> & Hre & Hle & Hcase).
  destruct Hcase as [(Hge & m & ->) | (o & Hge & Ho)].
  - split; [reflexivity|]. apply NotReached; events; [reflexivity | assumption].
  - destruct o as [value | t].
    + destruct (reported_outputs h value) as [issues|outs] eqn:Eout.
      * subst re. split; [reflexivity|].
        eapply OutputsRejected; [|eassumption|]; events; [reflexivity|assumption].
      * destruct Ho as (outputs & -> & Hout).
        cbn [queue emitted result app].
        match goal with
        | |- context [notifyExecuted net rt sid ?o ?p ?q] =>
            pose proof (notifyExecuted_outcome sid o p q) as Hn;
            cbv zeta in Hn;
            destruct (notifyExecuted net rt sid o p q) as [rn dn qn] eqn:En
        end.
        cbn [queue emitted result] in Hn.
        destruct Hn as (-> & Hgn & Hrn & Hln & Hresn).
        rewrite Hout in *.
        destruct (net _ _) as [message|res] eqn:Enet.
        -- subst rn. split; [reflexivity|].
           eapply ReportLost; try eassumption; events; reflexivity.
        -- destruct Hresn as [-> Hlog]. split; [reflexivity|].
           eapply Reported; try eassumption; events; try reflexivity.
           intros Hok. specialize (Hlog Hok).
           cbn [app In]. rewrite !in_app_iff. tauto.
    + subst re. split; [reflexivity|].
      apply ExecuteRejected; events; [reflexivity | assumption].
Qed.

Lemma run_node_outcome (h : NodeCtor) (sid nn : string) (inputs : JsValue)
      (past : list Event) (q : Queue) :
  let run := run_node net em rt h (StateItem sid nn inputs) sid past q in
  queue run = q /\ TryOutcome em rt h sid (result run) (emitted run).
Proof.
  intros run. subst run.
  change (run_node net em rt h (StateItem sid nn inputs) sid)
    with (bind (needSecrets em h) (fun need =>
          bind (if need
                then bind (getSecrets net em rt sid) (fun s =>
                     bind (log INFO (GotSecrets sid (name h))) (fun _ => ret s))
                else ret (JObj []))
               (after_secrets net em rt h (StateItem sid nn inputs) sid))).
  unfold needSecrets, bind, ret, fault, throw, log, emit.
  destruct (shape_of (Secrets h)) as [shape|]; cbn [queue emitted result app].
  - destruct (0 <? length shape)%nat; cbn [queue emitted result app].
    + pose proof (getSecrets_outcome sid past q) as Hs. cbv zeta in Hs.
      destruct (getSecrets net em rt sid past q) as [rs ds qs].
      cbn [queue emitted result] in Hs. destruct Hs as (-> & Hgs & Hrs & Hres).
      destruct Hres as [[v ->] | [m ->]]; cbn [queue emitted result app].
      * match goal with
        | |- context [after_secrets net em rt h ?st sid ?sec ?p ?q0] =>
            pose proof (after_secrets_outcome h sid nn inputs sec p q0
                          (EvLog INFO (GotSecrets sid (name h)) :: ds)) as Ha;
            cbv zeta in Ha;
            destruct (after_secrets net em rt h st sid sec p q0) as [ra da qa]
        end.
        cbn [queue emitted result app] in *.
        destruct Ha as [-> Ho]; [events; reflexivity | events; constructor |].
        rewrite ?app_nil_r. split; [reflexivity | exact Ho].
      * split; [reflexivity|]. apply NotReached; events; [reflexivity|constructor].
    + match goal with
      | |- context [after_secrets net em rt h ?st sid ?sec ?p ?q0] =>
          pose proof (after_secrets_outcome h sid nn inputs sec p q0 []) as Ha;
          cbv zeta in Ha;
          destruct (after_secrets net em rt h st sid sec p q0) as [ra da qa]
      end.
      cbn [queue emitted result app] in *.
      destruct Ha as [-> Ho]; [reflexivity | constructor |].
      rewrite !app_nil_r in *. split; [reflexivity | exact Ho].
  - split; [reflexivity|]. apply NotReached; [reflexivity | constructor].
Qed.

Lemma notifyErrored_outcome (sid : string) (error : JsValue) past q :
  let run := notifyErrored net rt sid error past q in
  queue run = q
  /\ error_reported rt sid error (emitted run)
                    (net past (erroredRequest rt sid error)) (result run).
Proof.
  unfold notifyErrored, error_reported, fetch, log, emit, bind, ret, post.
  unfold erroredRequest. cbn.
  destruct (net past _) as [m|res] eqn:E; cbn.
  - repeat split; auto.
  - destruct (ok res) eqn:Eok; cbn; repeat split; auto; try discriminate.
Qed.

Lemma handle_thrown_outcome (sid nodeName : string) (t : Thrown) past q :
  let run := handle_thrown net em rt sid nodeName t past q in
  queue run = q /\ CatchOutcome em rt sid t (result run) (emitted run).
Proof.
  destruct t as [message | s | s | v]; unfold handle_thrown;
    unfold bind, log, emit, ret; cbn [queue emitted result app].
  - match goal with
    | |- context [notifyErrored net rt sid ?e ?p ?q0] =>
        pose proof (notifyErrored_outcome sid e p q0) as Hn; cbv zeta in Hn;
        destruct (notifyErrored net rt sid e p q0) as [rn dn qn]
    end.
    cbn [queue emitted result] in Hn.
    destruct Hn as (-> & Hg & Hr & Hl & Hres).
    destruct (net _ _) as [m|res] eqn:En.
    + subst rn. cbn [queue emitted result app]. split; [reflexivity|].
      apply CaughtError with (fres := FetchRejects m).
      unfold error_reported. repeat split; events; reflexivity.
    + destruct Hres as [-> Hlog]. cbn [queue emitted result app].
      split; [reflexivity|].
      apply CaughtError with (fres := FetchResolves res).
      unfold error_reported. repeat split; events; try reflexivity.
      intros Hok. specialize (Hlog Hok). in_events.
  - unfold PruneSignal_send, fetch, bind, throw, ret.
    cbn [queue emitted result app].
    change (mkRequest (getPruneEndpoint rt sid) "POST" (key rt)
                      (Some (JObj [("data", data s)])))
      with (pruneRequest rt sid s).
    destruct (net _ _) as [m|res] eqn:En; cbn [queue emitted result app].
    + split; [reflexivity|].
      apply CaughtPrune with (fres := FetchRejects m).
      unfold signal_sent. repeat split; events; reflexivity.
    + destruct (ok res) eqn:Eok; cbn [queue emitted result app negb];
        (split; [reflexivity|]);
        apply CaughtPrune with (fres := FetchResolves res);
        unfold signal_sent; repeat split; events; rewrite ?Eok; reflexivity.
  - unfold ReQueueAfterSignal_send, fetch, bind, throw, ret.
    cbn [queue emitted result app].
    change (mkRequest (getRequeueAfterEndpoint rt sid) "POST" (key rt)
                      (Some (JObj [("enqueue_after", JNum (delayMs s))])))
      with (requeueRequest rt sid s).
    destruct (net _ _) as [m|res] eqn:En; cbn [queue emitted result app].
    + split; [reflexivity|].
      apply CaughtReQueueAfter with (fres := FetchRejects m).
      unfold signal_sent. repeat split; events; reflexivity.
    + destruct (ok res) eqn:Eok; cbn [queue emitted result app negb];
        (split; [reflexivity|]);
        apply CaughtReQueueAfter with (fres := FetchResolves res);
        unfold signal_sent; repeat split; events; rewrite ?Eok; reflexivity.
  - destruct (converts v) eqn:Ev;
      [|unfold fault, throw; cbn [queue emitted result];
        split; [reflexivity | apply CaughtUnconverted; assumption]].
    cbn [queue emitted result app].
    destruct (message_of v) as [error|] eqn:Em.
    + assert (prop em v "message" = ret error) as ->.
      { destruct v; cbn in Em; inversion Em; reflexivity. }
      unfold ret. cbn [queue emitted result app].
      match goal with
      | |- context [notifyErrored net rt sid ?e ?p ?q0] =>
          pose proof (notifyErrored_outcome sid e p q0) as Hn; cbv zeta in Hn;
          destruct (notifyErrored net rt sid e p q0) as [rn dn qn]
      end.
      cbn [queue emitted result] in Hn.
      destruct Hn as (-> & Hg & Hr & Hl & Hres).
      destruct (net _ _) as [m|res] eqn:En.
      * subst rn. cbn [queue emitted result app]. split; [reflexivity|].
        apply CaughtValue with (error := error) (fres := FetchRejects m);
          [assumption | assumption |].
        unfold error_reported. repeat split; events; reflexivity.
      * destruct Hres as [-> Hlog]. cbn [queue emitted result app].
        split; [reflexivity|].
        apply CaughtValue with (error := error) (fres := FetchResolves res);
          [assumption | assumption |].
        unfold error_reported. repeat split; events; try reflexivity.
        intros Hok. specialize (Hlog Hok). in_events.
    + assert (prop em v "message" = fault em (ReadOfNullish "message")) as ->.
      { destruct v; cbn in Em; inversion Em; reflexivity. }
      unfold fault, throw. cbn [queue emitted result app].
      split; [reflexivity|]. apply CaughtNullish; auto.
Qed.


Lemma worker_body_turn (sid nn : string) (inputs : JsValue) past q :
  let run := worker_body net em rt (StateItem sid nn inputs) past q in
  queue run = q /\ Turn em rt sid nn (result run) (emitted run).
Proof.
  unfold worker_body, with_state_id, StateItem, prop, bind, ret.
  cbn [field own_get String.eqb Ascii.eqb Bool.eqb to_string converts negb
       queue emitted result app].
  destruct (Js.get (nodeMapping rt) nn) as [h | m |] eqn:Eget.
  - unfold emit, throw, log. cbn [queue emitted result app].
    destruct (construct h) as [t|] eqn:Ec; cbn [queue emitted result app].
    + split; [reflexivity|]. eapply TurnConstructorThrew; eassumption.
    + unfold try_catch, attempt, bind, emit, ret.
      cbn [queue emitted result app].
      match goal with
      | |- context [run_node net em rt h ?st sid ?p ?q0] =>
          pose proof (run_node_outcome h sid nn inputs p q0) as Hr;
          cbv zeta in Hr; unfold StateItem in Hr;
          destruct (run_node net em rt h st sid p q0) as [rr dr qr]
      end.
      cbn [queue emitted result] in Hr. destruct Hr as [-> Htry].
      destruct rr as [t|[]]; cbn [queue emitted result app].
      * match goal with
        | |- context [handle_thrown net em rt sid ?n t ?p ?q0] =>
            pose proof (handle_thrown_outcome sid n t p q0) as Hc;
            cbv zeta in Hc;
            destruct (handle_thrown net em rt sid n t p q0) as [rc dc qc]
        end.
        cbn [queue emitted result] in Hc. destruct Hc as [-> Hcatch].
        cbn [queue emitted result app]. split; [reflexivity|].
        rewrite !app_nil_r, <- !app_assoc.
        eapply TurnCaught; eassumption.
      * split; [reflexivity|]. rewrite !app_nil_r, <- !app_assoc.
        eapply TurnTried; eassumption.
  - destruct m.
    + unfold try_catch, attempt, bind, log, emit, ret, fault, throw.
      cbn [queue emitted result app].
      match goal with
      | |- context [handle_thrown net em rt sid ?n ?t ?p ?q0] =>
          pose proof (handle_thrown_outcome sid n t p q0) as Hc;
          cbv zeta in Hc;
          destruct (handle_thrown net em rt sid n t p q0) as [rc dc qc]
      end.
      cbn [queue emitted result] in Hc. destruct Hc as [-> Hcatch].
      cbn [queue emitted result app]. split; [reflexivity|].
      rewrite !app_nil_r.
      eapply TurnObject; eassumption.
    + unfold fault, throw. cbn [queue emitted result app].
      split; [reflexivity|]. eapply TurnNotConstructor; [eassumption|discriminate].
    + unfold fault, throw. cbn [queue emitted result app].
      split; [reflexivity|]. eapply TurnNotConstructor; [eassumption|discriminate].
  - unfold log, emit, bind. cbn [queue emitted result app].
    match goal with
    | |- context [notifyErrored net rt sid ?e ?p ?q0] =>
        pose proof (notifyErrored_outcome sid e p q0) as Hn; cbv zeta in Hn;
        destruct (notifyErrored net rt sid e p q0) as [rn dn qn]
    end.
    cbn [queue emitted result] in Hn. destruct Hn as [-> Hrep].
    destruct rn as [t|[]]; cbn [queue emitted result app].
    all: split; [reflexivity|]; rewrite ?app_nil_r.
    all: eapply TurnUnknown; [eassumption | | in_events].
    all: unfold error_reported in *; destruct Hrep as (Hg & Hr & Hl & Hres).
    all: repeat split; events; try reflexivity; try eassumption.
    all: destruct (net _ _); auto.
    all: destruct Hres as [Hres Hlog]; split; [assumption|].
    all: intros Hok; specialize (Hlog Hok); in_events.
Qed.

End WorkerFacts.

(** *** Inverting a turn *)

Lemma catch_ghosts em rt sid t r d :
  CatchOutcome em rt sid t r d -> ghosts d = [].
Proof.
  intros H; inversion H; subst;
    repeat match goal with
           | H : error_reported _ _ _ _ _ _ |- _ => destruct H as (? & _)
           | H : signal_sent _ _ _ _ _ |- _ => destruct H as (? & _)
           end; solve [assumption | reflexivity].
Qed.

Lemma try_ghosts em rt h sid r d :
  TryOutcome em rt h sid r d ->
  ghosts d = [] \/ exists o, ghosts d = [EvExecute h o].
Proof. intros H; inversion H; subst; eauto. Qed.

(** A turn during which some [execute()] was awaited is a turn on that
    registered class, and the ghost event sits in the [try] block. *)
Lemma turn_executed em rt sid nn r d h o :
  Turn em rt sid nn r d -> In (EvExecute h o) d ->
  (exists tried,
      d = (tried ++ turn_opening h sid)%list /\ r = inr tt
      /\ TryOutcome em rt h sid (inr tt) tried
      /\ ghosts tried = [EvExecute h o])
  \/ (exists tried caught t,
         d = (caught ++ tried ++ turn_opening h sid)%list
         /\ TryOutcome em rt h sid (inl t) tried
         /\ CatchOutcome em rt sid t r caught
         /\ ghosts tried = [EvExecute h o]).
Proof.
  intros Hturn Hin. apply in_ghosts in Hin; [|reflexivity].
  inversion Hturn; subst.
  - destruct H0 as (Hg & _). rewrite Hg in Hin. contradiction.
  - contradiction.
  - apply catch_ghosts in H0. rewrite ghosts_app, H0 in Hin.
    cbn in Hin. contradiction.
  - cbn in Hin. destruct Hin as [E | []]. discriminate.
  - rewrite ghosts_app in Hin. cbn in Hin.
    destruct (try_ghosts _ _ _ _ _ _ H1) as [Hg | [o' Hg]];
      rewrite Hg in Hin; cbn in Hin.
    + destruct Hin as [E | []]. discriminate.
    + destruct Hin as [E | [E | []]]; [|discriminate].
      inversion E; subst. left. eauto.
  - pose proof (catch_ghosts _ _ _ _ _ _ H2) as Hc.
    rewrite !ghosts_app, Hc in Hin. cbn in Hin.
    destruct (try_ghosts _ _ _ _ _ _ H1) as [Hg | [o' Hg]];
      rewrite Hg in Hin; cbn in Hin.
    + destruct Hin as [E | []]. discriminate.
    + destruct Hin as [E | [E | []]]; [|discriminate].
      inversion E; subst. right. eauto 10.
Qed.

Lemma secrets_only_calls rt sid d suffix :
  SecretsCalls rt sid (requests d) ->
  String.eqb "/secrets" suffix = false ->
  calls_to (base rt ++ "/state/" ++ sid ++ suffix) d = [].
Proof.
  intros Hs Hne. unfold calls_to. inversion Hs as [E | E]; [reflexivity|].
  cbn [filter app url secretsRequest]. unfold getSecretsEndpoint.
  rewrite eqb_endpoints, Hne. reflexivity.
Qed.

Lemma secrets_only_executed rt sid d :
  SecretsCalls rt sid (requests d) -> calls_to (getExecutedEndpoint rt sid) d = [].
Proof. intros H. apply (secrets_only_calls rt sid d "/executed" H eq_refl). Qed.

Lemma secrets_only_errored rt sid d :
  SecretsCalls rt sid (requests d) -> calls_to (getErroredEndpoint rt sid) d = [].
Proof. intros H. apply (secrets_only_calls rt sid d "/errored" H eq_refl). Qed.

Lemma secrets_only_prune rt sid d :
  SecretsCalls rt sid (requests d) -> calls_to (getPruneEndpoint rt sid) d = [].
Proof. intros H. apply (secrets_only_calls rt sid d "/prune" H eq_refl). Qed.

(** The calls to one endpoint in a turn made of an opening, a [try] block
    and a [catch] block. *)
Ltac count_calls :=
  unfold turn_opening; rewrite ?calls_to_app;
  repeat match goal with
         | H : SecretsCalls ?rt ?sid (requests ?d) |- _ =>
             rewrite ?(secrets_only_executed rt sid d H),
                     ?(secrets_only_errored rt sid d H),
                     ?(secrets_only_prune rt sid d H);
             clear H
         end;
  unfold calls_to; use_facts;
  cbn [requests filter app url erroredRequest executedRequest pruneRequest
       requeueRequest secretsRequest];
  unfold getExecutedEndpoint, getErroredEndpoint, getPruneEndpoint,
    getRequeueAfterEndpoint, getSecretsEndpoint;
  rewrite ?eqb_endpoints; cbn [String.eqb Ascii.eqb Bool.eqb filter app].

Lemma try_rejected em rt h sid r tried t :
  TryOutcome em rt h sid r tried ->
  ghosts tried = [EvExecute h (Rejects t)] ->
  r = inl t /\ SecretsCalls rt sid (requests tried).
Proof.
  intros Htry Hg. inversion Htry; subst;
    match goal with
    | H : ghosts tried = _ |- _ => rewrite Hg in H; inversion H; subst
    end.
  split; [reflexivity | assumption].
Qed.

Lemma try_resolved em rt h sid r tried value :
  TryOutcome em rt h sid r tried ->
  ghosts tried = [EvExecute h (Resolves value)] ->
  match reported_outputs h value with
  | inl issues =>
      r = inl (ThrowError (em (ZodFailure issues)))
      /\ SecretsCalls rt sid (requests tried)
  | inr outputs =>
      exists before fres,
        SecretsCalls rt sid before
        /\ requests tried = (before ++ [executedRequest rt sid outputs])%list
        /\ last_call tried = Some (executedRequest rt sid outputs, fres)
        /\ match fres with
           | FetchRejects message => r = inl (ThrowError message)
           | FetchResolves res =>
               r = inr tt
               /\ (ok res = false ->
                   In (EvLog ERROR (FailedToNotifyExecuted sid (text res))) tried)
           end
  end.
Proof.
  intros Htry Hg. inversion Htry; subst;
    match goal with
    | H : ghosts tried = _ |- _ => rewrite Hg in H; inversion H; subst
    end;
    match goal with
    | H : reported_outputs _ _ = _ |- _ => rewrite H
    end.
  - split; [reflexivity | assumption].
  - exists before, (FetchRejects message). auto.
  - exists before, (FetchResolves res). auto.
Qed.

(** *** What a turn reports *)

(** C2.  For every work item during whose turn the handler's [execute()]
    raised a generic error (an Error that is neither signal), the worker
    made exactly one call to the errored endpoint of that item, carrying
    the raised error's message, and no call to its executed endpoint. *)
Theorem C2_generic_error_is_reported_once :
  forall (net : list Event -> Request -> FetchResult)
         (em : EngineFault -> string) (rt : Runtime.t)
         (sid nn : string) (inputs : JsValue) (past : list Event) (q : Queue)
         (h : NodeCtor) (message : string),
    let run := worker_body net em rt (StateItem sid nn inputs) past q in
    In (EvExecute h (Rejects (ThrowError message))) (emitted run) ->
    calls_to (getErroredEndpoint rt sid) (emitted run)
    = [erroredRequest rt sid (JStr message)]
    /\ calls_to (getExecutedEndpoint rt sid) (emitted run) = [].
Proof.
  intros net em rt sid nn inputs past q h message run Hin.
  destruct (worker_body_turn net em rt sid nn inputs past q) as [_ Hturn].
  fold run in Hturn.
  destruct (turn_executed _ _ _ _ _ _ _ _ Hturn Hin)
    as [(tried & -> & _ & Htry & Hg) | (tried & caught & t & -> & Htry & Hcatch & Hg)];
    destruct (try_rejected _ _ _ _ _ _ _ Htry Hg) as [E Hs];
    [discriminate|].
  inversion E; subst t.
  inversion Hcatch as [m d fres r (Hgc & Hrc & _) | | | | | ]; subst.
  split; count_calls; reflexivity.
Qed.

Lemma C2_generic_error_witness :
  let rt := Samples.runtime_of [Scenarios.Boom] in
  let run := Scenarios.turn Samples.net_ok [Scenarios.Boom] "Boom" in
  calls_to (getErroredEndpoint rt "s1") (emitted run)
  = [erroredRequest rt "s1" (JStr "Test error")]
  /\ calls_to (getExecutedEndpoint rt "s1") (emitted run) = [].
Proof.
  intros rt run.
  apply (C2_generic_error_is_reported_once
           Samples.net_ok Samples.engine_text rt "s1" "Boom"
           (JObj [("name", JStr "x")]) [] (initial_queue rt)
           Scenarios.Boom "Test error").
  vm_compute. auto 10.
Defined.

(** C3.  For every work item during whose turn the handler raised Prune,
    the worker made exactly one call to the prune endpoint of that item,
    carrying the signal's payload, and no call to its errored or executed
    endpoint.  The signal's [send] emits exactly one fetch and nothing
    else; when the response is not ok it throws the transport error of the
    source, and when it is ok it returns. *)
Theorem C3_prune_is_sent_once :
  forall (net : list Event -> Request -> FetchResult)
         (em : EngineFault -> string) (rt : Runtime.t)
         (sid nn : string) (inputs : JsValue) (past : list Event) (q : Queue)
         (h : NodeCtor) (s : PruneSignal),
    let run := worker_body net em rt (StateItem sid nn inputs) past q in
    (In (EvExecute h (Rejects (ThrowPrune s))) (emitted run) ->
       calls_to (getPruneEndpoint rt sid) (emitted run) = [pruneRequest rt sid s]
       /\ calls_to (getErroredEndpoint rt sid) (emitted run) = []
       /\ calls_to (getExecutedEndpoint rt sid) (emitted run) = [])
    /\ (forall (endpoint key_ : string) (before : list Event) (q0 : Queue),
          let sent := PruneSignal_send net s endpoint key_ before q0 in
          let req := mkRequest endpoint "POST" key_ (Some (JObj [("data", data s)])) in
          emitted sent = [EvFetch req (net before req)]
          /\ (forall res, net before req = FetchResolves res -> ok res = false ->
                result sent
                = inl (ThrowError ("Failed to send prune signal to " ++ endpoint)))
          /\ (forall res, net before req = FetchResolves res -> ok res = true ->
                result sent = inr tt)).
Proof.
  intros net em rt sid nn inputs past q h s run. split.
  - intros Hin.
    destruct (worker_body_turn net em rt sid nn inputs past q) as [_ Hturn].
    fold run in Hturn.
    destruct (turn_executed _ _ _ _ _ _ _ _ Hturn Hin)
      as [(tried & -> & _ & Htry & Hg)
         | (tried & caught & t & -> & Htry & Hcatch & Hg)];
      destruct (try_rejected _ _ _ _ _ _ _ Htry Hg) as [E Hs];
      [discriminate|].
    inversion E; subst t.
    inversion Hcatch as [ | | | s' d fres r (Hgc & Hrc & _) | | ]; subst.
    repeat split; count_calls; reflexivity.
  - intros endpoint key_ before q0 sent req. subst sent.
    unfold PruneSignal_send, fetch, bind, throw, ret. fold req.
    destruct (net before req) as [m|res] eqn:En; cbn.
    + repeat split; intros; discriminate.
    + destruct (ok res) eqn:Eok; cbn; repeat split; intros res' Hres' Hok;
        inversion Hres'; subst; congruence.
Qed.

Lemma C3_prune_witness :
  let rt := Samples.runtime_of [Scenarios.Pruner] in
  let run := Scenarios.turn Samples.net_ok [Scenarios.Pruner] "Pruner" in
  calls_to (getPruneEndpoint rt "s1") (emitted run)
  = [pruneRequest rt "s1" Scenarios.done]
  /\ calls_to (getErroredEndpoint rt "s1") (emitted run) = []
  /\ calls_to (getExecutedEndpoint rt "s1") (emitted run) = []
  /\ result (PruneSignal_send Samples.net_refusing Scenarios.done
                              "http://sm/prune" "k" [] (initial_queue rt))
     = inl (ThrowError "Failed to send prune signal to http://sm/prune").
Proof.
  intros rt run.
  destruct (C3_prune_is_sent_once
              Samples.net_ok Samples.engine_text rt "s1" "Pruner"
              (JObj [("name", JStr "x")]) [] (initial_queue rt)
              Scenarios.Pruner Scenarios.done) as [Hworker _].
  destruct (C3_prune_is_sent_once
              Samples.net_refusing Samples.engine_text rt "s1" "Pruner"
              (JObj [("name", JStr "x")]) [] (initial_queue rt)
              Scenarios.Pruner Scenarios.done) as [_ Hsend].
  destruct Hworker as (Hp & He & Hx); [vm_compute; auto 10|].
  destruct (Hsend "http://sm/prune" "k" [] (initial_queue rt))
    as (_ & Hrefused & _).
  split; [exact Hp|]. split; [exact He|]. split; [exact Hx|].
  apply (Hrefused (mkResponse false "Bad request" None)); reflexivity.
Defined.

(** C10 (as the code has it).  When [execute()] rejects with a value that
    is not an Error, is neither [null] nor [undefined] and converts to a
    string (as the message of the worker's log line requires), the worker
    still posts one errored report for the item and no executed report;
    the report's error field is the value's [message] property.  For a
    thrown string, number, boolean or array that property is [undefined],
    so the serialized body is the empty object: the report carries no
    message. *)
Theorem C10_thrown_value_reported_without_message :
  forall (net : list Event -> Request -> FetchResult)
         (em : EngineFault -> string) (rt : Runtime.t)
         (sid nn : string) (inputs : JsValue) (past : list Event) (q : Queue)
         (h : NodeCtor) (v error : JsValue),
    let run := worker_body net em rt (StateItem sid nn inputs) past q in
    In (EvExecute h (Rejects (ThrowValue v))) (emitted run) ->
    converts v = true ->
    message_of v = Some error ->
    calls_to (getErroredEndpoint rt sid) (emitted run)
    = [erroredRequest rt sid error]
    /\ calls_to (getExecutedEndpoint rt sid) (emitted run) = []
    /\ (match v with JObj _ => False | _ => True end ->
        error = JUndefined
        /\ option_map json_wire (body (erroredRequest rt sid error))
           = Some (JObj [])).
Proof.
  intros net em rt sid nn inputs past q h v error run Hin Hconv Hmsg.
  destruct (worker_body_turn net em rt sid nn inputs past q) as [_ Hturn].
  fold run in Hturn.
  destruct (turn_executed _ _ _ _ _ _ _ _ Hturn Hin)
    as [(tried & -> & _ & Htry & Hg)
       | (tried & caught & t & -> & Htry & Hcatch & Hg)];
    destruct (try_rejected _ _ _ _ _ _ _ Htry Hg) as [E Hs];
    [discriminate|].
  inversion E; subst t.
  inversion Hcatch
    as [ | v' e' d fres r Hv Hm (Hgc & Hrc & _) | v' d Hm | | | v' Hv ];
    subst; [|congruence|congruence].
  assert (e' = error) as -> by congruence.
  split; [count_calls; reflexivity|].
  split; [count_calls; reflexivity|].
  intros Hprim. destruct v; cbn in Hmsg; try contradiction; try discriminate;
    inversion Hmsg; subst; split; reflexivity.
Qed.

Lemma C10_thrown_string_witness :
  let rt := Samples.runtime_of [Scenarios.Shouter] in
  let run := Scenarios.turn Samples.net_ok [Scenarios.Shouter] "Shouter" in
  calls_to (getErroredEndpoint rt "s1") (emitted run)
  = [erroredRequest rt "s1" JUndefined]
  /\ option_map json_wire (body (erroredRequest rt "s1" JUndefined))
     = Some (JObj []).
Proof.
  intros rt run.
  destruct (C10_thrown_value_reported_without_message
              Samples.net_ok Samples.engine_text rt "s1" "Shouter"
              (JObj [("name", JStr "x")]) [] (initial_queue rt)
              Scenarios.Shouter (JStr "boom") JUndefined)
    as (Hcalls & _ & Hwire).
  - vm_compute. auto 10.
  - reflexivity.
  - reflexivity.
  - split; [exact Hcalls|]. apply Hwire. exact I.
Defined.

(** C10, as stated, fails for a thrown [null]: reading [err.message]
    throws inside the [catch] block, no errored report is posted and the
    worker's promise rejects. *)
Lemma C10_thrown_null_counterexample :
  let rt := Samples.runtime_of [Scenarios.NullThrower] in
  let run := Scenarios.turn Samples.net_ok [Scenarios.NullThrower] "NullThrower" in
  In (EvExecute Scenarios.NullThrower (Rejects (ThrowValue JNull))) (emitted run)
  /\ calls_to (getErroredEndpoint rt "s1") (emitted run) = []
  /\ requests (emitted run) = []
  /\ result run
     = inl (ThrowError (Samples.engine_text (ReadOfNullish "message"))).
Proof.
  cbv zeta. vm_compute. repeat split. auto 10.
Qed.

(** A thrown object that does not convert to a string: the message of
    the log line throws inside the [catch] block, nothing is reported and
    the worker's promise rejects. *)
Example unconverted_value_rejects_the_worker :
  let run := Scenarios.turn Samples.net_ok [Cases.Odd] "Odd" in
  requests (emitted run) = []
  /\ result run = inl (ThrowError (Samples.engine_text NoPrimitive)).
Proof. split; reflexivity. Qed.

Lemma parse_all_each (t : ZodType) (results parsed : list JsValue) :
  Zod.parse_all t results = inr parsed ->
  Forall2 (fun r p => Zod.parse t r = inr p) results parsed.
Proof.
  revert parsed. induction results as [|r results IH]; simpl; intros parsed H.
  - inversion H. constructor.
  - destruct (Zod.parse t r) as [|p] eqn:Ep; [discriminate|].
    destruct (Zod.parse_all t results) as [|ps]; [discriminate|].
    inversion H; subst. constructor; [assumption | apply IH; reflexivity].
Qed.

(** The executed report of a turn whose [execute()] resolved with a value
    the output schema accepts. *)
Lemma resolved_turn_reports em rt sid nn r d h value outputs :
  Turn em rt sid nn r d -> In (EvExecute h (Resolves value)) d ->
  reported_outputs h value = inr outputs ->
  calls_to (getExecutedEndpoint rt sid) d = [executedRequest rt sid outputs]
  /\ (forall res,
        last_call d = Some (executedRequest rt sid outputs, FetchResolves res) ->
        calls_to (getErroredEndpoint rt sid) d = []).
Proof.
  intros Hturn Hin Hout.
  destruct (turn_executed _ _ _ _ _ _ _ _ Hturn Hin)
    as [(tried & -> & _ & Htry & Hg)
       | (tried & caught & t & -> & Htry & Hcatch & Hg)];
    pose proof (try_resolved _ _ _ _ _ _ _ Htry Hg) as Hres;
    rewrite Hout in Hres;
    destruct Hres as (before & fres & Hb & Hreq & Hlast & Hr).
  - split.
    + inversion Hb; subst before; count_calls; reflexivity.
    + intros res _. inversion Hb; subst before; count_calls; reflexivity.
  - destruct fres as [message|res0]; [|destruct Hr; discriminate].
    inversion Hr; subst t.
    inversion Hcatch as [m d fres r' (Hgc & Hrc & Hlc & _) | | | | | ]; subst.
    split.
    + inversion Hb; subst before; count_calls; reflexivity.
    + intros res Hl. rewrite last_call_app, Hlc in Hl. inversion Hl.
Qed.

(** C1 (as the code has it).  For every work item during whose turn the
    handler's [execute()] resolved: if the result is a plain object that
    the output schema accepts, the worker made one executed report whose
    outputs payload is the array holding exactly the validated object; if
    it is an array whose elements the schema accepts, the payload is the
    array of the validated elements, of the same length and in the same
    order; if it is [null], the payload is [[{}]], and once that report is
    answered no errored report is made for the item. *)
Theorem C1_resolved_result_reported :
  forall (net : list Event -> Request -> FetchResult)
         (em : EngineFault -> string) (rt : Runtime.t)
         (sid nn : string) (inputs : JsValue) (past : list Event) (q : Queue)
         (h : NodeCtor) (value : JsValue),
    let run := worker_body net em rt (StateItem sid nn inputs) past q in
    let executed := calls_to (getExecutedEndpoint rt sid) (emitted run) in
    In (EvExecute h (Resolves value)) (emitted run) ->
    (* a plain object *)
    (forall fields validated,
        value = JObj fields ->
        Zod.parse (Outputs h) value = inr validated ->
        executed = [executedRequest rt sid [validated]])
    (* an array of objects *)
    /\ (forall results validated,
          value = JArr results ->
          Zod.parse_all (Outputs h) results = inr validated ->
          executed = [executedRequest rt sid validated]
          /\ length validated = length results
          /\ Forall2 (fun r v => Zod.parse (Outputs h) r = inr v) results validated)
    (* null *)
    /\ (value = JNull ->
        executed = [executedRequest rt sid [JObj []]]
        /\ forall res,
             last_call (emitted run)
             = Some (executedRequest rt sid [JObj []], FetchResolves res) ->
             calls_to (getErroredEndpoint rt sid) (emitted run) = []).
Proof.
  intros net em rt sid nn inputs past q h value run executed Hin.
  destruct (worker_body_turn net em rt sid nn inputs past q) as [_ Hturn].
  fold run in Hturn. subst executed.
  split; [|split].
  - intros fields validated -> Hp.
    eapply resolved_turn_reports; [eassumption | eassumption |].
    unfold reported_outputs. rewrite Hp. reflexivity.
  - intros results validated -> Hp. split; [|split].
    + eapply resolved_turn_reports; [eassumption | eassumption |].
      unfold reported_outputs. exact Hp.
    + apply parse_all_each in Hp. symmetry. eapply Forall2_length. eassumption.
    + apply parse_all_each. assumption.
  - intros ->.
    eapply resolved_turn_reports; [eassumption | eassumption | reflexivity].
Qed.

Lemma C1_resolved_result_witness :
  let rt := Samples.runtime_of [Samples.Echo; Scenarios.Silent] in
  calls_to (getExecutedEndpoint rt "s1")
           (emitted (Scenarios.turn Samples.net_ok
                                    [Samples.Echo; Scenarios.Silent] "Echo"))
  = [executedRequest rt "s1" [JObj [("message", JStr "x")]]]
  /\ calls_to (getExecutedEndpoint rt "s1")
              (emitted (Scenarios.turn Samples.net_ok
                                       [Samples.Echo; Scenarios.Silent] "Silent"))
     = [executedRequest rt "s1" [JObj []]].
Proof.
  intros rt. split.
  - destruct (C1_resolved_result_reported
                Samples.net_ok Samples.engine_text rt "s1" "Echo"
                (JObj [("name", JStr "x")]) [] (initial_queue rt)
                Samples.Echo (JObj [("message", JStr "x")]))
      as (Hobject & _ & _); [vm_compute; auto 10|].
    apply (Hobject [("message", JStr "x")]); reflexivity.
  - destruct (C1_resolved_result_reported
                Samples.net_ok Samples.engine_text rt "s1" "Silent"
                (JObj [("name", JStr "x")]) [] (initial_queue rt)
                Scenarios.Silent JNull)
      as (_ & _ & Hnull); [vm_compute; auto 10|].
    destruct Hnull as [Hpayload _]; [reflexivity | exact Hpayload].
Defined.

(** C1, as stated, fails for an absent result and for an empty one: when
    [execute()] resolves with [undefined] the output schema rejects it and
    the item is reported as errored, with no executed report; when it
    resolves with an empty array the payload is the empty array. *)
Lemma C1_absent_result_counterexample :
  let rt := Samples.runtime_of [Scenarios.Forgetful; Scenarios.Empty] in
  let absent :=
    Scenarios.turn Samples.net_ok [Scenarios.Forgetful; Scenarios.Empty]
                   "Forgetful" in
  let empty :=
    Scenarios.turn Samples.net_ok [Scenarios.Forgetful; Scenarios.Empty]
                   "Empty" in
  (In (EvExecute Scenarios.Forgetful (Resolves JUndefined)) (emitted absent)
   /\ calls_to (getExecutedEndpoint rt "s1") (emitted absent) = []
   /\ calls_to (getErroredEndpoint rt "s1") (emitted absent)
      = [erroredRequest rt "s1" (JStr "ZodError")])
  /\ (In (EvExecute Scenarios.Empty (Resolves (JArr []))) (emitted empty)
      /\ calls_to (getExecutedEndpoint rt "s1") (emitted empty)
         = [executedRequest rt "s1" []]).
Proof.
  cbv zeta. vm_compute. repeat split; auto 10.
Qed.

(** *** Unknown nodes *)

(** C6 (where the code departs from it).  An item whose node name is
    [toString] is never registered as an own property of the node mapping
    unless a handler bears that name, yet [this.nodeMapping[name]] finds
    [Object.prototype.toString]: the unknown-node branch is skipped, [new]
    throws outside the [try], and the worker's promise rejects without any
    report being posted. *)
Theorem C6_inherited_name_escapes_lookup :
  forall (net : list Event -> Request -> FetchResult)
         (em : EngineFault -> string) (rt : Runtime.t)
         (sid : string) (inputs : JsValue) (past : list Event) (q : Queue),
    own_get (nodeMapping rt) "toString" = None ->
    let run := worker_body net em rt (StateItem sid "toString" inputs) past q in
    result run = inl (ThrowError (em NotAConstructor))
    /\ emitted run = []
    /\ calls_to (getErroredEndpoint rt sid) (emitted run) = [].
Proof.
  intros net em rt sid inputs past q Hown run. subst run.
  unfold worker_body, with_state_id, StateItem, prop, bind, ret, Js.get.
  cbn [field own_get String.eqb Ascii.eqb Bool.eqb to_string converts negb
       queue emitted result app].
  rewrite Hown. cbn. repeat split.
Qed.

Lemma C6_inherited_name_witness :
  let rt := Samples.runtime_of [Samples.Echo] in
  let run := Scenarios.turn Samples.net_ok [Samples.Echo] "toString" in
  result run = inl (ThrowError (Samples.engine_text NotAConstructor))
  /\ emitted run = []
  /\ calls_to (getErroredEndpoint rt "s1") (emitted run) = [].
Proof.
  intros rt run.
  apply (C6_inherited_name_escapes_lookup
           Samples.net_ok Samples.engine_text rt "s1"
           (JObj [("name", JStr "x")]) [] (initial_queue rt)).
  reflexivity.
Defined.

(** For a name that is neither registered nor found on [Object.prototype]
    the worker does what C6 describes. *)
Lemma unknown_node_reported :
  forall (net : list Event -> Request -> FetchResult)
         (em : EngineFault -> string) (rt : Runtime.t)
         (sid nn : string) (inputs : JsValue) (past : list Event) (q : Queue),
    Js.get (nodeMapping rt) nn = Absent ->
    let run := worker_body net em rt (StateItem sid nn inputs) past q in
    requests (emitted run) = [erroredRequest rt sid (JStr "Unknown node")]
    /\ ghosts (emitted run) = []
    /\ (forall res,
          last_call (emitted run)
          = Some (erroredRequest rt sid (JStr "Unknown node"), FetchResolves res) ->
          result run = inr tt).
Proof.
  intros net em rt sid nn inputs past q Hget run.
  destruct (worker_body_turn net em rt sid nn inputs past q) as [_ Hturn].
  fold run in Hturn.
  inversion Hturn; subst; try congruence.
  destruct H0 as (Hg & Hr & Hl & Hres).
  repeat split; try assumption.
  intros res Hlast. rewrite Hl in Hlast. inversion Hlast; subst.
  destruct Hres; assumption.
Qed.

(** *** Reports that are not acknowledged *)

Lemma report_is_not_secrets rt sid req :
  (exists outputs, req = executedRequest rt sid outputs)
  \/ (exists error, req = erroredRequest rt sid error) ->
  req <> secretsRequest rt sid.
Proof. intros [[x ->] | [x ->]]; discriminate. Qed.

Lemma report_is_not_signal rt sid req :
  (exists outputs, req = executedRequest rt sid outputs)
  \/ (exists error, req = erroredRequest rt sid error) ->
  (forall s, req <> pruneRequest rt sid s)
  /\ (forall s, req <> requeueRequest rt sid s).
Proof. intros [[x ->] | [x ->]]; split; intros s; discriminate. Qed.

Lemma error_report_survives rt sid error d fres r req res :
  error_reported rt sid error d fres r ->
  last_call d = Some (req, FetchResolves res) -> ok res = false ->
  r = inr tt /\ In (EvLog ERROR (FailedToNotifyErrored sid (text res))) d.
Proof.
  intros (_ & _ & Hl & Hres) Hlast Hok. rewrite Hl in Hlast.
  inversion Hlast; subst. destruct Hres as [-> Hlog]. auto.
Qed.

(** A turn that ends on an unacknowledged executed or errored report
    resolves, with the failure logged. *)
Lemma failed_report_survives em rt sid nn r d req res :
  Turn em rt sid nn r d ->
  last_call d = Some (req, FetchResolves res) -> ok res = false ->
  (exists outputs, req = executedRequest rt sid outputs)
  \/ (exists error, req = erroredRequest rt sid error) ->
  r = inr tt
  /\ (In (EvLog ERROR (FailedToNotifyExecuted sid (text res))) d
      \/ In (EvLog ERROR (FailedToNotifyErrored sid (text res))) d).
Proof.
  intros Hturn Hlast Hok Hreq.
  pose proof (report_is_not_secrets _ _ _ Hreq) as Hns.
  destruct (report_is_not_signal _ _ _ Hreq) as [Hnp Hnr].
  inversion Hturn as
      [ d' fres r' Hget Hrep Hlog
      | m Hget Hm
      | d' r' Hget Hcatch
      | h t Hget Hc
      | h tried Hget Hc Htry
      | h t tried caught r' Hget Hc Htry Hcatch ]; subst.
  - destruct (error_report_survives _ _ _ _ _ _ _ _ Hrep Hlast Hok). auto.
  - discriminate.
  - inversion Hcatch as [m d fres r0 Hrep | | | | | ]; subst.
    destruct Hrep as (Hg & Hr & Hl & Hres).
    rewrite last_call_app, Hl in Hlast. inversion Hlast; subst.
    destruct Hres as [-> Hlog]. split; [reflexivity|].
    right. apply in_or_app. left. auto.
  - discriminate.
  - split; [reflexivity|]. left.
    inversion Htry as [ | | | | d value outputs before res0 Hg Hout Hb Hr Hl Hlog];
      subst.
    rewrite last_call_app, Hl in Hlast. inversion Hlast; subst.
    apply in_or_app. left. auto.
  - inversion Hcatch as
        [ m d fres r0 Hrep
        | v error d fres r0 Hv Hm Hrep
        | v d Hm Hg Hr
        | s d fres r0 Hsent
        | s d fres r0 Hsent
        | v Hv ]; subst.
    + destruct Hrep as (Hg & Hr & Hl & Hres).
      rewrite last_call_app, Hl in Hlast. inversion Hlast; subst.
      destruct Hres as [-> Hlog]. split; [reflexivity|].
      right. apply in_or_app. left. auto.
    + destruct Hrep as (Hg & Hr & Hl & Hres).
      rewrite last_call_app, Hl in Hlast. inversion Hlast; subst.
      destruct Hres as [-> Hlog]. split; [reflexivity|].
      right. apply in_or_app. left. auto.
    + exfalso. rewrite last_call_app, (no_requests_no_call _ Hr) in Hlast.
      rewrite last_call_app in Hlast. unfold turn_opening in Hlast.
      cbn [last_call] in Hlast.
      destruct (last_call tried) as [[req' res']|] eqn:El; [|discriminate].
      inversion Hlast; subst.
      apply last_call_requested in El.
      inversion Htry as [ | d t Hgt Hs | | | ]; subst.
      inversion Hs as [E | E]; rewrite <- E in El; cbn in El;
        [contradiction | destruct El as [El | []]; congruence].
    + exfalso. destruct Hsent as (_ & _ & Hl & _).
      rewrite last_call_app, Hl in Hlast. inversion Hlast; subst.
      eapply Hnp. reflexivity.
    + exfalso. destruct Hsent as (_ & _ & Hl & _).
      rewrite last_call_app, Hl in Hlast. inversion Hlast; subst.
      eapply Hnr. reflexivity.
    + exfalso. cbn [app] in Hlast.
      rewrite last_call_app in Hlast. unfold turn_opening in Hlast.
      cbn [last_call] in Hlast.
      destruct (last_call tried) as [[req' res']|] eqn:El; [|discriminate].
      inversion Hlast; subst.
      apply last_call_requested in El.
      inversion Htry as [ | d t Hgt Hs | | | ]; subst.
      inversion Hs as [E | E]; rewrite <- E in El; cbn in El;
        [contradiction | destruct El as [El | []]; congruence].
Qed.

(** C4 (as the code has it).  For every work item and every worker: when
    the turn on the item ends with an executed or errored report that the
    orchestrator answers with a status that is not ok, the turn resolves
    (the worker's promise does not reject), the failure is logged, and the
    worker's loop goes on with the rest of the queue: its next [get] takes
    the next buffered item, or parks the worker when there is none. *)
Theorem C4_failed_report_does_not_stop_worker :
  forall (net : list Event -> Request -> FetchResult)
         (em : EngineFault -> string) (rt : Runtime.t)
         (sid nn : string) (inputs : JsValue) (past : list Event)
         (q0 : Queue) (rest : list JsValue) (idx fuel : nat)
         (req : Request) (res : Response),
    AsyncQueue.items q0 = StateItem sid nn inputs :: rest ->
    let q := AsyncQueue.mk rest (AsyncQueue.resolvers q0) (AsyncQueue.capacity q0) in
    let run := worker_body net em rt (StateItem sid nn inputs) past q in
    last_call (emitted run) = Some (req, FetchResolves res) ->
    ok res = false ->
    (exists outputs, req = executedRequest rt sid outputs)
    \/ (exists error, req = erroredRequest rt sid error) ->
    (* the turn resolves and the failure is logged *)
    result run = inr tt
    /\ (In (EvLog ERROR (FailedToNotifyExecuted sid (text res))) (emitted run)
        \/ In (EvLog ERROR (FailedToNotifyErrored sid (text res))) (emitted run))
    (* the worker goes on with what the queue holds next *)
    /\ AsyncQueue.items (queue run) = rest
    /\ let next :=
         worker_loop net em rt fuel idx (emitted run ++ past)%list (queue run) in
       worker_loop net em rt (S fuel) idx past q0
       = mkRun (result next) (emitted next ++ emitted run)%list (queue next).
Proof.
  intros net em rt sid nn inputs past q0 rest idx fuel req res Hitems q run
         Hlast Hok Hreq.
  destruct (worker_body_turn net em rt sid nn inputs past q) as [Hq Hturn].
  fold run in Hq, Hturn.
  destruct (failed_report_survives _ _ _ _ _ _ _ _ Hturn Hlast Hok Hreq)
    as [Hres Hlog].
  split; [assumption|]. split; [assumption|].
  split; [rewrite Hq; reflexivity|].
  cbn [worker_loop]. unfold AsyncQueue.get. rewrite Hitems.
  fold q. fold run. clearbody run. destruct run as [rr dr qr].
  cbn [queue emitted result] in *. subst rr.
  destruct (worker_loop net em rt fuel idx (dr ++ past) qr); reflexivity.
Qed.

Lemma C4_failed_report_witness :
  let rt := Samples.runtime_of [Samples.Echo] in
  let q0 := AsyncQueue.mk [Scenarios.item "Echo"; Scenarios.item "Nobody"] []
                          (2 * batchSize rt) in
  let run := worker_loop Samples.net_refusing Samples.engine_text rt 3 0 [] q0 in
  result run = Suspended
  /\ requests (emitted run)
     = [executedRequest rt "s1" [JObj [("message", JStr "x")]];
        erroredRequest rt "s1" (JStr "Unknown node")]
  /\ In (EvLog ERROR (FailedToNotifyExecuted "s1" "Bad request")) (emitted run).
Proof.
  intros rt q0 run.
  assert (Hlast :
            last_call
              (emitted
                 (worker_body Samples.net_refusing Samples.engine_text rt
                    (StateItem "s1" "Echo" (JObj [("name", JStr "x")])) []
                    (AsyncQueue.mk [Scenarios.item "Nobody"]
                       (AsyncQueue.resolvers q0) (AsyncQueue.capacity q0))))
            = Some (executedRequest rt "s1" [JObj [("message", JStr "x")]],
                    FetchResolves (mkResponse false "Bad request" None)))
    by (vm_compute; reflexivity).
  destruct (C4_failed_report_does_not_stop_worker
              Samples.net_refusing Samples.engine_text rt "s1" "Echo"
              (JObj [("name", JStr "x")]) [] q0 [Scenarios.item "Nobody"] 0 2
              (executedRequest rt "s1" [JObj [("message", JStr "x")]])
              (mkResponse false "Bad request" None)
              eq_refl Hlast eq_refl
              (or_introl (ex_intro _ [JObj [("message", JStr "x")]] eq_refl)))
    as (_ & _ & _ & Hloop).
  subst run. rewrite Hloop. vm_compute.
  split; [reflexivity|]. split; [reflexivity|]. auto 10.
Defined.

(** C4, as stated, fails when the report gets no answer at all: with the
    network down the fetch of the errored report rejects, nothing catches
    it (the report for an unknown node is outside the [try], the one for a
    handler error is inside the [catch]), the worker's promise rejects and
    the item that follows stays in the queue. *)
Lemma C4_rejected_report_counterexample :
  let rt := Samples.runtime_of [Samples.Echo] in
  let q0 := AsyncQueue.mk [Scenarios.item "Nobody"; Scenarios.item "Echo"] []
                          (2 * batchSize rt) in
  let run := worker_loop Samples.net_down Samples.engine_text rt 3 0 [] q0 in
  result run = Terminated (ThrowError "fetch failed")
  /\ requests (emitted run) = [erroredRequest rt "s1" (JStr "Unknown node")]
  /\ AsyncQueue.items (queue run) = [Scenarios.item "Echo"].
Proof. cbv zeta. vm_compute. repeat split. Qed.

(** ** The poller *)

Section PollerFacts.
Variable net : list Event -> Request -> FetchResult.
Variable em : EngineFault -> string.
Variable rt : Runtime.t.

Lemma put_all_run (states : list JsValue) :
  forall (past : list Event) (q : Queue),
    let run := put_all states past q in
    result run = inr tt
    /\ queue run = put_list q states
    /\ requests (emitted run) = [].
Proof.
  induction states as [|state states IH]; intros past q; cbn [put_all].
  - repeat split.
  - unfold bind, queue_put. unfold put_list. cbn [fold_left].
    destruct (AsyncQueue.put q state) as [[[r item]|] q1] eqn:Eput;
      cbn [snd];
      match goal with
      | |- context [put_all states ?p ?q0] =>
          destruct (IH p q0) as (Hr & Hq & Hreq);
          destruct (put_all states p q0) as [r' d' q']
      end;
      cbn [queue emitted result] in *; subst r';
      cbn [queue emitted result];
      rewrite ?requests_app, ?Hreq; repeat split; assumption.
Qed.

Lemma enqueue_turn_resolves (past : list Event) (q : Queue) :
  result (enqueue_turn net em rt past q) = inr tt.
Proof.
  unfold enqueue_turn, attempt, bind, log, sleep, emit.
  destruct (enqueue_try net em rt past q) as [[e|[]] d q1]; reflexivity.
Qed.

Lemma enqueue_never_rejects (fuel : nat) :
  forall (past : list Event) (q : Queue),
    result (enqueue net em rt fuel past q) = inr tt.
Proof.
  induction fuel as [|fuel IH]; intros past q; cbn [enqueue]; [reflexivity|].
  unfold bind. pose proof (enqueue_turn_resolves past q) as Hturn.
  destruct (enqueue_turn net em rt past q) as [r d q1].
  cbn [result] in Hturn. subst r.
  specialize (IH (d ++ past)%list q1).
  destruct (enqueue net em rt fuel (d ++ past)%list q1) as [r2 d2 q2].
  exact IH.
Qed.

Lemma enqueueCall_run (past : list Event) (q : Queue) :
  let run := enqueueCall net em rt past q in
  emitted run = [EvFetch (batchRequest rt) (net past (batchRequest rt))]
  /\ queue run = q.
Proof.
  unfold enqueueCall, res_json, fetch, bind, throw, fault, ret, post.
  fold (batchRequest rt).
  destruct (net past (batchRequest rt)) as [m|res]; cbn; [auto|].
  destruct (ok res); cbn; [|auto].
  destruct (json res); cbn; auto.
Qed.

End PollerFacts.

Section PollerLoop.
Variable net : list Event -> Request -> FetchResult.
Variable em : EngineFault -> string.
Variable rt : Runtime.t.

Lemma sleeps_app (a b : list Event) :
  Pacing.sleeps (a ++ b)%list = (Pacing.sleeps b ++ Pacing.sleeps a)%list.
Proof.
  induction a as [|e a IH]; cbn [app Pacing.sleeps].
  - rewrite app_nil_r. reflexivity.
  - destruct e; rewrite ?IH, ?app_assoc; reflexivity.
Qed.

Lemma put_all_sleeps (states : list JsValue) :
  forall (past : list Event) (q : Queue),
    Pacing.sleeps (emitted (put_all states past q)) = [].
Proof.
  induction states as [|state states IH]; intros past q; cbn [put_all];
    [reflexivity|].
  unfold bind, queue_put.
  destruct (AsyncQueue.put q state) as [[[r item]|] q1];
    match goal with
    | |- context [put_all states ?p ?q0] =>
        specialize (IH p q0); destruct (put_all states p q0) as [r' d' q']
    end;
    cbn [emitted] in *; rewrite sleeps_app, IH; reflexivity.
Qed.

(** The [try] block of the poller never sleeps. *)
Lemma enqueue_try_sleeps (past : list Event) (q : Queue) :
  Pacing.sleeps (emitted (enqueue_try net em rt past q)) = [].
Proof.
  unfold enqueue_try, queue_size, bind.
  destruct (Z.of_nat (AsyncQueue.size q) <? batchSize rt)%Z; [|reflexivity].
  cbn [app].
  destruct (enqueueCall_run net em rt past q) as [Hem Hq].
  destruct (enqueueCall net em rt past q) as [rc dc qc].
  cbn [queue emitted result] in Hem, Hq. subst dc qc.
  destruct rc as [e|data]; [reflexivity|].
  unfold prop, iterate, fault, throw, ret, log, emit.
  destruct data as [| | b | n | s | elems | fields];
    cbn [nullish field]; try reflexivity.
  destruct (field fields "states") as [| | b | n | s | elems | fs];
    cbn [nullish]; try reflexivity;
    match goal with
    | |- context [put_all ?l ?p ?q0] =>
        pose proof (put_all_sleeps l p q0) as Hs;
        destruct (put_all_run l p q0) as (Hr & _);
        destruct (put_all l p q0) as [rp dp qp]
    end;
    cbn [queue emitted result] in *; subst rp;
    cbn [queue emitted result app Pacing.sleeps];
    rewrite ?app_nil_r, ?sleeps_app, ?Hs; reflexivity.
Qed.

(** A turn of the poller ends with its one sleep. *)
Lemma enqueue_turn_sleeps (past : list Event) (q : Queue) :
  exists ms before,
    emitted (enqueue_turn net em rt past q) = EvSleep ms :: before
    /\ Pacing.sleeps before = []
    /\ (ms = pollInterval rt \/ ms = (pollInterval rt * 2)%Z).
Proof.
  unfold enqueue_turn, attempt, bind, log, sleep, emit.
  pose proof (enqueue_try_sleeps past q) as Hs.
  destruct (enqueue_try net em rt past q) as [[e|[]] d q1];
    cbn [queue emitted result app] in *.
  - exists (pollInterval rt * 2)%Z, (EvLog ERROR (ErrorEnqueuingStates e) :: d).
    split; [reflexivity|]. split; [exact Hs | right; reflexivity].
  - exists (pollInterval rt), d.
    split; [reflexivity|]. split; [exact Hs | left; reflexivity].
Qed.

(** The loop of one more turn: the turn, then the loop from where the
    turn left the events and the queue. *)
Lemma enqueue_unrolls (fuel : nat) (past : list Event) (q : Queue) :
  let turn := enqueue_turn net em rt past q in
  let later := enqueue net em rt fuel (emitted turn ++ past)%list (queue turn) in
  emitted (enqueue net em rt (S fuel) past q) = (emitted later ++ emitted turn)%list
  /\ queue (enqueue net em rt (S fuel) past q) = queue later.
Proof.
  cbn [enqueue]. unfold bind.
  pose proof (enqueue_turn_resolves net em rt past q) as Hturn.
  destruct (enqueue_turn net em rt past q) as [r d q1].
  cbn [queue emitted result] in *. subst r.
  destruct (enqueue net em rt fuel (d ++ past)%list q1) as [r2 d2 q2].
  split; reflexivity.
Qed.

Lemma enqueue_sleeps_every_turn (fuel : nat) :
  forall (past : list Event) (q : Queue),
    length (Pacing.sleeps (emitted (enqueue net em rt fuel past q))) = fuel.
Proof.
  induction fuel as [|fuel IH]; intros past q; [reflexivity|].
  destruct (enqueue_unrolls fuel past q) as [-> _].
  destruct (enqueue_turn_sleeps past q) as (ms & before & Hd & Hs & _).
  rewrite sleeps_app, length_app, IH, Hd. cbn [Pacing.sleeps].
  rewrite Hs. cbn. lia.
Qed.

End PollerLoop.

(** One turn of the poller's loop, and the result of the loop. *)
Lemma enqueue_turn_facts :
  forall (net : list Event -> Request -> FetchResult)
         (em : EngineFault -> string) (rt : Runtime.t)
         (past : list Event) (q : Queue),
    let run := enqueue_turn net em rt past q in
    let req := batchRequest rt in
    (* neither a turn nor the loop ever rejects *)
    result run = inr tt
    /\ (forall fuel, result (enqueue net em rt fuel past q) = inr tt)
    (* a buffer of batch size or more: no request *)
    /\ ((batchSize rt <= Z.of_nat (AsyncQueue.size q))%Z ->
        emitted run = [EvSleep (pollInterval rt)] /\ queue run = q)
    (* a shorter buffer: one request, for batch-size items *)
    /\ ((Z.of_nat (AsyncQueue.size q) < batchSize rt)%Z ->
        requests (emitted run) = [req]
        /\ body req
           = Some (JObj [("nodes", JArr (map JStr (nodeNames rt)));
                         ("batch_size", JNum (batchSize rt))])
        (* every item of the reply is put, in order *)
        /\ (forall res data states,
              net past req = FetchResolves res -> ok res = true ->
              json res = Some (JObj data) -> field data "states" = JArr states ->
              queue run = put_list q states
              /\ hd_error (emitted run) = Some (EvSleep (pollInterval rt)))
        (* a failed fetch: logged, then a sleep of twice the interval *)
        /\ (forall e,
              result (enqueueCall net em rt past q) = inl e ->
              emitted run
              = [EvSleep (pollInterval rt * 2);
                 EvLog ERROR (ErrorEnqueuingStates e);
                 EvFetch req (net past req)]
              /\ queue run = q)).
Proof.
  intros net em rt past q run req.
  split; [apply enqueue_turn_resolves|].
  split; [intros fuel; apply enqueue_never_rejects|].
  subst run. unfold enqueue_turn, attempt, enqueue_try, queue_size, bind.
  split.
  - intros Hfull. apply Z.ltb_ge in Hfull. rewrite Hfull.
    unfold ret, sleep, emit. cbn. split; reflexivity.
  - intros Hshort. apply Z.ltb_lt in Hshort. rewrite Hshort. cbn [app].
    destruct (enqueueCall_run net em rt past q) as [Hem Hq]. fold req in Hem.
    destruct (enqueueCall net em rt past q) as [rc dc qc] eqn:Ecall.
    cbn [queue emitted result] in Hem, Hq. subst dc qc.
    split; [|split; [reflexivity|split]].
    + destruct rc as [e|data].
      { unfold log, sleep, emit. cbn. reflexivity. }
      unfold prop, iterate, fault, throw, ret, log, sleep, emit.
      destruct data as [| | b | n | s | elems | fields];
        cbn [nullish field]; try reflexivity.
      destruct (field fields "states") as [| | b | n | s | elems | fs];
        cbn [nullish]; try reflexivity;
        match goal with
        | |- context [put_all ?l ?p ?q0] =>
            destruct (put_all_run l p q0) as (Hr & _ & Hreq);
            destruct (put_all l p q0) as [rp dp qp]
        end;
        cbn [queue emitted result] in *; subst rp;
        cbn [queue emitted result app requests];
        rewrite ?app_nil_r, ?requests_app, ?Hreq; reflexivity.
    + intros res data states Hnet Hok Hjson Hstates.
      assert (rc = inr (JObj data)) as ->.
      { revert Ecall.
        unfold enqueueCall, res_json, fetch, bind, throw, fault, ret, post.
        fold (batchRequest rt). fold req. rewrite Hnet.
        rewrite Hok, Hjson. cbn. intros E. inversion E. reflexivity. }
      unfold prop, iterate, ret, log, emit, sleep.
      rewrite Hstates. cbn [nullish].
      match goal with
      | |- context [put_all ?l ?p ?q0] =>
          destruct (put_all_run l p q0) as (Hr & Hqp & _);
          destruct (put_all l p q0) as [rp dp qp]
      end.
      cbn [queue emitted result] in *. subst rp.
      cbn [queue emitted result app hd_error]. split; [assumption|reflexivity].
    + intros e He. cbn [result] in He. subst rc.
      unfold log, sleep, emit. cbn. split; reflexivity.
Qed.

(** C8.  In every turn of the poller's loop: no batch is requested when
    the queue buffers batch size items or more; otherwise exactly one
    request is made, asking for batch size items, and when it succeeds
    every returned item is put into the queue, in order, before the poller
    sleeps the poll interval.  When the fetch fails (the call rejects, the
    status is not ok, or the body is not JSON) the error is logged and the
    poller sleeps twice the poll interval.  The turn always resolves, and
    the loop goes on after it whatever it met: a loop of one more turn is
    this turn followed by the loop from the events and the queue the turn
    left, every turn ends with its one sleep, so that a loop of n turns has
    slept n times and never rejects, and the turn that follows a failed
    fetch asks for a batch again. *)
Theorem C8_poller_turn :
  forall (net : list Event -> Request -> FetchResult)
         (em : EngineFault -> string) (rt : Runtime.t)
         (past : list Event) (q : Queue),
    let run := enqueue_turn net em rt past q in
    let req := batchRequest rt in
    (* neither a turn nor the loop ever rejects *)
    result run = inr tt
    /\ (forall fuel, result (enqueue net em rt fuel past q) = inr tt)
    (* a buffer of batch size or more: no request *)
    /\ ((batchSize rt <= Z.of_nat (AsyncQueue.size q))%Z ->
        emitted run = [EvSleep (pollInterval rt)] /\ queue run = q)
    (* a shorter buffer: one request, for batch-size items *)
    /\ ((Z.of_nat (AsyncQueue.size q) < batchSize rt)%Z ->
        requests (emitted run) = [req]
        /\ body req
           = Some (JObj [("nodes", JArr (map JStr (nodeNames rt)));
                         ("batch_size", JNum (batchSize rt))])
        (* every item of the reply is put, in order *)
        /\ (forall res data states,
              net past req = FetchResolves res -> ok res = true ->
              json res = Some (JObj data) -> field data "states" = JArr states ->
              queue run = put_list q states
              /\ hd_error (emitted run) = Some (EvSleep (pollInterval rt)))
        (* a failed fetch: logged, then a sleep of twice the interval *)
        /\ (forall e,
              result (enqueueCall net em rt past q) = inl e ->
              emitted run
              = [EvSleep (pollInterval rt * 2);
                 EvLog ERROR (ErrorEnqueuingStates e);
                 EvFetch req (net past req)]
              /\ queue run = q
              (* and the turn that follows asks again *)
              /\ requests (emitted (enqueue_turn net em rt
                                      (emitted run ++ past)%list (queue run)))
                 = [req]))
    (* the turn ends with its one sleep *)
    /\ (exists ms before,
          emitted run = EvSleep ms :: before
          /\ Pacing.sleeps before = []
          /\ (ms = pollInterval rt \/ ms = (pollInterval rt * 2)%Z))
    (* the loop goes on after the turn, from where the turn ended *)
    /\ (forall fuel,
          let later :=
            enqueue net em rt fuel (emitted run ++ past)%list (queue run) in
          emitted (enqueue net em rt (S fuel) past q)
          = (emitted later ++ emitted run)%list
          /\ queue (enqueue net em rt (S fuel) past q) = queue later)
    (* so that a loop of n turns has slept n times *)
    /\ (forall fuel,
          length (Pacing.sleeps (emitted (enqueue net em rt fuel past q))) = fuel).
Proof.
  intros net em rt past q run req.
  destruct (enqueue_turn_facts net em rt past q)
    as (Hres & Hloop & Hfull & Hshort).
  fold run in Hres, Hfull, Hshort. fold req in Hshort.
  split; [exact Hres|]. split; [exact Hloop|]. split; [exact Hfull|].
  split; [|split; [|split]].
  - intros Hlt. destruct (Hshort Hlt) as (Hreq & Hbody & Hput & Hfail).
    split; [exact Hreq|]. split; [exact Hbody|]. split; [exact Hput|].
    intros e He. destruct (Hfail e He) as [Hem Hq].
    split; [exact Hem|]. split; [exact Hq|].
    destruct (enqueue_turn_facts net em rt (emitted run ++ past)%list (queue run))
      as (_ & _ & _ & Hagain).
    destruct Hagain as (Hreq' & _); [rewrite Hq; exact Hlt | exact Hreq'].
  - apply enqueue_turn_sleeps.
  - intros fuel. apply enqueue_unrolls.
  - intros fuel. apply enqueue_sleeps_every_turn.
Qed.

Lemma C8_poller_witness :
  let rt := Samples.runtime_of [Samples.Echo] in
  let q := initial_queue rt in
  AsyncQueue.items
    (queue (enqueue_turn Scenarios.net_two_items Samples.engine_text rt [] q))
  = [StateItem "s1" "Echo" (JObj [("name", JStr "a")]);
     StateItem "s2" "Echo" (JObj [("name", JStr "b")])]
  /\ emitted (enqueue_turn Samples.net_down Samples.engine_text rt [] q)
     = [EvSleep 2000;
        EvLog ERROR (ErrorEnqueuingStates (ThrowError "fetch failed"));
        EvFetch (batchRequest rt) (FetchRejects "fetch failed")]
  /\ requests
       (emitted
          (enqueue_turn Samples.net_down Samples.engine_text rt
             [EvSleep 2000;
              EvLog ERROR (ErrorEnqueuingStates (ThrowError "fetch failed"));
              EvFetch (batchRequest rt) (FetchRejects "fetch failed")] q))
     = [batchRequest rt].
Proof.
  intros rt q. split.
  - destruct (C8_poller_turn Scenarios.net_two_items Samples.engine_text rt [] q)
      as (_ & _ & _ & Hshort & _).
    destruct Hshort as (_ & _ & Hput & _); [vm_compute; reflexivity|].
    destruct (Hput (mkResponse true ""
                      (Some (JObj [("states",
                         JArr [StateItem "s1" "Echo" (JObj [("name", JStr "a")]);
                               StateItem "s2" "Echo" (JObj [("name", JStr "b")])])])))
                   [("states",
                     JArr [StateItem "s1" "Echo" (JObj [("name", JStr "a")]);
                           StateItem "s2" "Echo" (JObj [("name", JStr "b")])])]
                   [StateItem "s1" "Echo" (JObj [("name", JStr "a")]);
                    StateItem "s2" "Echo" (JObj [("name", JStr "b")])]
                   eq_refl eq_refl eq_refl eq_refl)
      as [Hq _].
    rewrite Hq. reflexivity.
  - destruct (C8_poller_turn Samples.net_down Samples.engine_text rt [] q)
      as (_ & _ & _ & Hshort & _).
    destruct Hshort as (_ & _ & _ & Hfail); [vm_compute; reflexivity|].
    destruct (Hfail (ThrowError "fetch failed") eq_refl) as (Hem & _ & Hagain).
    split; [exact Hem | exact Hagain].
Defined.

(* ===================================================================== *)
(** * Further properties: the runtime and its companions *)
(* ===================================================================== *)

Import Ascii Notions Trimmed.
Local Open Scope list_scope.

(** ** The worker: signals and lost reports *)

Lemma secrets_only_requeue rt sid d :
  SecretsCalls rt sid (requests d) ->
  calls_to (getRequeueAfterEndpoint rt sid) d = [].
Proof. intros H. apply (secrets_only_calls rt sid d "/re-enqueue-after" H eq_refl). Qed.

(** For every work item during whose turn the handler raised
    ReQueueAfter, the worker made exactly one call to the re-enqueue
    endpoint of that item, carrying the signal's delay, and no call to its
    errored, executed or prune endpoint.  Once that call is answered the
    turn resolves when the response is ok; when it is not, the worker's
    promise rejects with the signal's transport error. *)
Theorem requeue_is_sent_once :
  forall (net : list Event -> Request -> FetchResult)
         (em : EngineFault -> string) (rt : Runtime.t)
         (sid nn : string) (inputs : JsValue) (past : list Event) (q : Queue)
         (h : NodeCtor) (s : ReQueueAfterSignal),
    let run := worker_body net em rt (StateItem sid nn inputs) past q in
    In (EvExecute h (Rejects (ThrowReQueueAfter s))) (emitted run) ->
    calls_to (getRequeueAfterEndpoint rt sid) (emitted run)
    = [requeueRequest rt sid s]
    /\ calls_to (getErroredEndpoint rt sid) (emitted run) = []
    /\ calls_to (getExecutedEndpoint rt sid) (emitted run) = []
    /\ calls_to (getPruneEndpoint rt sid) (emitted run) = []
    /\ (forall res,
          last_call (emitted run)
          = Some (requeueRequest rt sid s, FetchResolves res) ->
          result run
          = if ok res then inr tt
            else inl (ThrowError ("Failed to send requeue after signal to "
                                  ++ getRequeueAfterEndpoint rt sid))).
Proof.
  intros net em rt sid nn inputs past q h s run Hin.
  destruct (worker_body_turn net em rt sid nn inputs past q) as [_ Hturn].
  fold run in Hturn.
  destruct (turn_executed _ _ _ _ _ _ _ _ Hturn Hin)
    as [(tried & -> & _ & Htry & Hg)
       | (tried & caught & t & Hd & Htry & Hcatch & Hg)];
    destruct (try_rejected _ _ _ _ _ _ _ Htry Hg) as [E Hs];
    [discriminate|].
  inversion E; subst t. rewrite Hd.
  inversion Hcatch as [ | | | | s' d fres r (Hgc & Hrc & Hlc & Hres) | ]; subst.
  pose proof (secrets_only_requeue rt sid tried Hs) as Hq.
  split; [|split; [|split; [|split]]].
  - unfold turn_opening. rewrite !calls_to_app, Hq.
    unfold calls_to. rewrite Hrc. cbn [requests filter app url requeueRequest].
    rewrite String.eqb_refl. reflexivity.
  - count_calls; reflexivity.
  - count_calls; reflexivity.
  - count_calls; reflexivity.
  - intros res Hlast. rewrite last_call_app, Hlc in Hlast.
    inversion Hlast; subst. exact Hres.
Qed.

(** A handler that throws [new ReQueueAfterSignal(1500)], acknowledged. *)
Lemma requeue_is_sent_once_witness :
  let rt := Samples.runtime_of [Cases.Requeuer] in
  let run := Scenarios.turn Samples.net_ok [Cases.Requeuer] "Requeuer" in
  calls_to (getRequeueAfterEndpoint rt "s1") (emitted run)
  = [requeueRequest rt "s1" Cases.later]
  /\ calls_to (getErroredEndpoint rt "s1") (emitted run) = []
  /\ result run = inr tt.
Proof.
  intros rt run.
  pose proof (requeue_is_sent_once Samples.net_ok Samples.engine_text rt
                "s1" "Requeuer" (JObj [("name", JStr "x")]) []
                (initial_queue rt) Cases.Requeuer Cases.later) as H.
  cbv zeta in H.
  destruct H as (Hsent & Herr & _ & _ & Hres).
  - vm_compute. tauto.
  - split; [exact Hsent|]. split; [exact Herr|].
    apply (Hres (mkResponse true "" (Some (JObj [])))).
    vm_compute. reflexivity.
Defined.

Lemma in_requests (d : list Event) (req : Request) (fres : FetchResult) :
  In (EvFetch req fres) d -> In req (requests d).
Proof.
  induction d as [|e d IH]; simpl; [tauto|].
  intros [-> | Hin].
  - apply in_or_app. right. left. reflexivity.
  - destruct e; auto. apply in_or_app. left. auto.
Qed.

(** When the newest request of a run was made only once, every fetch
    event for it carries the result of the last call. *)
Lemma newest_request_result (d : list Event) (before : list Request)
      (req : Request) (fres f' : FetchResult) :
  requests d = before ++ [req] -> last_call d = Some (req, fres) ->
  ~ In req before -> In (EvFetch req f') d -> f' = fres.
Proof.
  induction d as [|e d IH]; simpl; intros Hr Hl Hnot Hin; [contradiction|].
  destruct Hin as [-> | Hin].
  - inversion Hl. reflexivity.
  - destruct e; try (apply IH; assumption).
    inversion Hl; subst. apply app_inj_tail in Hr. destruct Hr as [Hr _].
    exfalso. apply Hnot. rewrite <- Hr. eapply in_requests; eassumption.
Qed.

Lemma secrets_calls_other rt sid before req :
  SecretsCalls rt sid before -> In req before -> req = secretsRequest rt sid.
Proof.
  intros Hs Hin. inversion Hs as [E | E]; rewrite <- E in Hin; cbn in Hin;
    [contradiction | destruct Hin as [<- | []]; reflexivity].
Qed.

Lemma executed_not_secrets rt sid outputs :
  executedRequest rt sid outputs <> secretsRequest rt sid.
Proof. discriminate. Qed.

(** The executed report of a [try] block was rejected by the network:
    the block threw that rejection. *)
Lemma try_report_lost em rt h sid r tried outputs message :
  TryOutcome em rt h sid r tried ->
  In (EvFetch (executedRequest rt sid outputs) (FetchRejects message)) tried ->
  r = inl (ThrowError message)
  /\ exists before,
       SecretsCalls rt sid before
       /\ requests tried = before ++ [executedRequest rt sid outputs].
Proof.
  intros Htry Hin. pose proof (in_requests _ _ _ Hin) as Hreq.
  inversion Htry as
      [ d m Hg Hs | d t Hg Hs | d value issues Hg Ho Hs
      | d value outs before m Hg Ho Hs Hr Hl
      | d value outs before res Hg Ho Hs Hr Hl Hlog ]; subst.
  - exfalso. eapply executed_not_secrets, secrets_calls_other; eassumption.
  - exfalso. eapply executed_not_secrets, secrets_calls_other; eassumption.
  - exfalso. eapply executed_not_secrets, secrets_calls_other; eassumption.
  - rewrite Hr in Hreq. apply in_app_or in Hreq.
    destruct Hreq as [Hb | [E | []]].
    + exfalso. eapply executed_not_secrets, secrets_calls_other; eassumption.
    + inversion E; subst outs.
      assert (FetchRejects message = FetchRejects m) as Hm.
      { eapply newest_request_result; try eassumption.
        intros Hb. eapply executed_not_secrets, secrets_calls_other; eassumption. }
      inversion Hm; subst. split; [reflexivity|]. eauto.
  - rewrite Hr in Hreq. apply in_app_or in Hreq.
    destruct Hreq as [Hb | [E | []]].
    + exfalso. eapply executed_not_secrets, secrets_calls_other; eassumption.
    + inversion E; subst outs.
      assert (FetchRejects message = FetchResolves res) as Hm.
      { eapply newest_request_result; try eassumption.
        intros Hb. eapply executed_not_secrets, secrets_calls_other; eassumption. }
      discriminate.
Qed.

Lemma catch_requests_not_executed em rt sid t r d outputs fres :
  CatchOutcome em rt sid t r d ->
  ~ In (EvFetch (executedRequest rt sid outputs) fres) d.
Proof.
  intros Hc Hin. apply in_requests in Hin.
  inversion Hc; subst;
    repeat match goal with
           | H : error_reported _ _ _ _ _ _ |- _ => destruct H as (_ & H & _)
           | H : signal_sent _ _ _ _ _ |- _ => destruct H as (_ & H & _)
           end;
    try match goal with
        | H : requests _ = _ |- _ => rewrite H in Hin
        end; cbn in Hin; try contradiction;
    destruct Hin as [E | []]; discriminate.
Qed.

(** When the executed report of an item gets no answer (its fetch
    rejects), the worker's own [catch] takes the error: the item, whose
    handler had succeeded, is then reported as errored, once, with the
    message of the network error, and the executed report is not
    repeated. *)
Theorem lost_executed_report_is_reported_errored :
  forall (net : list Event -> Request -> FetchResult)
         (em : EngineFault -> string) (rt : Runtime.t)
         (sid nn : string) (inputs : JsValue) (past : list Event) (q : Queue)
         (outputs : list JsValue) (message : string),
    let run := worker_body net em rt (StateItem sid nn inputs) past q in
    In (EvFetch (executedRequest rt sid outputs) (FetchRejects message))
       (emitted run) ->
    calls_to (getExecutedEndpoint rt sid) (emitted run)
    = [executedRequest rt sid outputs]
    /\ calls_to (getErroredEndpoint rt sid) (emitted run)
       = [erroredRequest rt sid (JStr message)].
Proof.
  intros net em rt sid nn inputs past q outputs message run Hin.
  destruct (worker_body_turn net em rt sid nn inputs past q) as [_ Hturn].
  fold run in Hturn. clearbody run. destruct run as [r d q']. cbn [emitted] in *.
  cbn [result] in Hturn.
  inversion Hturn as
      [ d' fres r' Hget Hrep Hlog
      | m Hget Hm
      | d' r' Hget Hcatch
      | h t Hget Hc
      | h tried Hget Hc Htry
      | h t tried caught r' Hget Hc Htry Hcatch ]; subst.
  - exfalso. apply in_requests in Hin. destruct Hrep as (_ & Hr & _).
    rewrite Hr in Hin. destruct Hin as [E | []]. discriminate.
  - contradiction.
  - exfalso. apply in_app_or in Hin. destruct Hin as [Hin | [E | []]]; [|discriminate].
    eapply catch_requests_not_executed; eassumption.
  - destruct Hin as [E | []]. discriminate.
  - exfalso. apply in_app_or in Hin.
    destruct Hin as [Hin | [E | [E | []]]]; try discriminate.
    destruct (try_report_lost _ _ _ _ _ _ _ _ Htry Hin) as [E _]. discriminate.
  - apply in_app_or in Hin. destruct Hin as [Hin | Hin];
      [exfalso; eapply catch_requests_not_executed; eassumption|].
    apply in_app_or in Hin.
    destruct Hin as [Hin | [E | [E | []]]]; try discriminate.
    destruct (try_report_lost _ _ _ _ _ _ _ _ Htry Hin)
      as [E (before & Hs & Hr)].
    inversion E; subst t.
    inversion Hcatch as [m dc fres r0 (Hgc & Hrc & _) | | | | | ]; subst.
    unfold turn_opening. rewrite !calls_to_app. unfold calls_to.
    rewrite Hr, Hrc.
    cbn [requests filter app url erroredRequest executedRequest].
    rewrite !filter_app.
    assert (Hb : forall suffix, String.eqb "/secrets" suffix = false ->
                 filter (fun req => String.eqb (url req)
                            (base rt ++ "/state/" ++ sid ++ suffix)) before = []).
    { intros suffix Hne. inversion Hs as [E0 | E0]; [reflexivity|].
      cbn [filter url secretsRequest]. unfold getSecretsEndpoint.
      rewrite eqb_endpoints, Hne. reflexivity. }
    unfold getExecutedEndpoint, getErroredEndpoint.
    rewrite (Hb "/executed" eq_refl), (Hb "/errored" eq_refl).
    cbn [filter url app erroredRequest executedRequest].
    unfold getExecutedEndpoint, getErroredEndpoint.
    rewrite !eqb_endpoints.
    cbn [String.eqb Ascii.eqb Bool.eqb filter app].
    split; reflexivity.
Qed.

(** Echo, with the network down. *)
Lemma lost_executed_report_witness :
  let rt := Samples.runtime_of [Samples.Echo] in
  let run := Scenarios.turn Samples.net_down [Samples.Echo] "Echo" in
  calls_to (getExecutedEndpoint rt "s1") (emitted run)
  = [executedRequest rt "s1" [JObj [("message", JStr "x")]]]
  /\ calls_to (getErroredEndpoint rt "s1") (emitted run)
     = [erroredRequest rt "s1" (JStr "fetch failed")].
Proof.
  intros rt run.
  apply (lost_executed_report_is_reported_errored Samples.net_down
           Samples.engine_text rt "s1" "Echo" (JObj [("name", JStr "x")]) []
           (initial_queue rt) [JObj [("message", JStr "x")]] "fetch failed").
  vm_compute. tauto.
Defined.

(** ** The worker: items that never reach execute *)

Section Refusals.
Variable net : list Event -> Request -> FetchResult.
Variable em : EngineFault -> string.
Variable rt : Runtime.t.

(** The turn on a registered class whose constructor returns: the
    opening, the [try] block and, if it threw, the [catch] block. *)
Lemma worker_body_registered (sid nn : string) (inputs : JsValue)
      (past : list Event) (q : Queue) (h : NodeCtor) :
  Js.get (nodeMapping rt) nn = Own h -> construct h = None ->
  worker_body net em rt (StateItem sid nn inputs) past q
  = match run_node net em rt h (StateItem sid nn inputs) sid
                   (turn_opening h sid ++ past) q with
    | mkRun (inr _) d1 q1 => mkRun (inr tt) (d1 ++ turn_opening h sid) q1
    | mkRun (inl t) d1 q1 =>
        match handle_thrown net em rt sid (name h) t
                            (d1 ++ turn_opening h sid ++ past) q1 with
        | mkRun r d2 q2 => mkRun r (d2 ++ d1 ++ turn_opening h sid) q2
        end
    end.
Proof.
  intros Hget Hc.
  unfold worker_body, with_state_id, StateItem, prop, bind, ret.
  cbn [field own_get String.eqb Ascii.eqb Bool.eqb to_string converts negb
       queue emitted result app].
  rewrite Hget. unfold emit, throw, log. cbn [queue emitted result app].
  rewrite Hc. unfold try_catch, attempt, bind, emit, ret.
  cbn [queue emitted result app]. unfold turn_opening.
  cbn [app].
  destruct (run_node net em rt h _ sid _ q) as [[t|[]] d1 q1];
    cbn [queue emitted result app].
  - destruct (handle_thrown net em rt sid (name h) t _ q1) as [r d2 q2].
    rewrite !app_nil_r, <- !app_assoc. reflexivity.
  - rewrite !app_nil_r, <- !app_assoc. reflexivity.
Qed.

Lemma _execute_stops_early (h : NodeCtor) (inputsRaw secretsRaw : JsValue)
      (past : list Event) (q : Queue) (issues : list ZodIssue) :
  Zod.parse (Inputs h) inputsRaw = inl issues
  \/ (exists inputs, Zod.parse (Inputs h) inputsRaw = inr inputs
                     /\ Zod.parse (Secrets h) secretsRaw = inl issues) ->
  _execute em h inputsRaw secretsRaw past q
  = mkRun (inl (ThrowError (em (ZodFailure issues)))) [] q.
Proof.
  unfold _execute, or_throw, fault, throw, bind, ret.
  intros [-> | (inputs & -> & ->)]; reflexivity.
Qed.

Lemma after_secrets_stops_early (h : NodeCtor) (sid nn : string)
      (inputs secrets : JsValue) (past : list Event) (q : Queue) (t : Thrown) :
  _execute em h inputs secrets past q = mkRun (inl t) [] q ->
  after_secrets net em rt h (StateItem sid nn inputs) sid secrets past q
  = mkRun (inl t) [] q.
Proof.
  intros He. unfold after_secrets, prop, bind, ret, StateItem.
  cbn [field own_get String.eqb Ascii.eqb Bool.eqb queue emitted result app].
  rewrite He. reflexivity.
Qed.

Lemma run_node_steps (h : NodeCtor) (sid nn : string) (inputs : JsValue) :
  run_node net em rt h (StateItem sid nn inputs) sid
  = bind (needSecrets em h) (fun need =>
    bind (if need
          then bind (getSecrets net em rt sid) (fun s =>
               bind (log INFO (GotSecrets sid (name h))) (fun _ => ret s))
          else ret (JObj []))
         (after_secrets net em rt h (StateItem sid nn inputs) sid)).
Proof. reflexivity. Qed.

Lemma caught_error_reported (sid : string) (m : string) (r : Thrown + unit)
      (d : list Event) :
  CatchOutcome em rt sid (ThrowError m) r d ->
  ghosts d = [] /\ requests d = [erroredRequest rt sid (JStr m)].
Proof.
  intros H. inversion H as [m' d' fres r' (Hg & Hr & _) | | | | | ]; subst. auto.
Qed.

(** The calls of a turn whose [try] block made at most the secrets call
    and whose [catch] block reported the error [m]. *)
Lemma blocked_turn_calls (sid : string) (h : NodeCtor) (m : string)
      (tried caught : list Event) :
  SecretsCalls rt sid (requests tried) -> ghosts tried = [] ->
  ghosts caught = [] -> requests caught = [erroredRequest rt sid (JStr m)] ->
  let d := caught ++ tried ++ turn_opening h sid in
  ghosts d = [EvNew h]
  /\ calls_to (getExecutedEndpoint rt sid) d = []
  /\ calls_to (getErroredEndpoint rt sid) d = [erroredRequest rt sid (JStr m)].
Proof.
  intros Hs Hgt Hgc Hrc d. subst d. split; [|split].
  - rewrite !ghosts_app, Hgt, Hgc. reflexivity.
  - count_calls. reflexivity.
  - count_calls. reflexivity.
Qed.

Lemma getSecrets_no_info_log (sid : string) (past : list Event) (q : Queue)
      (line : LogLine) :
  ~ In (EvLog INFO line) (emitted (getSecrets net em rt sid past q)).
Proof.
  unfold getSecrets, res_json, has_in, prop, fetch, log, emit, fault, throw,
    bind, ret. cbn.
  split_goal; cbn; intros H;
    repeat match goal with
           | H : _ \/ _ |- _ => destruct H as [H | H]
           | H : False |- _ => contradiction
           | H : _ = _ |- _ => discriminate H
           end.
Qed.

Lemma handle_error_no_secrets_log (sid nodeName m : string)
      (past : list Event) (q : Queue) (a b : string) :
  ~ In (EvLog INFO (GotSecrets a b))
       (emitted (handle_thrown net em rt sid nodeName (ThrowError m) past q)).
Proof.
  unfold handle_thrown, notifyErrored, fetch, log, emit, bind, ret, post. cbn.
  split_goal; cbn; intros H;
    repeat match goal with
           | H : _ \/ _ |- _ => destruct H as [H | H]
           | H : False |- _ => contradiction
           | H : _ = _ |- _ => discriminate H
           end.
Qed.

End Refusals.

(** An item whose inputs the handler's input schema rejects never
    reaches [execute()]: the handler is constructed and that is all, no
    executed report is made, and the item is reported as errored exactly
    once.  The report carries the text of the ZodError whenever the handler
    needs no secrets or its secrets were fetched. *)
Theorem rejected_inputs_never_reach_execute :
  forall (net : list Event -> Request -> FetchResult)
         (em : EngineFault -> string) (rt : Runtime.t)
         (sid nn : string) (inputs : JsValue) (past : list Event) (q : Queue)
         (h : NodeCtor) (issues : list ZodIssue),
    Js.get (nodeMapping rt) nn = Own h -> construct h = None ->
    Zod.parse (Inputs h) inputs = inl issues ->
    let run := worker_body net em rt (StateItem sid nn inputs) past q in
    ghosts (emitted run) = [EvNew h]
    /\ calls_to (getExecutedEndpoint rt sid) (emitted run) = []
    /\ exists message,
         calls_to (getErroredEndpoint rt sid) (emitted run)
         = [erroredRequest rt sid (JStr message)]
         /\ (Secrets h = ZodObject []
             \/ In (EvLog INFO (GotSecrets sid (name h))) (emitted run) ->
             message = em (ZodFailure issues)).
Proof.
  intros net em rt sid nn inputs past q h issues Hget Hc Hparse run. subst run.
  rewrite (worker_body_registered net em rt sid nn inputs past q h Hget Hc).
  assert (Hblocked : forall secrets p,
             after_secrets net em rt h (StateItem sid nn inputs) sid secrets p q
             = mkRun (inl (ThrowError (em (ZodFailure issues)))) [] q).
  { intros secrets p. apply after_secrets_stops_early.
    apply _execute_stops_early. left. assumption. }
  rewrite run_node_steps.
  unfold needSecrets, bind, ret, fault, throw, log, emit.
  destruct (shape_of (Secrets h)) as [shape|] eqn:Eshape;
    cbn [queue emitted result app].
  - destruct (0 <? length shape)%nat eqn:Eneed; cbn [queue emitted result app].
    + pose proof (getSecrets_outcome net em rt sid (turn_opening h sid ++ past) q)
        as Hsec.
      pose proof (getSecrets_no_info_log net em rt sid
                    (turn_opening h sid ++ past) q) as Hquiet.
      cbv zeta in Hsec.
      destruct (getSecrets net em rt sid (turn_opening h sid ++ past) q)
        as [rs ds qs].
      cbn [queue emitted result] in Hsec, Hquiet.
      destruct Hsec as (-> & Hgs & Hrs & Hres).
      destruct Hres as [[v ->] | [m ->]]; cbn [queue emitted result app].
      * rewrite Hblocked. cbn [queue emitted result app].
        match goal with
        | |- context [handle_thrown net em rt sid ?n ?t ?p ?q0] =>
            pose proof (handle_thrown_outcome net em rt sid n t p q0) as Hcatch;
            cbv zeta in Hcatch;
            destruct (handle_thrown net em rt sid n t p q0) as [rc dc qc]
        end.
        cbn [queue emitted result] in *. destruct Hcatch as [_ Hcatch].
        apply caught_error_reported in Hcatch. destruct Hcatch as [Hgc Hrc].
        rewrite app_nil_r.
        destruct (blocked_turn_calls rt sid h (em (ZodFailure issues))
                    (EvLog INFO (GotSecrets sid (name h)) :: ds) dc)
          as (G & X & E); try assumption.
        { cbn [requests]. rewrite Hrs. constructor. }
        split; [exact G|]. split; [exact X|].
        eexists. split; [exact E|]. reflexivity.
      * match goal with
        | |- context [handle_thrown net em rt sid ?n ?t ?p ?q0] =>
            pose proof (handle_thrown_outcome net em rt sid n t p q0) as Hcatch;
            pose proof (handle_error_no_secrets_log net em rt sid n m p q0
                          sid (name h)) as Hnolog;
            cbv zeta in Hcatch;
            destruct (handle_thrown net em rt sid n t p q0) as [rc dc qc]
        end.
        cbn [queue emitted result] in *. destruct Hcatch as [_ Hcatch].
        apply caught_error_reported in Hcatch. destruct Hcatch as [Hgc Hrc].
        rewrite ?app_nil_r.
        destruct (blocked_turn_calls rt sid h m ds dc) as (G & X & E);
          try assumption.
        { rewrite Hrs. constructor. }
        split; [exact G|]. split; [exact X|].
        eexists. split; [exact E|].
        intros [Hempty | Hlog].
        -- exfalso. rewrite Hempty in Eshape. inversion Eshape; subst shape.
           discriminate.
        -- exfalso. apply in_app_or in Hlog. destruct Hlog as [Hlog | Hlog];
             [exact (Hnolog Hlog)|].
           apply in_app_or in Hlog. destruct Hlog as [Hlog | Hlog];
             [exact (Hquiet _ Hlog)|].
           cbn in Hlog. destruct Hlog as [E' | [E' | []]]; discriminate.
    + rewrite Hblocked. cbn [queue emitted result app].
      match goal with
      | |- context [handle_thrown net em rt sid ?n ?t ?p ?q0] =>
          pose proof (handle_thrown_outcome net em rt sid n t p q0) as Hcatch;
          cbv zeta in Hcatch;
          destruct (handle_thrown net em rt sid n t p q0) as [rc dc qc]
      end.
      cbn [queue emitted result] in *. destruct Hcatch as [_ Hcatch].
      apply caught_error_reported in Hcatch. destruct Hcatch as [Hgc Hrc].
      destruct (blocked_turn_calls rt sid h (em (ZodFailure issues)) [] dc)
        as (G & X & E); try assumption; try reflexivity.
      { constructor. }
      cbn [app] in G, X, E.
      split; [exact G|]. split; [exact X|].
      eexists. split; [exact E|]. reflexivity.
  - match goal with
    | |- context [handle_thrown net em rt sid ?n (ThrowError ?m) ?p ?q0] =>
        pose proof (handle_thrown_outcome net em rt sid n (ThrowError m) p q0)
          as Hcatch;
        pose proof (handle_error_no_secrets_log net em rt sid n m p q0
                      sid (name h)) as Hnolog;
        cbv zeta in Hcatch;
        destruct (handle_thrown net em rt sid n (ThrowError m) p q0)
          as [rc dc qc]
    end.
    cbn [queue emitted result] in *. destruct Hcatch as [_ Hcatch].
    apply caught_error_reported in Hcatch. destruct Hcatch as [Hgc Hrc].
    destruct (blocked_turn_calls rt sid h (em KeysOfNullish) [] dc)
      as (G & X & E); try assumption; try reflexivity.
    { constructor. }
    cbn [app] in G, X, E.
    split; [exact G|]. split; [exact X|].
    eexists. split; [exact E|].
    intros [Hempty | Hlog].
    + rewrite Hempty in Eshape. discriminate.
    + exfalso. apply in_app_or in Hlog. destruct Hlog as [Hlog | Hlog];
        [exact (Hnolog Hlog)|].
      cbn in Hlog. destruct Hlog as [E' | [E' | []]]; discriminate.
Qed.

(** Echo, given the inputs [{}]. *)
Lemma rejected_inputs_witness :
  let rt := Samples.runtime_of [Samples.Echo] in
  let run := worker_body Samples.net_ok Samples.engine_text rt
               (Cases.bare_item "Echo") [] (initial_queue rt) in
  ghosts (emitted run) = [EvNew Samples.Echo]
  /\ calls_to (getExecutedEndpoint rt "s1") (emitted run) = []
  /\ calls_to (getErroredEndpoint rt "s1") (emitted run)
     = [erroredRequest rt "s1" (JStr "ZodError")].
Proof.
  intros rt run.
  destruct (Zod.parse (Inputs Samples.Echo) (JObj [])) as [issues|parsed] eqn:E;
    [|vm_compute in E; discriminate].
  destruct (rejected_inputs_never_reach_execute Samples.net_ok
              Samples.engine_text rt "s1" "Echo" (JObj []) []
              (initial_queue rt) Samples.Echo issues eq_refl eq_refl E)
    as (Hghosts & Hexec & message & Herr & Hmsg).
  split; [exact Hghosts|]. split; [exact Hexec|].
  rewrite Hmsg in Herr by (left; reflexivity). exact Herr.
Defined.

Lemma getSecrets_refused net em rt sid past q res :
  net past (secretsRequest rt sid) = FetchResolves res -> ok res = false ->
  getSecrets net em rt sid past q
  = mkRun (inr (JObj []))
          [EvLog ERROR (FailedToGetSecrets sid (text res));
           EvFetch (secretsRequest rt sid) (FetchResolves res)] q.
Proof.
  intros Hnet Hok. unfold getSecrets, fetch, log, emit, bind, ret.
  fold (secretsRequest rt sid). rewrite Hnet. cbn. rewrite Hok. cbn.
  reflexivity.
Qed.

(** When a handler needs secrets, the secrets call is answered with a
    status that is not ok and the secrets schema rejects the empty object
    (as one with a plain string field does), the worker logs the failure
    and goes on with an empty secrets object: [execute()] is never
    reached, no executed report is made, and the item is reported as
    errored once, with the text of a ZodError, that of the inputs when
    they are rejected and that of the empty secrets otherwise. *)
Theorem refused_secrets_never_reach_execute :
  forall (net : list Event -> Request -> FetchResult)
         (em : EngineFault -> string) (rt : Runtime.t)
         (sid nn : string) (inputs : JsValue) (past : list Event) (q : Queue)
         (h : NodeCtor) (shape : list (string * ZodType)) (res : Response)
         (rejected : list ZodIssue),
    Js.get (nodeMapping rt) nn = Own h -> construct h = None ->
    Secrets h = ZodObject shape -> shape <> [] ->
    Zod.parse (Secrets h) (JObj []) = inl rejected ->
    net (turn_opening h sid ++ past) (secretsRequest rt sid) = FetchResolves res ->
    ok res = false ->
    let run := worker_body net em rt (StateItem sid nn inputs) past q in
    ghosts (emitted run) = [EvNew h]
    /\ In (EvLog ERROR (FailedToGetSecrets sid (text res))) (emitted run)
    /\ calls_to (getExecutedEndpoint rt sid) (emitted run) = []
    /\ exists issues,
         calls_to (getErroredEndpoint rt sid) (emitted run)
         = [erroredRequest rt sid (JStr (em (ZodFailure issues)))]
         /\ match Zod.parse (Inputs h) inputs with
            | inl about_inputs => issues = about_inputs
            | inr _ => issues = rejected
            end.
Proof.
  intros net em rt sid nn inputs past q h shape res rejected
         Hget Hc Hsec Hne Hrej Hnet Hok run.
  assert (Hblocked : exists issues,
             (forall p,
                after_secrets net em rt h (StateItem sid nn inputs) sid
                              (JObj []) p q
                = mkRun (inl (ThrowError (em (ZodFailure issues)))) [] q)
             /\ match Zod.parse (Inputs h) inputs with
                | inl about_inputs => issues = about_inputs
                | inr _ => issues = rejected
                end).
  { destruct (Zod.parse (Inputs h) inputs) as [issues|parsed] eqn:Ein.
    - exists issues. split; [|reflexivity].
      intros p. apply after_secrets_stops_early.
      apply _execute_stops_early. left. assumption.
    - exists rejected. split; [|reflexivity].
      intros p. apply after_secrets_stops_early.
      apply _execute_stops_early. right. exists parsed.
      split; assumption. }
  destruct Hblocked as (issues & Hblocked & Hwhich).
  set (tried := [EvLog INFO (GotSecrets sid (name h));
                 EvLog ERROR (FailedToGetSecrets sid (text res));
                 EvFetch (secretsRequest rt sid) (FetchResolves res)]).
  assert (Hrun : exists rc dc qc,
             worker_body net em rt (StateItem sid nn inputs) past q
             = mkRun rc (dc ++ tried ++ turn_opening h sid) qc
             /\ ghosts dc = []
             /\ requests dc
                = [erroredRequest rt sid (JStr (em (ZodFailure issues)))]).
  { rewrite (worker_body_registered net em rt sid nn inputs past q h Hget Hc).
    rewrite run_node_steps.
    unfold needSecrets, bind at 1. rewrite Hsec. cbn [shape_of].
    assert ((0 <? length shape)%nat = true) as Hneed.
    { destruct shape; [congruence | reflexivity]. }
    unfold ret at 1. rewrite Hneed. cbn [queue emitted result app].
    unfold bind. rewrite (getSecrets_refused net em rt sid _ q res Hnet Hok).
    unfold log, emit, ret. cbn [queue emitted result app].
    rewrite Hblocked. cbn [queue emitted result app].
    match goal with
    | |- context [handle_thrown net em rt sid ?n ?t ?p ?q0] =>
        pose proof (handle_thrown_outcome net em rt sid n t p q0) as Hcatch;
        cbv zeta in Hcatch;
        destruct (handle_thrown net em rt sid n t p q0) as [rc dc qc]
    end.
    cbn [queue emitted result] in *. destruct Hcatch as [_ Hcatch].
    apply caught_error_reported in Hcatch. destruct Hcatch as [Hgc Hrc].
    exists rc, dc, qc. split; [reflexivity|]. split; assumption. }
  destruct Hrun as (rc & dc & qc & Hrun & Hgc & Hrc).
  subst run. rewrite Hrun. cbn [emitted].
  destruct (blocked_turn_calls rt sid h (em (ZodFailure issues)) tried dc)
    as (G & X & E); try assumption; try reflexivity.
  { cbn. constructor. }
  split; [exact G|]. split; [subst tried; in_events|]. split; [exact X|].
  exists issues. split; [exact E | exact Hwhich].
Qed.

(** A handler with one secret, on a network that refuses every call. *)
Lemma refused_secrets_witness :
  let rt := Samples.runtime_of [Cases.Vault] in
  let run := Scenarios.turn Samples.net_refusing [Cases.Vault] "Vault" in
  ghosts (emitted run) = [EvNew Cases.Vault]
  /\ In (EvLog ERROR (FailedToGetSecrets "s1" "Bad request")) (emitted run)
  /\ calls_to (getExecutedEndpoint rt "s1") (emitted run) = []
  /\ calls_to (getErroredEndpoint rt "s1") (emitted run)
     = [erroredRequest rt "s1"
          (JStr (Samples.engine_text
                   (ZodFailure [mkIssue ["token"] TString TUndefined])))].
Proof.
  intros rt run.
  destruct (refused_secrets_never_reach_execute Samples.net_refusing
              Samples.engine_text rt "s1" "Vault" (JObj [("name", JStr "x")]) []
              (initial_queue rt) Cases.Vault [("token", ZodString)]
              (mkResponse false "Bad request" None)
              [mkIssue ["token"] TString TUndefined])
    as (Hghosts & Hlog & Hexec & issues & Herr & Hwhich);
    try reflexivity; [discriminate|].
  cbn in Hwhich. subst issues.
  split; [exact Hghosts|]. split; [exact Hlog|]. split; [exact Hexec | exact Herr].
Defined.

(** ** Construction and the node mapping *)

Section ValidationComplete.

Lemma indexOf_finds (names : list string) (n : string) :
  In n names -> nth_error names (indexOf names n) = Some n.
Proof.
  induction names as [|m names IH]; simpl; [tauto|].
  intros Hin. destruct (String.eqb m n) eqn:E.
  - apply String.eqb_eq in E. subst. reflexivity.
  - simpl. apply IH. destruct Hin as [-> | Hin]; [|assumption].
    rewrite String.eqb_refl in E. discriminate.
Qed.

Lemma nothing_in_nil {A : Type} (l : list A) :
  (forall x, ~ In x l) -> l = [].
Proof.
  destruct l as [|a l]; [reflexivity|].
  intros H. exfalso. apply (H a). left. reflexivity.
Qed.

Lemma duplicates_nodup (names : list string) :
  NoDup names -> duplicates names = [].
Proof.
  intros Hnd. apply nothing_in_nil. intros n Hin.
  unfold duplicates in Hin. apply In_filter_indexed in Hin.
  destruct Hin as (k & Hk & Hp). simpl in Hp.
  apply negb_true_iff, Nat.eqb_neq in Hp. apply Hp.
  assert (In n names) as Hn by (eapply nth_error_In; eassumption).
  pose proof (indexOf_finds names n Hn) as Hfirst.
  eapply (proj1 (NoDup_nth_error names) Hnd).
  - apply nth_error_Some. rewrite Hfirst. discriminate.
  - rewrite Hfirst, Hk. reflexivity.
Qed.

Lemma checkStrings_valid (nodeName label : string) (shape : list (string * ZodType)) :
  (forall key ft, In (key, ft) shape -> ft = ZodString) ->
  checkStrings nodeName (ZodObject shape) label = [].
Proof.
  intros Hall. unfold checkStrings. cbn [shape_of].
  induction shape as [|[k ft] shape IH]; [reflexivity|].
  cbn [flat_map fst snd]. rewrite (Hall k ft) by (left; reflexivity).
  cbn [isZodStringSchema app]. apply IH.
  intros key ft' Hin. apply (Hall key ft'). right. assumption.
Qed.

Lemma node_errors_valid (node : NodeCtor) :
  valid_node node -> node_errors node = [].
Proof.
  intros [Hext Hroles]. unfold node_errors. cbv zeta.
  destruct (Hroles "Inputs" (Inputs node)) as (si & Ei & Hi);
    [unfold roles; cbn; tauto|].
  destruct (Hroles "Outputs" (Outputs node)) as (so & Eo & Ho);
    [unfold roles; cbn; tauto|].
  destruct (Hroles "Secrets" (Secrets node)) as (ss & Es & Hs);
    [unfold roles; cbn; tauto|].
  rewrite Hext, Ei, Eo, Es. cbn [isZodObjectSchema].
  rewrite !checkStrings_valid by assumption. reflexivity.
Qed.

Lemma validation_errors_valid (nodes : list NodeCtor) :
  Forall valid_node nodes -> NoDup (map name nodes) ->
  validation_errors nodes = [].
Proof.
  intros Hall Hnd. unfold validation_errors. cbv zeta.
  rewrite (duplicates_nodup _ Hnd), app_nil_r.
  induction Hall as [|n ns Hn _ IH]; [reflexivity|].
  cbn [flat_map]. rewrite (node_errors_valid n Hn). cbn [app].
  apply IH. inversion Hnd; assumption.
Qed.

Lemma validateRuntime_ok (rt : Runtime.t) :
  validateRuntime rt = inr tt
  <-> (1 <= batchSize rt)%Z /\ (1 <= workers rt)%Z
      /\ stateManagerUri rt <> "" /\ key rt <> "".
Proof.
  unfold validateRuntime.
  destruct (batchSize rt <? 1)%Z eqn:Eb;
    [apply Z.ltb_lt in Eb | apply Z.ltb_ge in Eb].
  { split; [discriminate | intros (H & _); lia]. }
  destruct (workers rt <? 1)%Z eqn:Ew;
    [apply Z.ltb_lt in Ew | apply Z.ltb_ge in Ew].
  { split; [discriminate | intros (_ & H & _); lia]. }
  destruct (String.eqb (stateManagerUri rt) "") eqn:Eu;
    [apply String.eqb_eq in Eu | apply String.eqb_neq in Eu].
  { split; [discriminate | intros (_ & _ & H & _); contradiction]. }
  destruct (String.eqb (key rt) "") eqn:Ek;
    [apply String.eqb_eq in Ek | apply String.eqb_neq in Ek].
  { split; [discriminate | intros (_ & _ & _ & H); contradiction]. }
  split; [auto | reflexivity].
Qed.

End ValidationComplete.

Lemma created_is_valid (env : Runtime.Env) (ns nm : string)
      (nodes : list Runtime.NodeCtor) (options : Runtime.RuntimeOptions)
      (rt : Runtime.t) :
  Runtime.create env ns nm nodes options = inr rt ->
  rt = Runtime.configure env ns nm nodes options
  /\ (1 <= batchSize rt)%Z /\ (1 <= workers rt)%Z
  /\ stateManagerUri rt <> "" /\ key rt <> ""
  /\ Forall valid_node nodes
  /\ NoDup (map name nodes).
Proof.
  unfold Runtime.create.
  set (rt0 := Runtime.configure env ns nm nodes options).
  destruct (validateRuntime rt0) as [e|[]] eqn:Ecfg; [discriminate|].
  apply validateRuntime_ok in Ecfg. destruct Ecfg as (Hb & Hw & Hu & Hk).
  unfold validateNodes. change (Runtime.nodes rt0) with nodes.
  destruct (validation_errors nodes) as [|e es] eqn:Ee; [|discriminate].
  intros Hrt. injection Hrt as <-.
  unfold validation_errors in Ee. cbv zeta in Ee.
  apply app_eq_nil in Ee. destruct Ee as [Hnodes Hdups].
  repeat split; try assumption.
  - apply Forall_forall. intros node Hin.
    apply node_errors_none. eapply flat_map_nil; eassumption.
  - apply duplicates_none.
    destruct (duplicates (map name nodes)); [reflexivity | discriminate].
Qed.

(** For an integer batch size and an integer number of workers (the
    numbers of this model), the constructor returns a Runtime exactly when
    both are at least 1, the state manager's URI and the key are not empty,
    every class holds its three static schemas and is valid (it extends
    BaseNode, and its [Inputs], [Outputs] and [Secrets] are object schemas
    whose fields are all string schemas) and no two classes share a name;
    the Runtime is then the configured one. *)
Theorem construction_succeeds_exactly_when_valid :
  forall (em : Runtime.EngineFault -> string) (env : Runtime.Env)
         (ns nm : string) (classes : list Classes.NodeClass)
         (options : Runtime.RuntimeOptions) (rt : Runtime.t),
    Classes.construct em env ns nm classes options = inr rt
    <-> exists nodes,
          classes = map Classes.of_ctor nodes
          /\ rt = Runtime.configure env ns nm nodes options
          /\ (1 <= batchSize rt)%Z /\ (1 <= workers rt)%Z
          /\ stateManagerUri rt <> "" /\ key rt <> ""
          /\ Forall valid_node nodes
          /\ NoDup (map name nodes).
Proof.
  intros em env ns nm classes options rt. split.
  - intros Hbuilt. apply construct_returns in Hbuilt.
    destruct Hbuilt as (nodes & -> & Hcreate). exists nodes.
    split; [reflexivity|]. apply created_is_valid. exact Hcreate.
  - intros (nodes & -> & -> & Hb & Hw & Hu & Hk & Hvalid & Hnd).
    rewrite construct_of_ctors. unfold Runtime.create.
    assert (validateRuntime (Runtime.configure env ns nm nodes options) = inr tt)
      as -> by (apply validateRuntime_ok; auto).
    unfold Runtime.validateNodes.
    change (Runtime.nodes (Runtime.configure env ns nm nodes options)) with nodes.
    rewrite (validation_errors_valid nodes Hvalid Hnd). reflexivity.
Qed.

(** The sample handlers are valid. *)
Ltac sample_is_valid :=
  split; [reflexivity|]; intros label schema Hin; cbn in Hin;
  repeat match goal with
         | H : _ \/ _ |- _ => destruct H as [H | H]
         | H : False |- _ => contradiction
         end;
  inversion Hin; subst; eexists; (split; [reflexivity|]);
  intros key ft Hf; cbn in Hf;
  repeat match goal with
         | H : _ \/ _ |- _ => destruct H as [H | H]
         | H : False |- _ => contradiction
         end;
  inversion Hf; reflexivity.

Lemma valid_Echo : valid_node Samples.Echo.
Proof. sample_is_valid. Qed.

Lemma valid_Vault : valid_node Cases.Vault.
Proof. sample_is_valid. Qed.

(** Two valid handlers with distinct names and the defaults; and no
    Runtime for a class without the schemas. *)
Lemma construction_succeeds_witness :
  Classes.construct Samples.engine_text Samples.env "ns" "rt"
    (map Classes.of_ctor [Samples.Echo; Cases.Vault]) no_options
  = inr (Samples.runtime_of [Samples.Echo; Cases.Vault])
  /\ forall rt,
       Classes.construct Samples.engine_text Samples.env "ns" "rt"
         [Classes.of_ctor Samples.Echo; Cases.NotNode] no_options
       <> inr rt.
Proof.
  split.
  - apply (construction_succeeds_exactly_when_valid Samples.engine_text
             Samples.env "ns" "rt"
             (map Classes.of_ctor [Samples.Echo; Cases.Vault]) no_options).
    exists [Samples.Echo; Cases.Vault].
    split; [reflexivity|]. split; [reflexivity|].
    split; [cbn; lia|]. split; [cbn; lia|].
    split; [discriminate|]. split; [discriminate|]. split.
    + apply Forall_cons; [exact valid_Echo|].
      apply Forall_cons; [exact valid_Vault | apply Forall_nil].
    + apply NoDup_cons; [cbn; intuition discriminate|].
      apply NoDup_cons; [cbn; tauto | apply NoDup_nil].
  - intros rt Hbuilt.
    apply (construction_succeeds_exactly_when_valid Samples.engine_text
             Samples.env "ns" "rt"
             [Classes.of_ctor Samples.Echo; Cases.NotNode] no_options)
      in Hbuilt.
    destruct Hbuilt as (nodes & Hclasses & _).
    destruct nodes as [|a [|b rest]]; discriminate.
Defined.

(** ** Looking a handler up *)

Lemma own_get_set_same {V : Type} (props : list (string * V)) (k : string) (v : V) :
  own_get (own_set props k v) k = Some v.
Proof.
  induction props as [|[k' v'] props IH]; cbn.
  - rewrite String.eqb_refl. reflexivity.
  - destruct (String.eqb k' k) eqn:E; cbn.
    + rewrite String.eqb_refl. reflexivity.
    + rewrite E. exact IH.
Qed.

Lemma own_get_set_other {V : Type} (props : list (string * V)) (k k' : string) (v : V) :
  k' <> k -> own_get (own_set props k' v) k = own_get props k.
Proof.
  intros Hne. apply String.eqb_neq in Hne.
  induction props as [|[k0 v0] props IH]; cbn.
  - rewrite Hne. reflexivity.
  - destruct (String.eqb k0 k') eqn:E; cbn.
    + apply String.eqb_eq in E. subst k0. rewrite Hne. reflexivity.
    + destruct (String.eqb k0 k); [reflexivity | exact IH].
Qed.

Lemma fold_set_absent {V : Type} (entries : list (string * V)) :
  forall (acc : list (string * V)) (k : string),
    ~ In k (map fst entries) ->
    own_get (fold_left (fun acc kv => own_set acc (fst kv) (snd kv)) entries acc) k
    = own_get acc k.
Proof.
  induction entries as [|[k0 v0] entries IH]; intros acc k Hnot; cbn; [reflexivity|].
  rewrite IH.
  - apply own_get_set_other. intros ->. apply Hnot. left. reflexivity.
  - intros Hin. apply Hnot. right. assumption.
Qed.

Lemma fold_set_present {V : Type} (entries : list (string * V)) :
  forall (acc : list (string * V)) (k : string) (v : V),
    NoDup (map fst entries) -> In (k, v) entries ->
    own_get (fold_left (fun acc kv => own_set acc (fst kv) (snd kv)) entries acc) k
    = Some v.
Proof.
  induction entries as [|[k0 v0] entries IH]; intros acc k v Hnd Hin; [contradiction|].
  cbn in Hnd. inversion Hnd as [|? ? Hfresh Hrest]; subst.
  cbn [fold_left fst snd]. destruct Hin as [E | Hin].
  - inversion E; subst. rewrite fold_set_absent by assumption.
    apply own_get_set_same.
  - apply IH; assumption.
Qed.

(** In a runtime that was constructed, looking a node name up in the
    node mapping finds every registered handler under its own name; a name
    that no handler bears finds what [Object.prototype] holds under it, and
    nothing when it holds nothing. *)
Theorem registered_handlers_are_found :
  forall (env : Runtime.Env) (ns nm : string) (nodes : list Runtime.NodeCtor)
         (options : Runtime.RuntimeOptions) (rt : Runtime.t),
    Runtime.create env ns nm nodes options = inr rt ->
    (forall node, In node nodes ->
       Js.get (nodeMapping rt) (name node) = Own node)
    /\ (forall nn, ~ In nn (map name nodes) ->
          Js.get (nodeMapping rt) nn
          = match object_prototype nn with
            | Some member => Inherited member
            | None => Absent
            end).
Proof.
  intros env ns nm nodes options rt Hcreate.
  apply created_is_valid in Hcreate.
  destruct Hcreate as (-> & _ & _ & _ & _ & _ & Hnd).
  cbn [nodeMapping configure]. unfold fromEntries, Js.get. split.
  - intros node Hin.
    rewrite (fold_set_present _ [] (name node) node); [reflexivity | |].
    + rewrite map_map. cbn [fst]. exact Hnd.
    + apply in_map_iff. exists node. split; [reflexivity | assumption].
  - intros nn Hnot. rewrite fold_set_absent; [reflexivity|].
    rewrite map_map. cbn [fst]. exact Hnot.
Qed.

(** The mapping of two handlers: one of them, an unknown name and an
    inherited one. *)
Lemma registered_handlers_witness :
  let rt := Samples.runtime_of [Samples.Echo; Cases.Vault] in
  Js.get (nodeMapping rt) "Vault" = Own Cases.Vault
  /\ Js.get (nodeMapping rt) "Nobody" = Absent
  /\ Js.get (nodeMapping rt) "valueOf" = Inherited ProtoBuiltinMethod.
Proof.
  intros rt.
  destruct (registered_handlers_are_found Samples.env "ns" "rt"
              [Samples.Echo; Cases.Vault] no_options rt)
    as [Hfound Hrest].
  - vm_compute. reflexivity.
  - split; [|split].
    + apply (Hfound Cases.Vault). right. left. reflexivity.
    + apply (Hrest "Nobody"). cbn. intuition discriminate.
    + apply (Hrest "valueOf"). cbn. intuition discriminate.
Defined.

(** ** The poller and the capacity of the queue *)

Import Batches.

Section PollerBound.
Variable net : list Event -> Request -> FetchResult.
Variable em : EngineFault -> string.
Variable rt : Runtime.t.

Lemma put_size (q : Queue) (state : JsValue) :
  AsyncQueue.size (snd (AsyncQueue.put q state)) <= S (AsyncQueue.size q).
Proof.
  unfold AsyncQueue.put, AsyncQueue.size.
  destruct (AsyncQueue.resolvers q); cbn; [|lia].
  rewrite length_app. cbn. lia.
Qed.

Lemma put_list_size (states : list JsValue) :
  forall q : Queue,
    AsyncQueue.size (put_list q states) <= AsyncQueue.size q + length states.
Proof.
  induction states as [|s states IH]; intros q; cbn; [lia|].
  unfold put_list in *. cbn [fold_left].
  specialize (IH (snd (AsyncQueue.put q s))).
  pose proof (put_size q s). lia.
Qed.

(** The queue after one turn of the poller: untouched, or grown by the
    items of the reply. *)
Lemma enqueue_turn_queue (past : list Event) (q : Queue) :
  let run := enqueue_turn net em rt past q in
  queue run = q
  \/ ((Z.of_nat (AsyncQueue.size q) < batchSize rt)%Z
      /\ exists res data,
           net past (batchRequest rt) = FetchResolves res
           /\ json res = Some data
           /\ queue run = put_list q (batch_states data)).
Proof.
  unfold enqueue_turn, attempt, enqueue_try, queue_size, bind.
  destruct (Z.of_nat (AsyncQueue.size q) <? batchSize rt)%Z eqn:Esize.
  2:{ left. reflexivity. }
  apply Z.ltb_lt in Esize. cbn [app].
  unfold enqueueCall, res_json, fetch, bind, throw, fault, ret, post.
  fold (batchRequest rt).
  destruct (net past (batchRequest rt)) as [m|res] eqn:Enet;
    cbn [queue emitted result app]; [left; reflexivity|].
  destruct (ok res) eqn:Eok; cbn [negb queue emitted result app];
    [|left; reflexivity].
  destruct (json res) as [data|] eqn:Ejson; cbn [queue emitted result app];
    [|left; reflexivity].
  unfold prop, iterate, fault, throw, ret, log, sleep, emit.
  destruct data as [| | b | n | s | elems | fields];
    cbn [nullish field queue emitted result app]; try (left; reflexivity);
    try (right; split; [assumption|]; exists res; eexists; split; [reflexivity|];
         split; [eassumption|]; reflexivity).
  - right. split; [assumption|]. exists res. eexists.
    split; [reflexivity|]. split; [eassumption|].
    cbn [batch_states].
    destruct (field fields "states") as [| | b | n | s | elems | fs];
      cbn [nullish queue emitted result app]; try reflexivity;
      match goal with
      | |- context [put_all ?l ?p ?q0] =>
          destruct (put_all_run l p q0) as (Hr & Hq & _);
          destruct (put_all l p q0) as [rp dp qp]
      end;
      cbn [queue emitted result] in *; subst rp;
      cbn [queue emitted result app]; assumption.
Qed.
End PollerBound.

(** As long as the state manager never returns more items than the
    batch size, the poller never fills the queue up to twice the batch
    size, which is the capacity the queue was created with: a buffer
    shorter than that stays so after any number of poller turns. *)
Theorem poller_keeps_buffer_below_capacity :
  forall (net : list Event -> Request -> FetchResult)
         (em : EngineFault -> string) (rt : Runtime.t),
    (forall past res data,
        net past (batchRequest rt) = FetchResolves res -> json res = Some data ->
        (Z.of_nat (length (batch_states data)) <= batchSize rt)%Z) ->
    forall (fuel : nat) (past : list Event) (q : Queue),
      (Z.of_nat (AsyncQueue.size q) < 2 * batchSize rt)%Z ->
      (Z.of_nat (AsyncQueue.size (queue (enqueue net em rt fuel past q)))
       < 2 * batchSize rt)%Z.
Proof.
  intros net em rt Hbound fuel.
  induction fuel as [|fuel IH]; intros past q Hq; cbn [enqueue]; [exact Hq|].
  unfold bind.
  pose proof (enqueue_turn_queue net em rt past q) as Hturn. cbv zeta in Hturn.
  destruct (enqueue_turn net em rt past q) as [r d q1]. cbn [queue] in Hturn.
  assert (Hq1 : (Z.of_nat (AsyncQueue.size q1) < 2 * batchSize rt)%Z).
  { destruct Hturn as [-> | (Hsmall & res & data & Hnet & Hjson & ->)];
      [exact Hq|].
    pose proof (put_list_size (batch_states data) q).
    specialize (Hbound past res data Hnet Hjson). lia. }
  destruct r as [t|[]]; cbn [queue]; [exact Hq1|].
  specialize (IH (d ++ past) q1 Hq1).
  destruct (enqueue net em rt fuel (d ++ past) q1) as [r2 d2 q2].
  exact IH.
Qed.

(** Five poller turns with batch size 2 and batches of two items. *)
Lemma poller_keeps_buffer_witness :
  let rt := Cases.small_runtime in
  (Z.of_nat (AsyncQueue.size
               (queue (enqueue Scenarios.net_two_items Samples.engine_text rt 5 []
                         (initial_queue rt))))
   < 2 * batchSize rt)%Z.
Proof.
  intros rt.
  apply (poller_keeps_buffer_below_capacity Scenarios.net_two_items
           Samples.engine_text rt).
  - intros past res data Hnet Hjson. unfold Scenarios.net_two_items in Hnet.
    inversion Hnet; subst res. cbn in Hjson. inversion Hjson; subst data.
    vm_compute. discriminate.
  - vm_compute. reflexivity.
Defined.

(** ** The graph and store schemas *)

Section TrimFacts.
Import JsString.

Import Trimmed.

Lemma trimStart_clean (s : string) : starts_clean (trimStart s).
Proof.
  induction s as [|c s IH]; cbn; [exact I|].
  destruct (is_space c) eqn:E; [exact IH | exact E].
Qed.

Lemma trimStart_id (s : string) : starts_clean s -> trimStart s = s.
Proof. destruct s as [|c s]; cbn; [reflexivity|]. intros ->. reflexivity. Qed.

Lemma trimEnd_clean (s : string) : starts_clean s -> starts_clean (trimEnd s).
Proof.
  destruct s as [|c s]; cbn; [auto|]. intros Hc.
  destruct (trimEnd s); [rewrite Hc|]; exact Hc.
Qed.

Lemma trimEnd_idem (s : string) : trimEnd (trimEnd s) = trimEnd s.
Proof.
  induction s as [|c s IH]; cbn; [reflexivity|].
  destruct (trimEnd s) as [|k ks] eqn:E.
  - destruct (is_space c) eqn:Ec; cbn; [reflexivity|]. rewrite Ec. reflexivity.
  - cbn [trimEnd]. cbn [trimEnd] in IH. rewrite IH. reflexivity.
Qed.

Lemma trim_idem (s : string) : trim (trim s) = trim s.
Proof.
  unfold trim.
  rewrite (trimStart_id (trimEnd (trimStart s)))
    by (apply trimEnd_clean, trimStart_clean).
  apply trimEnd_idem.
Qed.

Lemma map_trim_idem (l : list string) : map trim (map trim l) = map trim l.
Proof. rewrite map_map. apply map_ext. intros a. apply trim_idem. Qed.

End TrimFacts.

Section ModelFacts.
Import Js JsString Models.

Lemma length_zero (s : string) : Nat.ltb 0 (String.length s) = false <-> s = "".
Proof.
  destruct s; cbn; split; intros H; try reflexivity; discriminate.
Qed.

Lemma existsb_eqb_in (x : string) (l : list string) :
  existsb (String.eqb x) l = true <-> In x l.
Proof.
  rewrite existsb_exists. split.
  - intros (y & Hin & E). apply String.eqb_eq in E. subst. assumption.
  - intros Hin. exists x. split; [assumption | apply String.eqb_refl].
Qed.

Lemma existsb_eqb_not_in (x : string) (l : list string) :
  existsb (String.eqb x) l = false <-> ~ In x l.
Proof.
  rewrite <- existsb_eqb_in. destruct (existsb (String.eqb x) l); split;
    congruence.
Qed.

Lemma snoc_not_nil {A : Type} (l : list A) (a : A) : List.app l [a] <> [].
Proof. destruct l; discriminate. Qed.

(** The refinement of [next_nodes] finds nothing to report exactly when
    no entry is empty and no entry repeats an earlier one or a member of
    the set. *)
Lemma check_next_nodes_clean (nodes : list string) :
  forall identifiers errors,
    check_next_nodes nodes identifiers errors = []
    <-> errors = [] /\ ~ In "" nodes /\ NoDup nodes
        /\ (forall n, In n nodes -> ~ In n identifiers).
Proof.
  induction nodes as [|node rest IH]; intros identifiers errors; cbn [check_next_nodes].
  - split; [intros ->; repeat split; [tauto | constructor | tauto] | tauto].
  - destruct (String.eqb node "") eqn:Ee.
    { apply String.eqb_eq in Ee. subst node. rewrite IH. split.
      - intros (H & _). exfalso. eapply snoc_not_nil; eassumption.
      - intros (_ & H & _). exfalso. apply H. left. reflexivity. }
    apply String.eqb_neq in Ee.
    destruct (existsb (String.eqb node) identifiers) eqn:Ei.
    { apply existsb_eqb_in in Ei. rewrite IH. split.
      - intros (H & _). exfalso. eapply snoc_not_nil; eassumption.
      - intros (_ & _ & _ & H). exfalso. apply (H node); [left; reflexivity | assumption]. }
    apply existsb_eqb_not_in in Ei. rewrite IH. split.
    + intros (He & Hempty & Hnd & Hfresh). split; [assumption|]. split; [|split].
      * intros [E | Hin]; [congruence | tauto].
      * constructor; [|assumption]. intros Hin.
        apply (Hfresh node Hin). apply in_or_app. right. left. reflexivity.
      * intros n [<- | Hin]; [assumption|]. intros Hn.
        apply (Hfresh n Hin). apply in_or_app. left. assumption.
    + intros (He & Hempty & Hnd & Hfresh). inversion Hnd as [|? ? Hnew Hrest]; subst.
      split; [reflexivity|]. split; [|split].
      * intros Hin. apply Hempty. right. assumption.
      * assumption.
      * intros n Hin Hn. apply in_app_or in Hn. destruct Hn as [Hn | [<- | []]].
        -- apply (Hfresh n); [right; assumption | assumption].
        -- contradiction.
Qed.

Lemma check_required_keys_clean (keys : list string) :
  forall keySet errors,
    check_required_keys keys keySet errors = []
    <-> errors = [] /\ ~ In "" keys
        /\ Forall (fun key => includes_char "."%char key = false) keys
        /\ NoDup keys
        /\ (forall k, In k keys -> ~ In k keySet).
Proof.
  induction keys as [|key rest IH]; intros keySet errors; cbn [check_required_keys].
  - split; [intros ->; repeat split; [tauto | constructor | constructor | tauto] | tauto].
  - destruct (String.eqb key "") eqn:Ee.
    { apply String.eqb_eq in Ee. subst key. rewrite IH. split.
      - intros (H & _). exfalso. eapply snoc_not_nil; eassumption.
      - intros (_ & H & _). exfalso. apply H. left. reflexivity. }
    apply String.eqb_neq in Ee.
    destruct (includes_char "."%char key) eqn:Ed.
    { rewrite IH. split.
      - intros (H & _). exfalso. eapply snoc_not_nil; eassumption.
      - intros (_ & _ & H & _). inversion H; subst. congruence. }
    destruct (existsb (String.eqb key) keySet) eqn:Ei.
    { apply existsb_eqb_in in Ei. rewrite IH. split.
      - intros (H & _). exfalso. eapply snoc_not_nil; eassumption.
      - intros (_ & _ & _ & _ & H). exfalso.
        apply (H key); [left; reflexivity | assumption]. }
    apply existsb_eqb_not_in in Ei. rewrite IH. split.
    + intros (He & Hempty & Hdots & Hnd & Hfresh).
      split; [assumption|]. split; [|split; [|split]].
      * intros [E | Hin]; [congruence | tauto].
      * constructor; assumption.
      * constructor; [|assumption]. intros Hin.
        apply (Hfresh key Hin). apply in_or_app. right. left. reflexivity.
      * intros n [<- | Hin]; [assumption|]. intros Hn.
        apply (Hfresh n Hin). apply in_or_app. left. assumption.
    + intros (He & Hempty & Hdots & Hnd & Hfresh).
      inversion Hnd as [|? ? Hnew Hrest]; subst.
      inversion Hdots; subst.
      split; [reflexivity|]. split; [|split; [|split]].
      * intros Hin. apply Hempty. right. assumption.
      * assumption.
      * assumption.
      * intros n Hin Hn. apply in_app_or in Hn. destruct Hn as [Hn | [<- | []]].
        -- apply (Hfresh n); [right; assumption | assumption].
        -- contradiction.
Qed.

End ModelFacts.

(** The next-node identifiers of a graph node, given as an array of
    strings, are accepted exactly when, once trimmed, none is empty and
    no two are equal; what is accepted is the array of the trimmed
    entries, in order, and parsing it again accepts it unchanged.  The
    schema never answers with a ZodError: a violation is thrown by the
    refinement as a plain Error. *)
Theorem next_nodes_accepts_trimmed_distinct :
  forall (given : list string),
    let trimmed := map JsString.trim given in
    (forall nodes,
        Models.next_nodes given = Models.Accepted nodes
        <-> nodes = trimmed /\ NoDup trimmed /\ ~ In "" trimmed)
    /\ (forall nodes,
          Models.next_nodes given = Models.Accepted nodes ->
          Models.next_nodes nodes = Models.Accepted nodes)
    /\ (forall m, Models.next_nodes given <> Models.Refused m).
Proof.
  intros given trimmed.
  assert (Hiff : forall l nodes,
             Models.next_nodes l = Models.Accepted nodes
             <-> nodes = map JsString.trim l /\ NoDup (map JsString.trim l)
                 /\ ~ In "" (map JsString.trim l)).
  { intros l nodes. unfold Models.next_nodes. cbv zeta.
    pose proof (check_next_nodes_clean (map JsString.trim l) [] []) as Hc.
    destruct (Models.check_next_nodes (map JsString.trim l) [] []) as [|e es].
    - destruct (proj1 Hc eq_refl) as (_ & He & Hnd & _). split.
      + intros E. inversion E. auto.
      + intros (-> & _). reflexivity.
    - split; [discriminate|]. intros (_ & Hnd & He).
      assert (e :: es = []) as Habs; [|discriminate].
      apply Hc. repeat split; auto. }
  split; [intros nodes; apply Hiff|]. split.
  - intros nodes Hacc. apply Hiff in Hacc. destruct Hacc as (-> & Hnd & He).
    apply Hiff. rewrite map_trim_idem. auto.
  - intros m. unfold Models.next_nodes. cbv zeta.
    destruct (Models.check_next_nodes _ [] []); discriminate.
Qed.

(** Two identifiers, one of them padded. *)
Lemma next_nodes_witness :
  Models.next_nodes [" fetch "; "store_result"]
  = Models.Accepted ["fetch"; "store_result"]
  /\ Models.next_nodes ["fetch"; "store_result"]
     = Models.Accepted ["fetch"; "store_result"].
Proof.
  destruct (next_nodes_accepts_trimmed_distinct [" fetch "; "store_result"])
    as (Hiff & Hagain & _).
  assert (Models.next_nodes [" fetch "; "store_result"]
          = Models.Accepted ["fetch"; "store_result"]) as Hacc.
  { apply Hiff. split; [reflexivity|]. split.
    - apply NoDup_cons; [cbn; intuition discriminate|].
      apply NoDup_cons; [cbn; tauto | apply NoDup_nil].
    - cbn. intuition discriminate. }
  split; [exact Hacc | exact (Hagain _ Hacc)].
Defined.

(** The required keys of a store configuration are accepted exactly
    when, once trimmed, none is empty, none holds a dot and no two are
    equal; what is accepted is the array of the trimmed keys, and parsing
    it again accepts it unchanged. *)
Theorem required_keys_accepts_trimmed_plain_distinct :
  forall (given : list string),
    let trimmed := map JsString.trim given in
    (forall keys,
        Models.required_keys given = Models.Accepted keys
        <-> keys = trimmed /\ NoDup trimmed /\ ~ In "" trimmed
            /\ Forall (fun key => JsString.includes_char "."%char key = false)
                      trimmed)
    /\ (forall keys,
          Models.required_keys given = Models.Accepted keys ->
          Models.required_keys keys = Models.Accepted keys).
Proof.
  intros given trimmed.
  assert (Hiff : forall l keys,
             Models.required_keys l = Models.Accepted keys
             <-> keys = map JsString.trim l /\ NoDup (map JsString.trim l)
                 /\ ~ In "" (map JsString.trim l)
                 /\ Forall (fun key => JsString.includes_char "."%char key = false)
                           (map JsString.trim l)).
  { intros l keys. unfold Models.required_keys. cbv zeta.
    pose proof (check_required_keys_clean (map JsString.trim l) [] []) as Hc.
    destruct (Models.check_required_keys (map JsString.trim l) [] []) as [|e es].
    - destruct (proj1 Hc eq_refl) as (_ & He & Hd & Hnd & _). split.
      + intros E. inversion E. auto.
      + intros (-> & _). reflexivity.
    - split; [discriminate|]. intros (_ & Hnd & He & Hd).
      assert (e :: es = []) as Habs; [|discriminate].
      apply Hc. repeat split; auto. }
  split; [intros keys; apply Hiff|].
  intros keys Hacc. apply Hiff in Hacc. destruct Hacc as (-> & Hnd & He & Hd).
  apply Hiff. rewrite map_trim_idem. auto.
Qed.

(** Two keys, both padded. *)
Lemma required_keys_witness :
  Models.required_keys [" api_key"; "region "]
  = Models.Accepted ["api_key"; "region"]
  /\ Models.required_keys ["api_key"; "region"]
     = Models.Accepted ["api_key"; "region"].
Proof.
  destruct (required_keys_accepts_trimmed_plain_distinct [" api_key"; "region "])
    as (Hiff & Hagain).
  assert (Models.required_keys [" api_key"; "region "]
          = Models.Accepted ["api_key"; "region"]) as Hacc.
  { apply Hiff. split; [reflexivity|]. split; [|split].
    - apply NoDup_cons; [cbn; intuition discriminate|].
      apply NoDup_cons; [cbn; tauto | apply NoDup_nil].
    - cbn. intuition discriminate.
    - apply Forall_cons; [reflexivity|].
      apply Forall_cons; [reflexivity | apply Forall_nil]. }
  split; [exact Hacc | exact (Hagain _ Hacc)].
Defined.

(** A node name is accepted exactly when it holds a character that is
    not white space, an identifier when, in addition, it is not [store]
    once trimmed; what is accepted is the trimmed text, and parsing it
    again accepts it unchanged. *)
Theorem names_are_accepted_trimmed :
  forall (val : string),
    (forall v, Models.node_name val = Models.Accepted v
               <-> v = JsString.trim val /\ v <> "")
    /\ (forall v, Models.identifier val = Models.Accepted v
                  <-> v = JsString.trim val /\ v <> "" /\ v <> "store")
    /\ (forall v, Models.node_name val = Models.Accepted v ->
                  Models.node_name v = Models.Accepted v)
    /\ (forall v, Models.identifier val = Models.Accepted v ->
                  Models.identifier v = Models.Accepted v).
Proof.
  intros val.
  assert (Hname : forall s v, Models.node_name s = Models.Accepted v
                              <-> v = JsString.trim s /\ v <> "").
  { intros s v. unfold Models.node_name. cbv zeta.
    destruct s as [|c s]; [cbn; split; [discriminate | intros [-> H]; congruence]|].
    change (Nat.ltb (String.length (String c s)) 1) with false. cbv iota.
    destruct (Nat.ltb 0 (String.length (JsString.trim (String c s)))) eqn:E.
    - split; [intros H; inversion H; subst | intros [-> _]; reflexivity].
      split; [reflexivity|]. intros Hempty. rewrite Hempty in E. discriminate.
    - apply length_zero in E. split; [discriminate|]. intros [-> H]. congruence. }
  assert (Hid : forall s v, Models.identifier s = Models.Accepted v
                            <-> v = JsString.trim s /\ v <> "" /\ v <> "store").
  { intros s v. unfold Models.identifier. cbv zeta.
    destruct s as [|c s];
      [cbn; split; [discriminate | intros (-> & H & _); congruence]|].
    change (Nat.ltb (String.length (String c s)) 1) with false. cbv iota.
    destruct (Nat.ltb 0 (String.length (JsString.trim (String c s)))) eqn:E;
      cbn [negb].
    - destruct (String.eqb (JsString.trim (String c s)) "store") eqn:Es.
      + apply String.eqb_eq in Es. split; [discriminate|].
        intros (-> & _ & H). congruence.
      + apply String.eqb_neq in Es.
        split; [intros H; inversion H; subst | intros (-> & _); reflexivity].
        split; [reflexivity|]. split; [|assumption].
        intros Hempty. rewrite Hempty in E. discriminate.
    - apply length_zero in E. split; [discriminate|].
      intros (-> & H & _). congruence. }
  split; [apply Hname|]. split; [apply Hid|]. split.
  - intros v Hacc. apply Hname in Hacc. destruct Hacc as [-> Hne].
    apply Hname. rewrite trim_idem. auto.
  - intros v Hacc. apply Hid in Hacc. destruct Hacc as (-> & Hne & Hs).
    apply Hid. rewrite trim_idem. auto.
Qed.

(** Padded names. *)
Lemma names_witness :
  Models.node_name "  Fetcher " = Models.Accepted "Fetcher"
  /\ Models.identifier " fetch" = Models.Accepted "fetch"
  /\ Models.identifier "fetch" = Models.Accepted "fetch".
Proof.
  destruct (names_are_accepted_trimmed "  Fetcher ") as (Hname & _).
  destruct (names_are_accepted_trimmed " fetch") as (_ & Hid & _ & Hagain).
  assert (Models.identifier " fetch" = Models.Accepted "fetch") as Hacc.
  { apply Hid. split; [reflexivity|]. split; discriminate. }
  split; [|split; [exact Hacc | exact (Hagain _ Hacc)]].
  apply Hname. split; [reflexivity | discriminate].
Defined.

Section DefaultValues.
Import Js JsString Models.

Import Trimmed.

Lemma normalize_clean (entries : list (string * string)) :
  forall keySet dict errors,
    fst (normalize entries keySet dict errors) = []
    <-> errors = [] /\ ~ In "" (trimmed_keys entries)
        /\ Forall (fun key => includes_char "."%char key = false)
                  (trimmed_keys entries)
        /\ NoDup (trimmed_keys entries)
        /\ (forall k, In k (trimmed_keys entries) -> ~ In k keySet).
Proof.
  induction entries as [|[key value] rest IH]; intros keySet dict errors;
    cbn [normalize trimmed_keys map fst].
  - cbn. split; [intros ->; repeat split; [tauto | constructor | constructor | tauto] | tauto].
  - fold (trimmed_keys rest). set (k := trim key).
    destruct (String.eqb k "") eqn:Ee.
    { apply String.eqb_eq in Ee. rewrite Ee. rewrite IH. split.
      - intros (H & _). exfalso. eapply snoc_not_nil; eassumption.
      - intros (_ & H & _). exfalso. apply H. left. reflexivity. }
    apply String.eqb_neq in Ee.
    destruct (includes_char "."%char k) eqn:Ed.
    { rewrite IH. split.
      - intros (H & _). exfalso. eapply snoc_not_nil; eassumption.
      - intros (_ & _ & H & _). inversion H; subst. congruence. }
    destruct (existsb (String.eqb k) keySet) eqn:Ei.
    { apply existsb_eqb_in in Ei. rewrite IH. split.
      - intros (H & _). exfalso. eapply snoc_not_nil; eassumption.
      - intros (_ & _ & _ & _ & H). exfalso.
        apply (H k); [left; reflexivity | assumption]. }
    apply existsb_eqb_not_in in Ei. rewrite IH. split.
    + intros (He & Hempty & Hdots & Hnd & Hfresh).
      split; [assumption|]. split; [|split; [|split]].
      * intros [E | Hin]; [congruence | tauto].
      * constructor; assumption.
      * constructor; [|assumption]. intros Hin.
        apply (Hfresh k Hin). apply in_or_app. right. left. reflexivity.
      * intros n [<- | Hin]; [assumption|]. intros Hn.
        apply (Hfresh n Hin). apply in_or_app. left. assumption.
    + intros (He & Hempty & Hdots & Hnd & Hfresh).
      inversion Hnd as [|? ? Hnew Hrest]; subst.
      inversion Hdots; subst.
      split; [reflexivity|]. split; [|split; [|split]].
      * intros Hin. apply Hempty. right. assumption.
      * assumption.
      * assumption.
      * intros n Hin Hn. apply in_app_or in Hn. destruct Hn as [Hn | [<- | []]].
        -- apply (Hfresh n); [right; assumption | assumption].
        -- contradiction.
Qed.

Lemma normalize_errors_grow (entries : list (string * string)) :
  forall keySet dict errors,
    errors <> [] -> fst (normalize entries keySet dict errors) <> [].
Proof.
  intros keySet dict errors Hne Hnil. apply normalize_clean in Hnil.
  destruct Hnil. contradiction.
Qed.

Lemma normalize_assigns (entries : list (string * string)) :
  forall keySet dict,
    fst (normalize entries keySet dict []) = [] ->
    snd (normalize entries keySet dict []) = assigned entries dict.
Proof.
  induction entries as [|[key value] rest IH]; intros keySet dict;
    cbn [normalize assigned fold_left fst snd]; [reflexivity|].
  destruct (String.eqb (trim key) "");
    [intros H; exfalso; revert H; apply normalize_errors_grow; discriminate|].
  destruct (includes_char "."%char (trim key));
    [intros H; exfalso; revert H; apply normalize_errors_grow; discriminate|].
  destruct (existsb (String.eqb (trim key)) keySet);
    [intros H; exfalso; revert H; apply normalize_errors_grow; discriminate|].
  apply IH.
Qed.

Lemma assign_other (dict : list (string * string)) (k k' v : string) :
  k' <> k -> own_get (assign dict k' v) k = own_get dict k.
Proof.
  intros Hne. unfold assign. destruct (String.eqb k' "__proto__"); [reflexivity|].
  apply own_get_set_other. assumption.
Qed.

Lemma assigned_absent (entries : list (string * string)) :
  forall dict k,
    ~ In k (trimmed_keys entries) ->
    own_get (assigned entries dict) k = own_get dict k.
Proof.
  induction entries as [|[key value] rest IH]; intros dict k Hnot;
    cbn [assigned fold_left fst snd]; [reflexivity|].
  fold (assigned rest (assign dict (trim key) value)). rewrite IH.
  - apply assign_other. intros E. apply Hnot. left. exact E.
  - intros Hin. apply Hnot. right. exact Hin.
Qed.

Lemma assigned_present (entries : list (string * string)) :
  forall dict key value,
    NoDup (trimmed_keys entries) -> In (key, value) entries ->
    trim key <> "__proto__" ->
    own_get (assigned entries dict) (trim key) = Some value.
Proof.
  induction entries as [|[k0 v0] rest IH]; intros dict key value Hnd Hin Hproto;
    [contradiction|].
  cbn [trimmed_keys map fst] in Hnd. fold (trimmed_keys rest) in Hnd.
  inversion Hnd as [|? ? Hfresh Hrest]; subst.
  cbn [assigned fold_left fst snd]. fold (assigned rest (assign dict (trim k0) v0)).
  destruct Hin as [E | Hin].
  - inversion E; subst. rewrite assigned_absent by assumption.
    unfold assign. apply String.eqb_neq in Hproto. rewrite Hproto.
    apply own_get_set_same.
  - apply IH; assumption.
Qed.

Lemma assigned_never_proto (entries : list (string * string)) :
  forall dict,
    own_get dict "__proto__" = None ->
    own_get (assigned entries dict) "__proto__" = None.
Proof.
  induction entries as [|[k0 v0] rest IH]; intros dict Hnone;
    cbn [assigned fold_left fst snd]; [assumption|].
  fold (assigned rest (assign dict (trim k0) v0)). apply IH.
  unfold assign. destruct (String.eqb (trim k0) "__proto__") eqn:E; [assumption|].
  apply String.eqb_neq in E. rewrite own_get_set_other; assumption.
Qed.

End DefaultValues.

(** The default values of a store configuration, given as the entries
    of a record of strings: an entry whose key is exactly [__proto__] never
    reaches the transform, and the others are accepted exactly when their
    trimmed keys are non-empty, hold no dot and are pairwise distinct.  The
    accepted record maps every trimmed key to the value of its entry,
    except that an entry whose trimmed key is [__proto__] is dropped; it
    has no other key. *)
Theorem default_values_are_normalised :
  forall (values : list (string * string)),
    let keys := trimmed_keys (Models.record_entries values) in
    ((exists dict, Models.default_values values = Models.Accepted dict)
     <-> ~ In "" keys
         /\ Forall (fun key => JsString.includes_char "."%char key = false) keys
         /\ NoDup keys)
    /\ (forall dict,
          Models.default_values values = Models.Accepted dict ->
          (forall key value,
              In (key, value) values -> JsString.trim key <> "__proto__" ->
              Js.own_get dict (JsString.trim key) = Some value)
          /\ Js.own_get dict "__proto__" = None
          /\ (forall k, ~ In k keys -> Js.own_get dict k = None)).
Proof.
  intros values keys.
  pose proof (normalize_clean (Models.record_entries values) [] [] []) as Hclean.
  pose proof (normalize_assigns (Models.record_entries values) [] []) as Hassign.
  unfold Models.default_values.
  destruct (Models.normalize (Models.record_entries values) [] [] [])
    as [errors dict] eqn:En.
  cbn [fst snd] in Hclean, Hassign. fold keys in Hclean. split.
  - split.
    + intros [d Hacc]. destruct errors; [|discriminate].
      destruct (proj1 Hclean eq_refl) as (_ & He & Hd & Hnd & _). auto.
    + intros (He & Hd & Hnd).
      assert (errors = []) as -> by (apply Hclean; repeat split; auto).
      eauto.
  - intros d Hacc. destruct errors; [|discriminate]. inversion Hacc; subst d.
    rewrite (Hassign eq_refl).
    destruct (proj1 Hclean eq_refl) as (_ & He & Hd & Hnd & _).
    split; [|split].
    + intros key value Hin Hproto. apply assigned_present; try assumption.
      apply filter_In. split; [assumption|]. cbn [fst].
      destruct (String.eqb key "__proto__") eqn:E; [|reflexivity].
      apply String.eqb_eq in E. subst key. exfalso. apply Hproto. reflexivity.
    + apply assigned_never_proto. reflexivity.
    + intros k Hk. rewrite assigned_absent by assumption. reflexivity.
Qed.

(** A padded key, the key [__proto__] and a padded [__proto__]. *)
Lemma default_values_witness :
  exists dict,
    Models.default_values
      [(" region ", "eu"); ("__proto__", "a"); (" __proto__", "b")]
    = Models.Accepted dict
    /\ Js.own_get dict "region" = Some "eu"
    /\ Js.own_get dict "__proto__" = None
    /\ Js.own_get dict " region " = None.
Proof.
  destruct (default_values_are_normalised
              [(" region ", "eu"); ("__proto__", "a"); (" __proto__", "b")])
    as (Hiff & Hdict).
  destruct (proj2 Hiff) as [dict Hacc].
  { split; [cbn; intuition discriminate|]. split.
    - apply Forall_cons; [reflexivity|].
      apply Forall_cons; [reflexivity | apply Forall_nil].
    - apply NoDup_cons; [cbn; intuition discriminate|].
      apply NoDup_cons; [cbn; tauto | apply NoDup_nil]. }
  destruct (Hdict dict Hacc) as (Hkept & Hproto & Hothers).
  exists dict. split; [exact Hacc|]. split; [|split; [exact Hproto|]].
  - apply (Hkept " region " "eu"); [left; reflexivity | discriminate].
  - apply Hothers. cbn. intuition discriminate.
Defined.

(** ** The logger *)

Section LoggerFacts.
Import JsString Runtime Logger.

Lemma write_written (lg : Logger.t) (l : LogLevel) (iso name message : string) :
  write lg l iso name message <> [] <-> shouldLog lg l = true.
Proof.
  destruct l; cbn [write]; unfold debug, info, warn, error;
    match goal with
    | |- context [shouldLog lg ?l] => destruct (shouldLog lg l)
    end; split; congruence.
Qed.

End LoggerFacts.

(** Whatever the environment holds, the logger writes an error line
    unless [EXOSPHERE_DISABLE_DEFAULT_LOGGING] is exactly [true], in which
    case it writes nothing at any level; a line written at one level is
    also written at every higher level; and a debug line is written only
    when [EXOSPHERE_LOG_LEVEL] reads DEBUG in some letter case.  The
    environment is read by the first [getInstance] only: a later call
    returns the same logger whatever the environment has become. *)
Theorem logger_thresholds :
  forall (env : Logger.Env) (iso name message : string),
    let lg := Logger.new env in
    (Logger.EXOSPHERE_DISABLE_DEFAULT_LOGGING env = Some "true" ->
       forall l, Logger.write lg l iso name message = [])
    /\ (Logger.EXOSPHERE_DISABLE_DEFAULT_LOGGING env <> Some "true" ->
          Logger.error lg iso name message
          = [(Logger.ConsoleError, Logger.formatMessage iso "ERROR" name message)])
    /\ (forall l l',
          (Logger.rank l <= Logger.rank l')%Z ->
          Logger.write lg l iso name message <> [] ->
          Logger.write lg l' iso name message <> [])
    /\ (Logger.debug lg iso name message <> [] ->
          exists s, Logger.EXOSPHERE_LOG_LEVEL env = Some s
                    /\ JsString.toUpperCase s = "DEBUG")
    /\ (forall env',
          let first := Logger.getInstance None env in
          Logger.getInstance (snd first) env' = (lg, Some lg)).
Proof.
  intros env iso name message lg. split; [|split; [|split; [|split]]].
  - intros Hoff l.
    assert (Logger.shouldLog lg l = false) as Hs.
    { unfold Logger.shouldLog, lg, Logger.new. cbn. rewrite Hoff. reflexivity. }
    destruct l; cbn [Logger.write];
      unfold Logger.debug, Logger.info, Logger.warn, Logger.error;
      rewrite Hs; reflexivity.
  - intros Hon. unfold Logger.error, Logger.shouldLog, lg, Logger.new. cbn.
    assert (match Logger.EXOSPHERE_DISABLE_DEFAULT_LOGGING env with
            | Some s => String.eqb s "true"
            | None => false
            end = false) as ->.
    { destruct (Logger.EXOSPHERE_DISABLE_DEFAULT_LOGGING env) as [s|]; [|reflexivity].
      apply String.eqb_neq. congruence. }
    cbn. destruct (Logger.getLogLevelFromEnv env); reflexivity.
  - intros l l' Hle Hw. apply write_written. apply write_written in Hw.
    unfold Logger.shouldLog in *. apply andb_true_iff in Hw.
    destruct Hw as [Hd Hr]. apply andb_true_iff. split; [exact Hd|].
    apply Z.leb_le in Hr. apply Z.leb_le. lia.
  - intros Hw.
    assert (Logger.shouldLog lg Runtime.DEBUG = true) as Hs.
    { unfold Logger.debug in Hw. destruct (Logger.shouldLog lg Runtime.DEBUG); congruence. }
    unfold Logger.shouldLog in Hs. apply andb_true_iff in Hs. destruct Hs as [_ Hr].
    apply Z.leb_le in Hr.
    assert (Logger.getLogLevelFromEnv env = Runtime.DEBUG) as Hlevel.
    { unfold lg, Logger.new in Hr. cbn in Hr.
      destruct (Logger.getLogLevelFromEnv env); cbn in Hr; try lia. reflexivity. }
    unfold Logger.getLogLevelFromEnv in Hlevel. cbv zeta in Hlevel.
    destruct (Logger.EXOSPHERE_LOG_LEVEL env) as [s|]; [|discriminate].
    destruct (String.eqb s "") eqn:Es; [discriminate|].
    exists s. split; [reflexivity|].
    destruct (String.eqb (JsString.toUpperCase s) "DEBUG") eqn:Ed;
      [apply String.eqb_eq; assumption|].
    destruct (String.eqb (JsString.toUpperCase s) "INFO"); [discriminate|].
    destruct (String.eqb (JsString.toUpperCase s) "WARN"); [discriminate|].
    destruct (String.eqb (JsString.toUpperCase s) "ERROR"); discriminate.
  - intros env'. reflexivity.
Qed.

(** Level [warn], and a disabling variable that is not exactly [true]. *)
Lemma logger_thresholds_witness :
  let env := Logger.mkEnv (Some "warn") (Some "TRUE") in
  Logger.error (Logger.new env) "2025-01-02T03:04:05.678Z" "Runtime" "down"
  = [(Logger.ConsoleError,
      Logger.formatMessage "2025-01-02T03:04:05.678Z" "ERROR" "Runtime" "down")]
  /\ Logger.debug (Logger.new env) "2025-01-02T03:04:05.678Z" "Runtime" "down" = [].
Proof.
  intros env.
  destruct (logger_thresholds env "2025-01-02T03:04:05.678Z" "Runtime" "down")
    as (_ & Herror & _ & Hdebug & _).
  split; [apply Herror; discriminate|].
  destruct (Logger.debug (Logger.new env) "2025-01-02T03:04:05.678Z" "Runtime" "down")
    as [|line lines] eqn:E; [reflexivity|].
  destruct Hdebug as (s & Hs & Hupper); [discriminate|].
  inversion Hs; subst s. vm_compute in Hupper. discriminate.
Defined.

Local Open Scope string_scope.

Section FormatFacts.
Import JsString.

Lemma replace_first_T (date x : string) :
  includes_char "T"%char date = false ->
  replace "T" " " (date ++ String "T"%char x) = date ++ String " "%char x.
Proof.
  induction date as [|c date IH]; intros Hno.
  - destruct x; reflexivity.
  - cbn [includes_char] in Hno. apply orb_false_iff in Hno.
    destruct Hno as [Hc Hrest].
    change (String c date ++ String "T"%char x)
      with (String c (date ++ String "T"%char x)).
    cbn [replace String.prefix].
    destruct (Ascii.ascii_dec "T"%char c) as [E | E].
    + subst c. rewrite Ascii.eqb_refl in Hc. discriminate.
    + rewrite IH by assumption. reflexivity.
Qed.

Lemma substring_prefix (a b : string) :
  String.substring 0 (String.length a) (a ++ b) = a.
Proof.
  induction a as [|c a IH]; cbn.
  - destruct b; reflexivity.
  - rewrite IH. reflexivity.
Qed.

Lemma append_assoc (a b c : string) : (a ++ b) ++ c = a ++ (b ++ c).
Proof. induction a as [|x a IH]; cbn; [reflexivity | rewrite IH; reflexivity]. Qed.

Lemma length_append (a b : string) :
  String.length (a ++ b) = String.length a + String.length b.
Proof. induction a as [|x a IH]; cbn; [reflexivity | rewrite IH; reflexivity]. Qed.

End FormatFacts.

(** For an ISO timestamp, that is a ten-character date, the letter T, an
    eight-character time and a remainder, the line the logger formats
    starts with the date, a space and the time, followed by the level, the
    name and the message separated by bars. *)
Theorem log_line_format :
  forall (date time rest label name message : string),
    String.length date = 10 -> JsString.includes_char "T"%char date = false ->
    String.length time = 8 ->
    Logger.formatMessage (date ++ "T" ++ time ++ rest) label name message
    = date ++ " " ++ time ++ " | " ++ label ++ " | " ++ name ++ " | " ++ message.
Proof.
  intros date time rest label name message Hd Hno Ht.
  unfold Logger.formatMessage. cbv zeta.
  change (date ++ "T" ++ time ++ rest)
    with (date ++ String "T"%char (time ++ rest)).
  rewrite (replace_first_T date (time ++ rest) Hno).
  assert (date ++ String " "%char (time ++ rest)
          = (date ++ " " ++ time) ++ rest) as ->.
  { rewrite !append_assoc. reflexivity. }
  assert (19 = String.length (date ++ " " ++ time)) as ->.
  { rewrite !length_append, Hd, Ht. reflexivity. }
  rewrite substring_prefix. rewrite !append_assoc. reflexivity.
Qed.

(** A timestamp as [toISOString()] gives it. *)
Lemma log_line_format_witness :
  Logger.formatMessage "2025-01-02T03:04:05.678Z" "INFO" "Runtime" "started"
  = "2025-01-02 03:04:05 | INFO | Runtime | started".
Proof.
  exact (log_line_format "2025-01-02" "03:04:05" ".678Z" "INFO" "Runtime" "started"
           eq_refl eq_refl eq_refl).
Defined.

(** ** generateFlatSchema *)

Section FlatSchemaFacts.
Import Js JsString Utils.

Lemma own_set_idem {V : Type} (props : list (string * V)) (k : string) (v : V) :
  own_set (own_set props k v) k v = own_set props k v.
Proof.
  induction props as [|[k' v'] props IH]; cbn.
  - rewrite String.eqb_refl. reflexivity.
  - destruct (String.eqb k' k) eqn:E; cbn.
    + rewrite String.eqb_refl. reflexivity.
    + rewrite E, IH. reflexivity.
Qed.

Lemma in_object_set_other (props : list (string * JsValue)) (k k' : string)
      (v : JsValue) :
  k' <> k -> in_object (own_set props k' v) k = in_object props k.
Proof.
  intros Hne. unfold in_object, Js.get.
  rewrite own_get_set_other by assumption. reflexivity.
Qed.

Lemma field_set_other (props : list (string * JsValue)) (k k' : string)
      (v : JsValue) :
  k' <> k -> field (own_set props k' v) k = field props k.
Proof.
  intros Hne. unfold field. rewrite own_get_set_other by assumption. reflexivity.
Qed.

Lemma truthy_field_in (props : list (string * JsValue)) (k : string) :
  truthy (field props k) = true -> in_object props k = true.
Proof.
  unfold field, in_object, Js.get. destruct (own_get props k); [reflexivity|].
  cbn. discriminate.
Qed.

End FlatSchemaFacts.

(** Whatever JSON schema the converter returned, a flat schema that is
    produced is an object whose [title] is the given title, and flattening
    it again with that title changes nothing.  When the converter's schema
    holds a [$ref] and [definitions], the flat schema has exactly the keys
    type, properties, required, title and additionalProperties, its type
    is [object], and [required] and [additionalProperties] are never a
    falsy value other than [false]. *)
Theorem flat_schema_is_titled_and_stable :
  forall (member : Js.JsValue -> string -> Js.Lookup Js.JsValue)
         (jsonSchema : list (string * Js.JsValue)) (title : string)
         (out : Js.JsValue),
    Utils.flatten member jsonSchema title = inr out ->
    exists props,
      out = Js.JObj props
      /\ Js.own_get props "title" = Some (Js.JStr title)
      /\ Utils.flatten member props title = inr out
      /\ (JsString.truthy (Js.field jsonSchema "$ref") = true ->
          JsString.truthy (Js.field jsonSchema "definitions") = true ->
          map fst props
          = ["type"; "properties"; "required"; "title"; "additionalProperties"]
          /\ Js.field props "type" = Js.JStr "object"
          /\ JsString.truthy (Js.field props "required") = true
          /\ (JsString.truthy (Js.field props "additionalProperties") = true
              \/ Js.field props "additionalProperties" = Js.JBool false)).
Proof.
  intros member jsonSchema title out. unfold Utils.flatten. cbv zeta.
  destruct (Utils.in_object jsonSchema "$ref"
            && JsString.truthy (Js.field jsonSchema "$ref")
            && Utils.in_object jsonSchema "definitions"
            && JsString.truthy (Js.field jsonSchema "definitions")) eqn:Econd.
  - apply andb_true_iff in Econd. destruct Econd as [Econd Hdefs].
    apply andb_true_iff in Econd. destruct Econd as [Econd _].
    apply andb_true_iff in Econd. destruct Econd as [_ Href].
    destruct (Js.field jsonSchema "$ref") as [| | b | n | r | elems | fs];
      try discriminate.
    destruct (Utils.in_schema "properties" _) as [f|hasP]; [discriminate|].
    destruct (Utils.in_schema "required" _) as [f|hasR]; [discriminate|].
    destruct (Utils.in_schema "additionalProperties" _) as [f|hasA]; [discriminate|].
    intros E. inversion E; subst out. clear E.
    eexists. split; [reflexivity|]. split; [reflexivity|]. split; [reflexivity|].
    intros _ _. split; [reflexivity|]. split; [reflexivity|]. split.
    + cbn. destruct hasR; [|reflexivity]. unfold Utils.or_default.
      destruct (JsString.truthy (Utils.schema_field "required" _)) eqn:Et;
        [exact Et | reflexivity].
    + cbn. destruct hasA; [|right; reflexivity]. unfold Utils.or_default.
      destruct (JsString.truthy (Utils.schema_field "additionalProperties" _)) eqn:Et;
        [left; exact Et | right; reflexivity].
  - intros E. inversion E; subst out. clear E.
    eexists. split; [reflexivity|]. split; [apply own_get_set_same|]. split.
    + rewrite !in_object_set_other, !field_set_other by discriminate.
      rewrite Econd. rewrite own_set_idem. reflexivity.
    + intros Href Hdefs. exfalso.
      rewrite (truthy_field_in _ _ Href), (truthy_field_in _ _ Hdefs), Href, Hdefs
        in Econd. discriminate.
Qed.

(** A JSON schema that refers to its one definition. *)
Lemma flat_schema_witness :
  exists props,
    Utils.flatten Cases.no_member Cases.referring_schema "Inputs" = inr (JObj props)
    /\ Js.own_get props "title" = Some (JStr "Inputs")
    /\ Utils.flatten Cases.no_member props "Inputs" = inr (JObj props)
    /\ map fst props
       = ["type"; "properties"; "required"; "title"; "additionalProperties"].
Proof.
  destruct (Utils.flatten Cases.no_member Cases.referring_schema "Inputs")
    as [f|out] eqn:E; [vm_compute in E; discriminate|].
  destruct (flat_schema_is_titled_and_stable Cases.no_member
              Cases.referring_schema "Inputs" out E)
    as (props & -> & Htitle & Hstable & Hkeys).
  exists props. split; [reflexivity|]. split; [exact Htitle|].
  split; [exact Hstable|].
  destruct Hkeys as (Hk & _); [reflexivity | reflexivity | exact Hk].
Defined.

(** ** Registration *)


Section RegisterFacts.
Import Js Zod Runtime Registration Announced.
Variable net : list Client.Event -> Client.Request -> Client.FetchResult.
Variable fm : Client.Fault -> string.
Variable member : JsValue -> string -> Lookup JsValue.
Variable z2j : ZodType -> list (string * JsValue).
Variable rt : Runtime.t.

Lemma node_entry_run (node : NodeCtor) (past : list Client.Event) :
  Client.emitted (node_entry fm member z2j node past) = []
  /\ match Client.result (node_entry fm member z2j node past) with
     | inr entry => announces member z2j node entry
     | inl t =>
         exists f, t = ThrowError (fm f)
                   /\ ~ exists entry, announces member z2j node entry
     end.
Proof.
  unfold node_entry, secret_names, Client.or_fault, Client.fault, Client.throw,
    Client.bind, Client.ret, announces.
  destruct (Utils.generateFlatSchema member z2j (Inputs node) "Inputs")
    as [f|i] eqn:Ei; cbn.
  { split; [reflexivity|]. eexists. split; [reflexivity|].
    intros (entry & i & o & names & H & _). discriminate. }
  destruct (Utils.generateFlatSchema member z2j (Outputs node) "Outputs")
    as [f|o] eqn:Eo; cbn.
  { split; [reflexivity|]. eexists. split; [reflexivity|].
    intros (entry & i' & o & names & _ & H & _). discriminate. }
  destruct (secret_keys node) as [names|] eqn:Es; cbn.
  - split; [reflexivity|]. exists i, o, names. auto.
  - split; [reflexivity|]. eexists. split; [reflexivity|].
    intros (entry & i' & o' & names & _ & _ & H & _). discriminate.
Qed.

Lemma entries_run (nodes : list NodeCtor) :
  forall past,
    Client.emitted (Client.map_m (node_entry fm member z2j) nodes past) = []
    /\ match Client.result (Client.map_m (node_entry fm member z2j) nodes past) with
       | inr entries => Forall2 (announces member z2j) nodes entries
       | inl t =>
           exists f, t = ThrowError (fm f)
                     /\ exists node, In node nodes
                          /\ ~ exists entry, announces member z2j node entry
       end.
Proof.
  induction nodes as [|node nodes IH]; intros past; cbn [Client.map_m].
  - cbn. split; [reflexivity | constructor].
  - unfold Client.bind.
    destruct (node_entry_run node past) as [He Hr].
    destruct (node_entry fm member z2j node past) as [[t|entry] d1];
      cbn [Client.emitted Client.result] in He, Hr; subst d1; cbn.
    + split; [reflexivity|]. destruct Hr as (f & -> & Hno).
      exists f. split; [reflexivity|]. exists node. split; [left; reflexivity | exact Hno].
    + destruct (IH past) as [Hes Hrs].
      destruct (Client.map_m (node_entry fm member z2j) nodes past)
        as [[t|entries] d2]; cbn [Client.emitted Client.result] in Hes, Hrs;
        subst d2; cbn.
      * split; [reflexivity|]. destruct Hrs as (f & -> & n & Hin & Hno).
        exists f. split; [reflexivity|]. exists n. split; [right; exact Hin | exact Hno].
      * split; [reflexivity|]. constructor; assumption.
Qed.

End RegisterFacts.

Lemma Forall2_pick {A B : Type} (R : A -> B -> Prop) (l : list A) (l' : list B)
      (x : A) :
  Forall2 R l l' -> In x l -> exists y, In y l' /\ R x y.
Proof.
  induction 1 as [|a b l l' Hab _ IH]; intros Hin; [contradiction|].
  destruct Hin as [<- | Hin].
  - exists b. split; [left; reflexivity | exact Hab].
  - destruct (IH Hin) as (y & Hy & Hr). exists y. split; [right|]; assumption.
Qed.

(** [register] makes at most one request.  When a schema of some handler
    cannot be flattened, or a handler has no secrets shape, it makes none
    and rejects.  Otherwise it makes exactly one: a PUT to the nodes
    endpoint with the API key, whose body announces every handler, in
    order, with its name, its flat schemas and the keys of its secrets
    schema.  It resolves with the reply's JSON when the reply is ok; when
    it is not, it logs and throws the registration error with the reply's
    text. *)
Theorem register_announces_every_handler :
  forall (net : list Client.Event -> Client.Request -> Client.FetchResult)
         (fm : Client.Fault -> string)
         (member : Js.JsValue -> string -> Js.Lookup Js.JsValue)
         (z2j : Zod.ZodType -> list (string * Js.JsValue))
         (rt : Runtime.t) (past : list Client.Event),
    let run := Registration.register net fm member z2j rt past in
    let started :=
      Client.EvLog Runtime.INFO "Runtime"
        ("Registering nodes: "
         ++ String.concat ", " (Registration.qualified_names rt)) in
    ((exists node, In node (Runtime.nodes rt)
        /\ ~ exists entry, Announced.announces member z2j node entry) ->
       Client.requests (Client.emitted run) = []
       /\ exists f, Client.result run = inl (Runtime.ThrowError (fm f)))
    /\ ((forall node, In node (Runtime.nodes rt) ->
           exists entry, Announced.announces member z2j node entry) ->
        exists entries,
          Forall2 (Announced.announces member z2j) (Runtime.nodes rt) entries
          /\ Client.requests (Client.emitted run)
             = [Registration.register_request rt entries]
          /\ match net (started :: past) (Registration.register_request rt entries) with
             | Client.FetchRejects m =>
                 Client.result run = inl (Runtime.ThrowError m)
             | Client.FetchResolves res =>
                 if Client.ok res then
                   Client.result run
                   = match Client.json res with
                     | Some v => inr v
                     | None => inl (Runtime.ThrowError (fm Client.JsonSyntax))
                     end
                 else
                   Client.result run
                   = inl (Runtime.ThrowError
                            ("Failed to register nodes: " ++ Client.text res))
                   /\ In (Client.EvLog Runtime.ERROR "Runtime"
                            ("Failed to register nodes: " ++ Client.text res))
                         (Client.emitted run)
             end).
Proof.
  intros net fm member z2j rt past run started.
  assert (Hrun : run = Registration.register net fm member z2j rt past)
    by reflexivity.
  unfold Registration.register in Hrun. cbv zeta in Hrun.
  unfold Client.bind at 1, Client.log at 1, Client.emit at 1 in Hrun.
  fold started in Hrun. cbn [app] in Hrun.
  unfold Client.bind at 1 in Hrun.
  destruct (entries_run fm member z2j (Runtime.nodes rt) (started :: past))
    as [He Hr].
  destruct (Client.map_m (Registration.node_entry fm member z2j)
                         (Runtime.nodes rt) (started :: past))
    as [[t|entries] d1]; cbn [Client.emitted Client.result] in He, Hr; subst d1.
  - rewrite Hrun. cbn. split.
    + intros _. split; [reflexivity|]. destruct Hr as (f & -> & _). eauto.
    + intros Hall. exfalso. destruct Hr as (f & _ & node & Hin & Hno).
      apply Hno. apply Hall. exact Hin.
  - split.
    + intros (node & Hin & Hno). exfalso.
      destruct (Forall2_pick _ _ _ _ Hr Hin) as (entry & _ & Hann).
      apply Hno. eauto.
    + intros _. exists entries. split; [exact Hr|].
      cbn [app] in Hrun. unfold Client.bind at 1, Client.fetch in Hrun.
      destruct (net (started :: past) (Registration.register_request rt entries))
        as [m|res] eqn:Enet.
      * rewrite Hrun. cbn. split; reflexivity.
      * cbn [app] in Hrun.
        destruct (Client.ok res) eqn:Eok; cbn [negb] in Hrun.
        -- unfold Client.bind, Client.log, Client.emit, Client.res_json,
             Client.fault, Client.throw, Client.ret in Hrun.
           destruct (Client.json res); rewrite Hrun; cbn; split; reflexivity.
        -- unfold Client.bind, Client.log, Client.emit, Client.throw in Hrun.
           rewrite Hrun. cbn. split; [reflexivity|]. split; [reflexivity|].
           left. reflexivity.
Qed.

(** The sample handlers can be announced. *)
Lemma announced_Echo :
  exists entry,
    Announced.announces Cases.no_member Cases.to_json_schema Samples.Echo entry.
Proof.
  eexists. unfold Announced.announces. do 3 eexists.
  split; [vm_compute; reflexivity|]. split; [vm_compute; reflexivity|].
  split; [vm_compute; reflexivity|]. reflexivity.
Qed.

Lemma announced_Vault :
  exists entry,
    Announced.announces Cases.no_member Cases.to_json_schema Cases.Vault entry.
Proof.
  eexists. unfold Announced.announces. do 3 eexists.
  split; [vm_compute; reflexivity|]. split; [vm_compute; reflexivity|].
  split; [vm_compute; reflexivity|]. reflexivity.
Qed.

(** Two handlers, acknowledged. *)
Lemma register_announces_witness :
  let rt := Samples.runtime_of [Samples.Echo; Cases.Vault] in
  let run := Registration.register Cases.net_registering Cases.fault_text
               Cases.no_member Cases.to_json_schema rt [] in
  exists entries,
    Forall2 (Announced.announces Cases.no_member Cases.to_json_schema)
            [Samples.Echo; Cases.Vault] entries
    /\ Client.requests (Client.emitted run)
       = [Registration.register_request rt entries]
    /\ Client.result run = inr (JObj [("status", JStr "registered")]).
Proof.
  intros rt run.
  destruct (register_announces_every_handler Cases.net_registering
              Cases.fault_text Cases.no_member Cases.to_json_schema rt [])
    as (_ & Hall).
  destruct Hall as (entries & Hentries & Hreq & Hres).
  - intros node [<- | [<- | []]]; [exact announced_Echo | exact announced_Vault].
  - exists entries. split; [exact Hentries|]. split; [exact Hreq|].
    exact Hres.
Defined.

Section SecretsFacts.
Import Js Zod Runtime.

(** A schema of string fields accepts an object exactly when the object
    holds a string under every key of the shape. *)
Lemma parse_string_shape (fields : list (string * JsValue))
      (shape : list (string * ZodType)) :
  (forall k ft, In (k, ft) shape -> ft = ZodString) ->
  (exists parsed, Zod.parse (ZodObject shape) (JObj fields) = inr parsed)
  <-> Forall (fun k => exists str, field fields k = JStr str) (map fst shape).
Proof.
  induction shape as [|[k ft] shape IH]; intros Hall.
  - cbn. split; [constructor | eauto].
  - assert (ft = ZodString) as -> by (apply (Hall k); left; reflexivity).
    assert (Hrest : forall k' ft', In (k', ft') shape -> ft' = ZodString)
      by (intros k' ft' Hin; apply (Hall k'); right; exact Hin).
    specialize (IH Hrest). cbn [map fst]. cbn [Zod.parse] in IH |- *.
    match goal with
    | |- context [?go shape] =>
        match type of (go shape) with
        | (list ZodIssue * list (string * JsValue))%type =>
            destruct (go shape) as [issues out]
        end
    end.
    split.
    + intros [parsed Hp].
      destruct (field fields k) eqn:Ef; cbn in Hp;
        try (destruct issues; discriminate).
      constructor; [eauto|]. apply IH. destruct issues; [eauto | discriminate].
    + intros Hforall. inversion Hforall as [|? ? [str Hstr] Hothers]; subst.
      rewrite Hstr. cbn. apply IH in Hothers. destruct Hothers as [p Hp].
      destruct issues; [eauto | discriminate].
Qed.

End SecretsFacts.

(** For a handler whose secrets schema is an object of plain string
    fields ([z.string()] with no check and no coercion, the string schema
    of this model), the secret names that [register] announces are exactly
    what the worker then demands: they are the keys of the shape, in
    order, and the schema accepts a secrets object if and only if the
    object holds a string under every announced name. *)
Theorem announced_secrets_are_the_required_ones :
  forall (node : Runtime.NodeCtor) (shape : list (string * Zod.ZodType)),
    Runtime.Secrets node = Zod.ZodObject shape ->
    (forall k ft, In (k, ft) shape -> ft = Zod.ZodString) ->
    Registration.secret_keys node = Some (map fst shape)
    /\ forall (secrets : list (string * Js.JsValue)),
         (exists parsed,
             Zod.parse (Runtime.Secrets node) (Js.JObj secrets) = inr parsed)
         <-> Forall (fun k => exists str, Js.field secrets k = Js.JStr str)
                    (map fst shape).
Proof.
  intros node shape Es Hs.
  unfold Registration.secret_keys. rewrite Es.
  split; [reflexivity|]. intros secrets. apply parse_string_shape. exact Hs.
Qed.

(** The handler with the secret [token]. *)
Lemma announced_secrets_witness :
  Registration.secret_keys Cases.Vault = Some ["token"]
  /\ (exists parsed,
         Zod.parse (Secrets Cases.Vault) (JObj [("token", JStr "abc")])
         = inr parsed)
  /\ ~ (exists parsed,
           Zod.parse (Secrets Cases.Vault) (JObj [("name", JStr "abc")])
           = inr parsed).
Proof.
  destruct (announced_secrets_are_the_required_ones
              Cases.Vault [("token", ZodString)] eq_refl)
    as (Hnames & Hiff).
  { intros k ft [E | []]. inversion E. reflexivity. }
  cbn [map fst] in Hiff.
  split; [exact Hnames|]. split.
  - apply Hiff. apply Forall_cons; [|apply Forall_nil].
    exists "abc". reflexivity.
  - intros Hparsed. apply Hiff in Hparsed.
    inversion Hparsed as [|? ? [str Hstr] _]; subst. discriminate.
Defined.

(** ** The state manager client *)

Section ClientFacts.
Import Js Client.

Lemma client_requests_app (a b : list Event) :
  requests (a ++ b) = (requests b ++ requests a)%list.
Proof.
  induction a as [|e a IH]; cbn; [rewrite app_nil_r; reflexivity|].
  destruct e; rewrite ?IH, ?app_assoc; reflexivity.
Qed.

Lemma client_sleeps_app (a b : list Event) :
  sleeps (a ++ b) = (sleeps b ++ sleeps a)%list.
Proof.
  induction a as [|e a IH]; cbn; [rewrite app_nil_r; reflexivity|].
  destruct e; rewrite ?IH, ?app_assoc; reflexivity.
Qed.

Lemma total_app (a b : list Z) :
  Polling.total (a ++ b) = (Polling.total a + Polling.total b)%Z.
Proof.
  unfold Polling.total. induction a as [|x a IH]; cbn; [reflexivity|].
  rewrite IH. lia.
Qed.

Lemma timer_clock_keeps_time : Polling.keeps_time Polling.timer_clock.
Proof.
  intros past d. unfold Polling.timer_clock.
  rewrite client_sleeps_app, total_app. lia.
Qed.

Lemma repeat_snoc {A : Type} (x : A) (n : nat) :
  (x :: repeat x n = repeat x n ++ [x])%list.
Proof. induction n as [|n IH]; cbn; [reflexivity|]. rewrite <- IH. reflexivity. Qed.

Lemma prop_status (fm : Fault -> string) (graph : JsValue) (past : list Event) :
  emitted (prop fm graph "validation_status" past) = []
  /\ forall state, result (prop fm graph "validation_status" past) = inr state ->
                   Polling.status_of graph state.
Proof.
  unfold prop, fault, throw, ret, Polling.status_of.
  destruct graph; cbn; split; try reflexivity; intros state H;
    try discriminate; inversion H; reflexivity.
Qed.

End ClientFacts.

(** Close the conjuncts of a run that ended early. *)
Ltac ended :=
  repeat match goal with |- _ /\ _ => split end;
  auto; try lia; try discriminate; try (intros; discriminate).

Section UpsertFacts.
Import Js Client StateManager Polling.
Variable net : list Event -> Request -> FetchResult.
Variable clock : list Event -> Z.
Variable fm : Fault -> string.
Variable stringify : JsValue -> string.
Variable sm : StateManager.t.

(** [getGraph]: one request; the graph it resolves with is the JSON of an
    ok reply. *)
Lemma getGraph_run (graphName : string) (past : list Event) :
  let run := getGraph net fm sm graphName past in
  emitted run = [EvFetch (get_request sm graphName)
                         (net past (get_request sm graphName))]
  /\ forall graph, result run = inr graph ->
       exists res, net past (get_request sm graphName) = FetchResolves res
                   /\ ok res = true /\ json res = Some graph.
Proof.
  unfold getGraph, fetch, res_json, fault, throw, bind, ret.
  destruct (net past (get_request sm graphName)) as [m|res] eqn:En; cbn.
  - split; [reflexivity|]. intros g H. discriminate.
  - destruct (ok res) eqn:Eok; cbn.
    + destruct (json res) as [v|] eqn:Ej; cbn; (split; [reflexivity|]);
        intros g H; inversion H; subst. eauto.
    + split; [reflexivity|]. intros g H. discriminate.
Qed.

(** The loop ends at once in a throw. *)
Lemma polled_thrown (graphName : string) (pi : Z) (fuel : nat) (graph : JsValue)
      (t : Runtime.Thrown) :
  polled net sm graphName pi fuel graph (mkRun (inl t) []).
Proof. exists 0. cbn. ended. Qed.

Lemma conclude_polled (graphName : string) (pi : Z) (fuel : nat)
      (graph state : JsValue) (past : list Event) :
  status_of graph state ->
  polled net sm graphName pi fuel graph (conclude fm stringify graph state past).
Proof.
  intros Hstate. unfold conclude.
  destruct (is_status state "VALID") eqn:Ev; cbn [negb].
  - exists 0. cbn. ended.
    intros g H. inversion H; subst g. split.
    + unfold is_status in Ev. destruct state; try discriminate.
      apply String.eqb_eq in Ev. subst s.
      unfold status_of in Hstate. destruct graph; try contradiction;
        try discriminate. eauto.
    + left. auto.
  - unfold bind, prop, fault, throw, ret.
    destruct graph; cbn; apply polled_thrown.
Qed.

(** How the polling loop ends, what it asked and how long it slept. *)
Lemma await_validation_run (graphName : string) (vt pi start : Z) :
  forall (fuel : nat) (graph state : JsValue) (past : list Event),
    status_of graph state ->
    polled net sm graphName pi fuel graph
           (await_validation net clock fm stringify sm fuel graphName
                             vt pi start graph state past).
Proof.
  induction fuel as [|fuel IH]; intros graph state past Hstate;
    cbn [await_validation].
  - destruct (is_status state "PENDING") eqn:Ep.
    + exists 0. cbn. ended.
    + apply conclude_polled. exact Hstate.
  - destruct (is_status state "PENDING") eqn:Ep;
      [|apply conclude_polled; exact Hstate].
    unfold bind at 1, now. cbn [app].
    destruct (vt * 1000 <? clock past - start)%Z eqn:Et.
    { exists 0. cbn. ended. }
    unfold bind at 1, sleep at 1, emit at 1. cbn [app].
    unfold bind at 1.
    pose proof (getGraph_run graphName
                  (EvSleep (pi * 1000) :: EvNow (clock past) :: past)) as Hget.
    cbv zeta in Hget.
    destruct (getGraph net fm sm graphName
                (EvSleep (pi * 1000) :: EvNow (clock past) :: past))
      as [[t|graph'] dg]; cbn [emitted result] in Hget;
      destruct Hget as [-> Hres].
    { exists 1. cbn. ended. }
    destruct (Hres graph' eq_refl) as (res & Hnet & Hok & Hjson).
    cbn [app]. unfold bind at 1.
    match goal with
    | |- context [prop fm graph' "validation_status" ?p] =>
        pose proof (prop_status fm graph' p) as [Hd Hst];
        destruct (prop fm graph' "validation_status" p) as [[t|state'] dp]
    end; cbn [emitted result] in Hd, Hst; subst dp.
    { exists 1. cbn. ended. }
    specialize (Hst state' eq_refl). cbn [app].
    match goal with
    | |- context [await_validation net clock fm stringify sm fuel graphName
                                   vt pi start graph' state' ?p] =>
        destruct (IH graph' state' p Hst)
          as (polls & Hle & Hreq & Hsl & Hpend & Hval);
        destruct (await_validation net clock fm stringify sm fuel graphName
                                   vt pi start graph' state' p)
          as [r dr]
    end.
    cbn [emitted result] in *.
    exists (S polls). cbn [emitted result]. split; [lia|].
    rewrite !app_nil_r. split; [|split; [|split]].
    + rewrite !client_requests_app, Hreq. cbn [requests app repeat]. reflexivity.
    + rewrite !client_sleeps_app, Hsl. cbn [sleeps app repeat]. reflexivity.
    + intros H. rewrite (Hpend H). reflexivity.
    + intros g H. destruct (Hval g H) as [Hvalid Hfrom]. split; [exact Hvalid|].
      right. destruct Hfrom as [[-> ->] | (res' & past' & Hin & Hn' & Hok' & Hj')].
      * exists res. eexists. split; [|split; [exact Hnet | split; assumption]].
        rewrite Hnet, !in_app_iff. cbn [In]. tauto.
      * exists res', past'. split; [|auto].
        rewrite !in_app_iff. tauto.
Qed.

End UpsertFacts.

Section DeadlineFacts.
Import Js Client StateManager Polling Deadline.
Variable net : list Event -> Request -> FetchResult.
Variable clock : list Event -> Z.
Variable fm : Fault -> string.
Variable stringify : JsValue -> string.
Variable sm : StateManager.t.
Hypothesis clock_keeps_time : keeps_time clock.

Lemma within_silent (vt pi : Z) (k : nat) (r : Runtime.Thrown + Upserted)
      (d : list Event) :
  requests d = [] -> within vt pi k (mkRun r d).
Proof. intros H. unfold within. cbn. rewrite H. cbn. lia. Qed.

Lemma conclude_silent (graph state : JsValue) (past : list Event) :
  requests (emitted (conclude fm stringify graph state past)) = [].
Proof.
  unfold conclude, bind, prop, fault, throw, ret.
  destruct (is_status state "VALID"); cbn; [reflexivity|].
  destruct graph; reflexivity.
Qed.

Lemma await_validation_within (graphName : string) (vt pi start : Z) :
  (0 < pi)%Z ->
  forall (fuel : nat) (graph state : JsValue) (past : list Event) (k : nat),
    (start + Z.of_nat k * (pi * 1000) <= clock past)%Z ->
    within vt pi k
           (await_validation net clock fm stringify sm fuel graphName
                             vt pi start graph state past).
Proof.
  intros Hpi. induction fuel as [|fuel IH]; intros graph state past k Hk;
    cbn [await_validation].
  - destruct (is_status state "PENDING").
    + apply within_silent. reflexivity.
    + pose proof (conclude_silent graph state past) as Hs.
      destruct (conclude fm stringify graph state past) as [r d].
      apply within_silent. exact Hs.
  - destruct (is_status state "PENDING").
    2:{ pose proof (conclude_silent graph state past) as Hs.
        destruct (conclude fm stringify graph state past) as [r d].
        apply within_silent. exact Hs. }
    unfold bind at 1, now. cbn [app].
    destruct (vt * 1000 <? clock past - start)%Z eqn:Et.
    { apply within_silent. reflexivity. }
    apply Z.ltb_ge in Et.
    assert (Hfits : (Z.of_nat k * pi <= vt)%Z) by nia.
    unfold bind at 1, sleep at 1, emit at 1. cbn [app].
    unfold bind at 1.
    pose proof (getGraph_run net fm sm graphName
                  (EvSleep (pi * 1000) :: EvNow (clock past) :: past)) as Hget.
    cbv zeta in Hget.
    destruct (getGraph net fm sm graphName
                (EvSleep (pi * 1000) :: EvNow (clock past) :: past))
      as [[t|graph'] dg]; cbn [emitted result] in Hget;
      destruct Hget as [-> _].
    { unfold within. cbn [emitted requests app length Nat.add]. intros _. nia. }
    cbn [app]. unfold bind at 1.
    match goal with
    | |- context [prop fm graph' "validation_status" ?p] =>
        pose proof (prop_status fm graph' p) as [Hd _];
        destruct (prop fm graph' "validation_status" p) as [[t|state'] dp]
    end; cbn [emitted] in Hd; subst dp.
    { unfold within. cbn [emitted requests app length Nat.add]. intros _. nia. }
    cbn [app].
    match goal with
    | |- context [await_validation net clock fm stringify sm fuel graphName
                                   vt pi start graph' state' ?p] =>
        assert (Hnext : (start + Z.of_nat (S k) * (pi * 1000) <= clock p)%Z);
        [ pose proof (clock_keeps_time past
                        [EvFetch (get_request sm graphName)
                                 (net (EvSleep (pi * 1000) :: EvNow (clock past) :: past)
                                      (get_request sm graphName));
                         EvSleep (pi * 1000); EvNow (clock past)]) as Hadv;
          cbn in Hadv; cbn [app]; lia
        | specialize (IH graph' state' p (S k) Hnext);
          destruct (await_validation net clock fm stringify sm fuel graphName
                                     vt pi start graph' state' p) as [r dr] ]
    end.
    unfold within in *. cbn [emitted] in *.
    rewrite !app_nil_r, !client_requests_app. cbn [requests app length].
    intros _. destruct (requests dr) as [|x xs] eqn:Er; cbn [length] in *.
    + nia.
    + assert (1 <= S (length xs)) as H1 by lia. specialize (IH H1). nia.
Qed.

End DeadlineFacts.

Section UpsertRun.
Import Js Client StateManager Polling Deadline Upserting.
Variable net : list Event -> Request -> FetchResult.
Variable clock : list Event -> Z.
Variable fm : Fault -> string.
Variable stringify : JsValue -> string.
Variable sm : StateManager.t.

Lemma dump_run (v : JsValue) (past : list Event) :
  emitted (dump fm v past) = [].
Proof.
  unfold dump, fault, throw, ret. destruct v; try reflexivity.
  destruct (Utils.in_object fields "model_dump"); reflexivity.
Qed.

Lemma dumps_run (nodes : list JsValue) :
  forall past, emitted (map_m (dump fm) nodes past) = [].
Proof.
  induction nodes as [|v nodes IH]; intros past; cbn [map_m]; [reflexivity|].
  unfold bind. pose proof (dump_run v past) as Hv.
  destruct (dump fm v past) as [[t|dumped] d1]; cbn [emitted] in Hv; subst d1;
    [reflexivity|].
  pose proof (IH ([] ++ past)%list) as Hr.
  destruct (map_m (dump fm) nodes ([] ++ past)%list) as [[t|rest] d2];
    cbn [emitted] in Hr; subst d2; reflexivity.
Qed.

Lemma dump_optional_run (k : string) (v : option JsValue) (past : list Event) :
  emitted (dump_optional fm k v past) = [].
Proof.
  unfold dump_optional. destruct v as [given|]; [|reflexivity].
  unfold bind. pose proof (dump_run given past) as Hv.
  destruct (dump fm given past) as [[t|dumped] d1]; cbn [emitted] in Hv; subst d1;
    reflexivity.
Qed.

(** The run of [upsertGraph]: the PUT, then the polling loop. *)
Lemma upsertGraph_run (fuel : nat) (graphName : string)
      (graphNodes : list JsValue) (secrets : JsValue)
      (retryPolicy storeConfig : option JsValue)
      (validationTimeout pollingInterval : option Z) (past : list Event) :
  upserted net clock fm stringify sm fuel graphName
           (Runtime.or_else validationTimeout 60%Z)
           (Runtime.or_else pollingInterval 1%Z) past
           (upsertGraph net clock fm stringify sm fuel graphName graphNodes
                        secrets retryPolicy storeConfig validationTimeout
                        pollingInterval past).
Proof.
  unfold upsertGraph. cbv zeta.
  set (vt := Runtime.or_else validationTimeout 60%Z).
  set (pi := Runtime.or_else pollingInterval 1%Z).
  unfold bind at 1.
  pose proof (dumps_run graphNodes past) as Hn.
  destruct (map_m (dump fm) graphNodes past) as [[t|nodes] d1];
    cbn [emitted] in Hn; subst d1; [left; eauto|].
  cbn [app]. unfold bind at 1.
  pose proof (dump_optional_run "retry_policy" retryPolicy past) as Hr.
  destruct (dump_optional fm "retry_policy" retryPolicy past)
    as [[t|retry_policy] d2]; cbn [emitted] in Hr; subst d2; [left; eauto|].
  cbn [app]. unfold bind at 1.
  pose proof (dump_optional_run "store_config" storeConfig past) as Hs.
  destruct (dump_optional fm "store_config" storeConfig past)
    as [[t|store_config] d3]; cbn [emitted] in Hs; subst d3; [left; eauto|].
  cbn [app].
  set (body := List.concat [[("secrets", secrets); ("nodes", JArr nodes)];
                            retry_policy; store_config]).
  unfold bind at 1, fetch.
  destruct (net past (upsert_request sm graphName body)) as [m|res] eqn:Enet.
  { right. exists body. cbv zeta. rewrite Enet. reflexivity. }
  cbn [app].
  destruct ((status res =? 200)%Z || (status res =? 201)%Z) eqn:Eacc; cbn [negb].
  2:{ right. exists body. cbv zeta. rewrite Enet, Eacc. reflexivity. }
  unfold bind at 1, res_json.
  destruct (json res) as [graph|] eqn:Ej.
  2:{ right. exists body. cbv zeta. rewrite Enet, Eacc. left.
      eexists. unfold fault, throw. cbn. reflexivity. }
  unfold ret at 1. cbn [app]. unfold bind at 1.
  match goal with
  | |- context [prop fm graph "validation_status" ?p] =>
      pose proof (prop_status fm graph p) as [Hd Hst];
      destruct (prop fm graph "validation_status" p) as [[t|state] dp]
  end; cbn [emitted result] in Hd, Hst; subst dp.
  { right. exists body. cbv zeta. rewrite Enet, Eacc. left.
    eexists. cbn. reflexivity. }
  specialize (Hst state eq_refl). cbn [app].
  unfold bind, now. cbn [app].
  match goal with
  | |- context [await_validation net clock fm stringify sm fuel graphName
                                 vt pi ?s graph state ?p] =>
      destruct (await_validation net clock fm stringify sm fuel graphName
                                 vt pi s graph state p) as [r dr] eqn:Eloop
  end.
  right. exists body. cbv zeta. rewrite Enet, Eacc. right.
  exists graph, state. split; [assumption|]. split; [exact Hst|].
  rewrite Eloop. cbn [result emitted].
  rewrite !app_nil_r, <- !app_assoc. reflexivity.
Qed.

End UpsertRun.

(** [upsertGraph] either throws before any request, or sends one PUT and
    then polls: every poll is a GET of the same graph made right after a
    sleep of the polling interval, so there are as many sleeps as GETs,
    and never more than the fuel allows.  It polls only when the PUT was
    answered with status 200 or 201: any other status, even another 2xx,
    makes it throw the upsert error at once. *)
Theorem upsert_polls_only_after_acceptance :
  forall (net : list Client.Event -> Client.Request -> Client.FetchResult)
         (clock : list Client.Event -> Z) (fm : Client.Fault -> string)
         (stringify : Js.JsValue -> string) (sm : StateManager.t)
         (fuel : nat) (graphName : string) (graphNodes : list Js.JsValue)
         (secrets : Js.JsValue) (retryPolicy storeConfig : option Js.JsValue)
         (validationTimeout pollingInterval : option Z)
         (past : list Client.Event),
    let run := StateManager.upsertGraph net clock fm stringify sm fuel graphName
                 graphNodes secrets retryPolicy storeConfig validationTimeout
                 pollingInterval past in
    let pi := Runtime.or_else pollingInterval 1%Z in
    (Client.requests (Client.emitted run) = []
     /\ Client.sleeps (Client.emitted run) = []
     /\ exists t, Client.result run = inl t)
    \/ exists body polls,
         Client.requests (Client.emitted run)
         = StateManager.upsert_request sm graphName body
           :: repeat (StateManager.get_request sm graphName) polls
         /\ Client.sleeps (Client.emitted run) = repeat (pi * 1000)%Z polls
         /\ polls <= fuel
         /\ (1 <= polls ->
             exists res,
               net past (StateManager.upsert_request sm graphName body)
               = Client.FetchResolves res
               /\ (Client.status res = 200%Z \/ Client.status res = 201%Z))
         /\ (forall res,
               net past (StateManager.upsert_request sm graphName body)
               = Client.FetchResolves res ->
               Client.status res <> 200%Z -> Client.status res <> 201%Z ->
               polls = 0
               /\ Client.result run
                  = inl (Runtime.ThrowError
                           ("Failed to upsert graph: "
                            ++ JsString.of_number (Client.status res)
                            ++ " " ++ Client.text res))).
Proof.
  intros net clock fm stringify sm fuel graphName graphNodes secrets
         retryPolicy storeConfig validationTimeout pollingInterval past run pi.
  pose proof (upsertGraph_run net clock fm stringify sm fuel graphName graphNodes
                secrets retryPolicy storeConfig validationTimeout
                pollingInterval past) as Hrun.
  fold run in Hrun. fold pi in Hrun.
  destruct Hrun as [[t ->] | (body & Hrun)]; [left; cbn; eauto|].
  right. exists body. cbv zeta in Hrun.
  destruct (net past (StateManager.upsert_request sm graphName body))
    as [m|res] eqn:Enet.
  { rewrite Hrun. exists 0. cbn.
    split; [reflexivity|]. split; [reflexivity|]. split; [lia|].
    split; [lia|]. intros res E. discriminate. }
  destruct ((Client.status res =? 200)%Z || (Client.status res =? 201)%Z) eqn:Eacc.
  - assert (Hstatus : Client.status res = 200%Z \/ Client.status res = 201%Z).
    { apply orb_true_iff in Eacc. destruct Eacc as [E | E];
        apply Z.eqb_eq in E; auto. }
    destruct Hrun as [[t ->] | (graph & state & Hj & Hst & Hrun)].
    { exists 0. cbn.
      split; [reflexivity|]. split; [reflexivity|]. split; [lia|].
      split; [lia|]. intros res' E H200 H201. inversion E; subst. lia. }
    cbv zeta in Hrun.
    destruct (await_validation_run net clock fm stringify sm graphName
                (Runtime.or_else validationTimeout 60%Z) pi
                (clock (Client.EvFetch (StateManager.upsert_request sm graphName body)
                                       (Client.FetchResolves res) :: past))
                fuel graph state
                (Client.EvNow
                   (clock (Client.EvFetch
                             (StateManager.upsert_request sm graphName body)
                             (Client.FetchResolves res) :: past))
                 :: Client.EvFetch (StateManager.upsert_request sm graphName body)
                                   (Client.FetchResolves res) :: past) Hst)
      as (polls & Hle & Hreq & Hsl & _ & _).
    exists polls. rewrite Hrun. cbn [Client.emitted Client.result].
    rewrite client_requests_app, client_sleeps_app, Hreq, Hsl.
    cbn [Client.requests Client.sleeps app].
    split; [reflexivity|]. split; [reflexivity|]. split; [assumption|].
    split; [eauto|]. intros res' E H200 H201. inversion E; subst. lia.
  - apply orb_false_iff in Eacc. destruct Eacc as [E200 E201].
    rewrite Hrun. exists 0. cbn.
    split; [reflexivity|]. split; [reflexivity|]. split; [lia|].
    split; [lia|]. intros res' E _ _. inversion E; subst.
    split; reflexivity.
Qed.

(** A graph accepted as PENDING and found VALID by the second poll. *)
Lemma upsert_polls_witness :
  let run := StateManager.upsertGraph Cases.net_validating Polling.timer_clock
               Cases.fault_text Cases.stringified Cases.manager 10 "g" []
               (JObj []) None None None None [] in
  exists body,
    Client.requests (Client.emitted run)
    = [StateManager.upsert_request Cases.manager "g" body;
       StateManager.get_request Cases.manager "g";
       StateManager.get_request Cases.manager "g"]
    /\ Client.sleeps (Client.emitted run) = [1000; 1000]%Z.
Proof.
  intros run.
  destruct (upsert_polls_only_after_acceptance Cases.net_validating
              Polling.timer_clock Cases.fault_text Cases.stringified
              Cases.manager 10 "g" [] (JObj []) None None None None [])
    as [(Hnone & _) | (body & polls & Hreq & Hsleeps & _)].
  - vm_compute in Hnone. discriminate.
  - assert (length (Client.requests (Client.emitted run)) = 3) as Hlen
      by (vm_compute; reflexivity).
    fold run in Hreq, Hsleeps. rewrite Hreq in Hlen. cbn [length] in Hlen.
    rewrite repeat_length in Hlen.
    assert (polls = 2) as -> by lia.
    exists body. split; [exact Hreq | exact Hsleeps].
Defined.

(** The graph that [upsertGraph] resolves with always has the validation
    status VALID, and it is the JSON body of a reply it received: the
    PUT's when no poll was needed, that of a poll otherwise. *)
Theorem upsert_resolves_only_with_a_valid_graph :
  forall (net : list Client.Event -> Client.Request -> Client.FetchResult)
         (clock : list Client.Event -> Z) (fm : Client.Fault -> string)
         (stringify : Js.JsValue -> string) (sm : StateManager.t)
         (fuel : nat) (graphName : string) (graphNodes : list Js.JsValue)
         (secrets : Js.JsValue) (retryPolicy storeConfig : option Js.JsValue)
         (validationTimeout pollingInterval : option Z)
         (past : list Client.Event) (graph : Js.JsValue),
    let run := StateManager.upsertGraph net clock fm stringify sm fuel graphName
                 graphNodes secrets retryPolicy storeConfig validationTimeout
                 pollingInterval past in
    Client.result run = inr (StateManager.Validated graph) ->
    (exists fields,
        graph = Js.JObj fields
        /\ Js.field fields "validation_status" = Js.JStr "VALID")
    /\ exists req res,
         In (Client.EvFetch req (Client.FetchResolves res)) (Client.emitted run)
         /\ Client.ok res = true
         /\ Client.json res = Some graph.
Proof.
  intros net clock fm stringify sm fuel graphName graphNodes secrets
         retryPolicy storeConfig validationTimeout pollingInterval past graph
         run Hres.
  pose proof (upsertGraph_run net clock fm stringify sm fuel graphName graphNodes
                secrets retryPolicy storeConfig validationTimeout
                pollingInterval past) as Hrun.
  fold run in Hrun.
  destruct Hrun as [[t Hrun] | (body & Hrun)];
    [rewrite Hrun in Hres; discriminate|].
  cbv zeta in Hrun.
  destruct (net past (StateManager.upsert_request sm graphName body))
    as [m|res] eqn:Enet; [rewrite Hrun in Hres; discriminate|].
  destruct ((Client.status res =? 200)%Z || (Client.status res =? 201)%Z) eqn:Eacc;
    [|rewrite Hrun in Hres; discriminate].
  assert (Hok : Client.ok res = true).
  { unfold Client.ok. apply orb_true_iff in Eacc.
    destruct Eacc as [E | E]; apply Z.eqb_eq in E; rewrite E; reflexivity. }
  destruct Hrun as [[t Hrun] | (g0 & state & Hj & Hst & Hrun)];
    [rewrite Hrun in Hres; discriminate|].
  cbv zeta in Hrun.
  match type of Hrun with
  | run = Client.mkRun
            (Client.result
               (StateManager.await_validation _ _ _ _ _ _ _ ?vt ?pi ?start _ _ ?p))
            _ =>
      destruct (await_validation_run net clock fm stringify sm graphName
                  vt pi start fuel g0 state p Hst)
        as (polls & _ & _ & _ & _ & Hval)
  end.
  rewrite Hrun in Hres. cbn [Client.result] in Hres.
  destruct (Hval graph Hres) as [Hvalid Hfrom]. split; [exact Hvalid|].
  rewrite Hrun. cbn [Client.emitted].
  destruct Hfrom as [[_ ->] | (res' & past' & Hin & _ & Hok' & Hj')].
  - exists (StateManager.upsert_request sm graphName body), res.
    split; [|split; assumption]. apply in_or_app. right. right. left. reflexivity.
  - exists (StateManager.get_request sm graphName), res'.
    split; [|split; assumption]. apply in_or_app. left. exact Hin.
Qed.

(** The same upsert resolves with the graph of the second poll. *)
Lemma upsert_resolves_witness :
  let run := StateManager.upsertGraph Cases.net_validating Polling.timer_clock
               Cases.fault_text Cases.stringified Cases.manager 10 "g" []
               (JObj []) None None None None [] in
  let graph := JObj [("validation_status", JStr "VALID")] in
  Client.result run = inr (StateManager.Validated graph)
  /\ exists req res,
       In (Client.EvFetch req (Client.FetchResolves res)) (Client.emitted run)
       /\ Client.ok res = true
       /\ Client.json res = Some graph.
Proof.
  intros run graph.
  assert (Client.result run = inr (StateManager.Validated graph)) as Hres
    by (vm_compute; reflexivity).
  split; [exact Hres|].
  apply (upsert_resolves_only_with_a_valid_graph Cases.net_validating
           Polling.timer_clock Cases.fault_text Cases.stringified
           Cases.manager 10 "g" [] (JObj []) None None None None [] graph Hres).
Defined.

(** For an integer validation timeout and polling interval (the numbers
    of this model), a clock that never runs behind the timers and a
    positive polling interval, [upsertGraph] cannot poll for ever: all its
    polls but the last fit into the validation timeout, so that it makes at
    most timeout / interval + 1 polls, and with more fuel than that it
    always settles (it resolves, or it throws, for instance the time-out
    error). *)
Theorem upsert_settles_within_the_timeout :
  forall (net : list Client.Event -> Client.Request -> Client.FetchResult)
         (clock : list Client.Event -> Z) (fm : Client.Fault -> string)
         (stringify : Js.JsValue -> string) (sm : StateManager.t)
         (fuel : nat) (graphName : string) (graphNodes : list Js.JsValue)
         (secrets : Js.JsValue) (retryPolicy storeConfig : option Js.JsValue)
         (validationTimeout pollingInterval : option Z)
         (past : list Client.Event),
    let run := StateManager.upsertGraph net clock fm stringify sm fuel graphName
                 graphNodes secrets retryPolicy storeConfig validationTimeout
                 pollingInterval past in
    let vt := Runtime.or_else validationTimeout 60%Z in
    let pi := Runtime.or_else pollingInterval 1%Z in
    let polls := length (Client.requests (Client.emitted run)) - 1 in
    Polling.keeps_time clock -> (0 < pi)%Z ->
    (1 <= polls -> ((Z.of_nat polls - 1) * pi <= vt)%Z)
    /\ (1 <= fuel -> (vt < (Z.of_nat fuel - 1) * pi)%Z ->
        Client.result run <> inr StateManager.StillPending).
Proof.
  intros net clock fm stringify sm fuel graphName graphNodes secrets
         retryPolicy storeConfig validationTimeout pollingInterval past
         run vt pi polls Hclock Hpi.
  pose proof (upsertGraph_run net clock fm stringify sm fuel graphName graphNodes
                secrets retryPolicy storeConfig validationTimeout
                pollingInterval past) as Hrun.
  fold run in Hrun. fold vt in Hrun. fold pi in Hrun.
  destruct Hrun as [[t Hrun] | (body & Hrun)].
  { subst polls. rewrite Hrun. cbn. split; [lia | discriminate]. }
  cbv zeta in Hrun.
  destruct (net past (StateManager.upsert_request sm graphName body))
    as [m|res] eqn:Enet.
  { subst polls. rewrite Hrun. cbn. split; [lia | discriminate]. }
  destruct ((Client.status res =? 200)%Z || (Client.status res =? 201)%Z).
  2:{ subst polls. rewrite Hrun. cbn. split; [lia | discriminate]. }
  destruct Hrun as [[t Hrun] | (graph & state & Hj & Hst & Hrun)].
  { subst polls. rewrite Hrun. cbn. split; [lia | discriminate]. }
  cbv zeta in Hrun.
  set (sent := Client.EvFetch (StateManager.upsert_request sm graphName body)
                              (Client.FetchResolves res)) in *.
  set (start := clock (sent :: past)) in *.
  assert (Hstart : (start + Z.of_nat 0 * (pi * 1000)
                    <= clock (Client.EvNow start :: sent :: past))%Z).
  { pose proof (Hclock (sent :: past) [Client.EvNow start]) as H.
    cbn in H. subst start. cbn. lia. }
  pose proof (await_validation_within net clock fm stringify sm Hclock graphName
                vt pi start Hpi fuel graph state
                (Client.EvNow start :: sent :: past) 0 Hstart) as Hwithin.
  destruct (await_validation_run net clock fm stringify sm graphName vt pi start
              fuel graph state (Client.EvNow start :: sent :: past) Hst)
    as (n & Hle & Hreq & _ & Hpend & _).
  unfold Deadline.within in Hwithin. rewrite Hreq, repeat_length in Hwithin.
  assert (Hpolls : polls = n).
  { subst polls. rewrite Hrun. cbn [Client.emitted].
    rewrite client_requests_app, Hreq. subst sent.
    cbn [Client.requests app length]. rewrite repeat_length. lia. }
  rewrite Hpolls. split.
  - intros H1. specialize (Hwithin H1). rewrite Nat.add_0_r in Hwithin. exact Hwithin.
  - intros Hfuel Hvt Hstill. rewrite Hrun in Hstill. cbn [Client.result] in Hstill.
    specialize (Hpend Hstill). subst n.
    specialize (Hwithin Hfuel). rewrite Nat.add_0_r in Hwithin. lia.
Qed.

(** A graph that stays PENDING: the upsert ends within seventy polls. *)
Lemma upsert_settles_witness :
  let run := StateManager.upsertGraph Cases.net_pending Polling.timer_clock
               Cases.fault_text Cases.stringified Cases.manager 70 "g" []
               (JObj []) None None None None [] in
  Client.result run <> inr StateManager.StillPending.
Proof.
  intros run.
  destruct (upsert_settles_within_the_timeout Cases.net_pending
              Polling.timer_clock Cases.fault_text Cases.stringified
              Cases.manager 70 "g" [] (JObj []) None None None None []
              timer_clock_keeps_time)
    as (_ & Hsettles).
  - reflexivity.
  - apply Hsettles; [lia | reflexivity].
Defined.
